(** * Clawty terminal display engine: a shallow embedding of src/cli.ts

    The development follows the layout of the source file:
    - [JS]: the JavaScript string primitives the code relies on;
    - [Ansi]: the style constants declared at the top of cli.ts;
    - [Markdown]: class [MarkdownRenderer] ([push], [flush], [matchFence]);
    - [Wrap]: [wrapAssistantText];
    - [Display]: the erase-and-redraw coordinator of [main]
      ([eraseLines], [redrawPrompt], [writePermanent], [writeStreaming],
      the spinner functions and [handleChar]);
    - [Monitor]: how a terminal trace is read back;
    - [Samples]: the concrete inputs used in examples;
    - [Text], [Session]: kinds of text, and the events that reach the
      display during a session (keys, spinner ticks, turn boundaries);
    - [Messages]: [formatDuration] of cli.ts and [splitMessage] of sender.ts.

    Definitions come first; the properties follow in [JSFacts],
    [MarkdownFacts], [WrapFacts] and [DisplayFacts], and further ones in the
    modules after them. *)

From Stdlib Require Import Ascii String DecimalString.
From Stdlib Require Import List ZArith NArith Lia Bool Arith.
Import ListNotations.

(** ** JavaScript strings *)

Module JS.

(** A JavaScript string is a sequence of UTF-16 code units; [length],
    indexing, [indexOf] and [slice] all count code units. *)
Definition char := N.
Definition jsstring := list char.

(** An ASCII literal of the source. *)
Definition lit (s : string) : jsstring :=
  map N_of_ascii (list_ascii_of_string s).

Definition LF : char := 10%N.
Definition CR : char := 13%N.
Definition ESC : char := 27%N.
Definition SPACE : char := 32%N.

(** [s[i]]; [None] is [undefined]. *)
Definition charAt (s : jsstring) (i : nat) : option char := nth_error s i.

(** [s[i] === c] for a one-character literal [c]. *)
Definition charIs (c : option char) (k : char) : bool :=
  match c with
  | Some x => N.eqb x k
  | None => false
  end.

(** [a === b] on strings. *)
Fixpoint eqb (a b : jsstring) : bool :=
  match a, b with
  | [], [] => true
  | x :: a', y :: b' => N.eqb x y && eqb a' b'
  | _, _ => false
  end.

(** Position of the first [c] in [s], counted from [base]. *)
Fixpoint find (c : char) (s : jsstring) (base : nat) : option nat :=
  match s with
  | [] => None
  | x :: s' => if N.eqb x c then Some base else find c s' (S base)
  end.

(** [s.indexOf(c, from)]; [None] is the result -1. *)
Definition indexOf (c : char) (s : jsstring) (from : nat) : option nat :=
  find c (skipn from s) from.

(** [s.lastIndexOf(c)]. *)
Fixpoint lastIndexOf_from (c : char) (s : jsstring) (base : nat) (acc : option nat)
  : option nat :=
  match s with
  | [] => acc
  | x :: s' =>
      lastIndexOf_from c s' (S base) (if N.eqb x c then Some base else acc)
  end.

Definition lastIndexOf (c : char) (s : jsstring) : option nat :=
  lastIndexOf_from c s 0 None.

(** [s.slice(a)] and [s.slice(a, b)] for indices [0 <= a], [0 <= b]. *)
Definition sliceFrom (s : jsstring) (a : nat) : jsstring := skipn a s.
Definition slice (s : jsstring) (a b : nat) : jsstring := firstn (b - a) (skipn a s).

(** [s.slice(start, end)] in general: a negative index counts from the
    end, and both are clamped to the string. *)
Definition clampIndex (len k : Z) : Z :=
  if (k <? 0)%Z then Z.max (len + k) 0 else Z.min k len.

Definition sliceZ (s : jsstring) (start : Z) (stop : option Z) : jsstring :=
  let len := Z.of_nat (length s) in
  let from := clampIndex len start in
  let to := match stop with
            | Some e => clampIndex len e
            | None => len
            end in
  firstn (Z.to_nat (to - from)) (skipn (Z.to_nat from) s).

(** A number interpolated into a template literal. *)
Definition decimal (n : Z) : jsstring := lit (NilEmpty.string_of_int (Z.to_int n)).

(** [s.includes(c)]. *)
Definition includes (s : jsstring) (c : char) : bool := existsb (N.eqb c) s.

(** [s.endsWith(c)] for a one-character [c]. *)
Definition endsWith (s : jsstring) (c : char) : bool :=
  match rev s with
  | x :: _ => N.eqb x c
  | [] => false
  end.

(** Number of leading code units of [s] equal to [c]. *)
Fixpoint run (c : char) (s : jsstring) : nat :=
  match s with
  | x :: s' => if N.eqb x c then S (run c s') else 0
  | [] => 0
  end.

(** White space and line terminators, as removed by [String.prototype.trim]. *)
Definition isWhiteSpace (c : char) : bool :=
  ((9 <=? c) && (c <=? 13) || (c =? 32) || (c =? 160) || (c =? 5760)
   || (8192 <=? c) && (c <=? 8202) || (c =? 8232) || (c =? 8233)
   || (c =? 8239) || (c =? 8287) || (c =? 12288) || (c =? 65279))%N.

Fixpoint trimStart (s : jsstring) : jsstring :=
  match s with
  | x :: s' => if isWhiteSpace x then trimStart s' else s
  | [] => []
  end.

Definition trim (s : jsstring) : jsstring :=
  rev (trimStart (rev (trimStart s))).

(** [c.repeat(n)] for a one-character string; a negative count raises
    RangeError ([None]). *)
Definition repeat1 (c : char) (n : Z) : option jsstring :=
  if (n <? 0)%Z then None else Some (repeat c (Z.to_nat n)).

(** [process.stdout.columns || 80]: the property is undefined off a
    terminal, and 0 is falsy. *)
Definition terminalCols (columns : option N) : Z :=
  match columns with
  | Some (Npos p) => Zpos p
  | _ => 80%Z
  end.

End JS.
Import JS.

(** ** Style constants *)

Module Ansi.

Definition sgr (params : string) : jsstring := ESC :: lit ("[" ++ params ++ "m")%string.

Definition RESET := sgr "0".
Definition BOLD := sgr "1".
Definition DIM := sgr "2".
Definition ITALIC := sgr "3".
Definition CYAN := sgr "36".
Definition BRIGHT_MAGENTA := sgr "95".
Definition UNDERLINE := sgr "4".
Definition NO_UNDERLINE := sgr "24".
Definition NO_BOLD := sgr "22".
Definition NO_ITALIC := sgr "23".

(** U+2500 BOX DRAWINGS LIGHT HORIZONTAL and U+2022 BULLET. *)
Definition HLINE : char := 9472%N.
Definition BULLET : char := 8226%N.

End Ansi.
Import Ansi.

(** ** MarkdownRenderer *)

Module Markdown.

(** The private fields of the class. *)
Record MarkdownRenderer := mkRenderer {
  pending : jsstring;
  bold : bool;
  italic : bool;
  inCode : bool;
  inCodeBlock : bool;
  codeBlockTicks : nat;
  atLineStart : bool;
  lineContent : jsstring
}.

(** [new MarkdownRenderer()]. *)
Definition fresh : MarkdownRenderer :=
  mkRenderer [] false false false false 0 true [].

Definition set_pending (p : jsstring) (r : MarkdownRenderer) :=
  mkRenderer p (bold r) (italic r) (inCode r) (inCodeBlock r)
    (codeBlockTicks r) (atLineStart r) (lineContent r).
Definition set_bold (b : bool) (r : MarkdownRenderer) :=
  mkRenderer (pending r) b (italic r) (inCode r) (inCodeBlock r)
    (codeBlockTicks r) (atLineStart r) (lineContent r).
Definition set_italic (b : bool) (r : MarkdownRenderer) :=
  mkRenderer (pending r) (bold r) b (inCode r) (inCodeBlock r)
    (codeBlockTicks r) (atLineStart r) (lineContent r).
Definition set_inCode (b : bool) (r : MarkdownRenderer) :=
  mkRenderer (pending r) (bold r) (italic r) b (inCodeBlock r)
    (codeBlockTicks r) (atLineStart r) (lineContent r).
Definition set_inCodeBlock (b : bool) (r : MarkdownRenderer) :=
  mkRenderer (pending r) (bold r) (italic r) (inCode r) b
    (codeBlockTicks r) (atLineStart r) (lineContent r).
Definition set_codeBlockTicks (n : nat) (r : MarkdownRenderer) :=
  mkRenderer (pending r) (bold r) (italic r) (inCode r) (inCodeBlock r)
    n (atLineStart r) (lineContent r).
Definition set_atLineStart (b : bool) (r : MarkdownRenderer) :=
  mkRenderer (pending r) (bold r) (italic r) (inCode r) (inCodeBlock r)
    (codeBlockTicks r) b (lineContent r).
Definition set_lineContent (l : jsstring) (r : MarkdownRenderer) :=
  mkRenderer (pending r) (bold r) (italic r) (inCode r) (inCodeBlock r)
    (codeBlockTicks r) (atLineStart r) l.

(** [this.atLineStart = true; this.lineContent = empty]. *)
Definition newLine (r : MarkdownRenderer) : MarkdownRenderer :=
  set_lineContent [] (set_atLineStart true r).

Definition BACKTICK : char := 96%N.
Definition TILDE : char := 126%N.
Definition HASH : char := 35%N.
Definition DASH : char := 45%N.
Definition STAR : char := 42%N.
Definition UNDERSCORE : char := 95%N.
Definition DOT : char := 46%N.
Definition LBRACKET : char := 91%N.
Definition RBRACKET : char := 93%N.
Definition LPAREN : char := 40%N.
Definition RPAREN : char := 41%N.

(** [matchFence(input, i)]: the length of the run of backticks or tildes
    starting at [i] when it is at least 3, otherwise 0. *)
Definition matchFence (input : jsstring) (i : nat) : nat :=
  match charAt input i with
  | Some ch =>
      if N.eqb ch BACKTICK || N.eqb ch TILDE then
        let count := run ch (sliceFrom input i) in
        if 3 <=? count then count else 0
      else 0
  | None => 0
  end.

(** What one iteration of the [while] loop of [push] does: [continue] (or
    fall off the end of the body) with a new index and the text appended to
    [out], [break] after storing the pending text, or an exception. *)
Inductive outcome :=
| Continue (r : MarkdownRenderer) (i : nat) (emitted : jsstring)
| Break (r : MarkdownRenderer)
| Throw (r : MarkdownRenderer).

(** The two lines [if (this.bold) out += BOLD; if (this.italic) out += ITALIC]
    that follow every reset. *)
Definition restoreStyles (r : MarkdownRenderer) : jsstring :=
  (if bold r then BOLD else []) ++ (if italic r then ITALIC else []).

(** Lines 68-83: an opening fence. [None] falls through. *)
Definition openFence (r : MarkdownRenderer) (input : jsstring) (i : nat)
  : option outcome :=
  if atLineStart r && negb (inCode r) && negb (inCodeBlock r) then
    let fence := matchFence input i in
    if 0 <? fence then
      let r1 := set_codeBlockTicks fence (set_inCodeBlock true r) in
      match indexOf LF input (i + fence) with
      | None => Some (Break (set_pending (sliceFrom input i) r1))
      | Some nl => Some (Continue (newLine r1) (nl + 1) DIM)
      end
    else None
  else None.

(** Lines 85-112: inside a fenced block. *)
Definition codeBlock (r : MarkdownRenderer) (input : jsstring) (i : nat)
  : option outcome :=
  if inCodeBlock r then
    let fence := matchFence input i in
    if atLineStart r && (codeBlockTicks r <=? fence) then
      let i' := match indexOf LF input (i + fence) with
                | None => length input
                | Some nl => nl + 1
                end in
      Some (Continue (newLine (set_inCodeBlock false r)) i' RESET)
    else
      match charAt input i with
      | Some c =>
          if N.eqb c LF then Some (Continue (newLine r) (i + 1) [LF])
          else Some (Continue
                       (set_lineContent (lineContent r ++ [c])
                          (set_atLineStart false r))
                       (i + 1) [c])
      | None => None
      end
  else None.

(** Lines 114-140: inline code. *)
Definition inlineCode (r : MarkdownRenderer) (input : jsstring) (i : nat)
  : option outcome :=
  if charIs (charAt input i) BACKTICK && negb (inCodeBlock r) then
    let r1 := set_inCode (negb (inCode r)) r in
    let out := if inCode r1 then CYAN else RESET ++ restoreStyles r1 in
    Some (Continue (set_atLineStart false r1) (i + 1) out)
  else if inCode r then
    match charAt input i with
    | Some c =>
        if N.eqb c LF then Some (Continue (newLine r) (i + 1) [LF])
        else Some (Continue (set_atLineStart false r) (i + 1) [c])
    | None => None
    end
  else None.

(** Lines 143-161: a header at line start. *)
Definition header (r : MarkdownRenderer) (input : jsstring) (i : nat)
  : option outcome :=
  if atLineStart r && charIs (charAt input i) HASH then
    let j := i + run HASH (sliceFrom input i) in
    if length input <=? j then Some (Break (set_pending (sliceFrom input i) r))
    else if charIs (charAt input j) SPACE then
      let j := j + 1 in
      match indexOf LF input j with
      | None => Some (Break (set_pending (sliceFrom input i) r))
      | Some nl =>
          Some (Continue (newLine r) (nl + 1)
                  (BOLD ++ slice input j nl ++ RESET ++ restoreStyles r ++ [LF]))
      end
    else None
  else None.

(** The scanning loop of lines 169-173: the index reached, the number of
    rule characters seen, and [isRule]. *)
Fixpoint ruleScan (ruleChar : char) (rest : jsstring) (j count : nat)
  : nat * nat * bool :=
  match rest with
  | [] => (j, count, true)
  | c :: rest' =>
      if N.eqb c LF then (j, count, true)
      else if N.eqb c ruleChar then ruleScan ruleChar rest' (S j) (S count)
      else if negb (N.eqb c SPACE) then (j, count, false)
      else ruleScan ruleChar rest' (S j) count
  end.

(** Lines 163-187: a horizontal rule at line start; [cols] is
    [process.stdout.columns || 80]. *)
Definition horizontalRule (cols : Z) (r : MarkdownRenderer) (input : jsstring)
  (i : nat) : option outcome :=
  match charAt input i with
  | Some ruleChar =>
      if atLineStart r
         && (N.eqb ruleChar DASH || N.eqb ruleChar STAR || N.eqb ruleChar UNDERSCORE)
      then
        let '(j, count, isRule) := ruleScan ruleChar (sliceFrom input i) i 0 in
        if (length input <=? j) && (count <? 3) then
          Some (Break (set_pending (sliceFrom input i) r))
        else if isRule && (3 <=? count) && ((j <? length input) || (3 <=? count))
        then
          let ruleWidth := Z.min (cols - 20) 40 in
          match repeat1 HLINE ruleWidth with
          | None => Some (Throw r)
          | Some line =>
              let out := DIM ++ line ++ RESET ++ restoreStyles r in
              if j <? length input
              then Some (Continue (newLine r) (j + 1) (out ++ [LF]))
              else Some (Continue (newLine r) j out)
          end
        else None
      else None
  | None => None
  end.

(** [DIM + bullet + RESET + " "] followed by the restored styles. *)
Definition bulletOut (r : MarkdownRenderer) : jsstring :=
  DIM ++ [BULLET] ++ RESET ++ [SPACE] ++ restoreStyles r.

Definition isDigit (c : option char) : bool :=
  match c with
  | Some x => ((48 <=? x) && (x <=? 57))%N
  | None => false
  end.

Fixpoint digits (s : jsstring) : nat :=
  match s with
  | x :: s' => if isDigit (Some x) then S (digits s') else 0
  | [] => 0
  end.

(** Lines 189-224: list items at line start. *)
Definition listItem (r : MarkdownRenderer) (input : jsstring) (i : nat)
  : option outcome :=
  if atLineStart r && charIs (charAt input i) DASH && (i + 1 <? length input)
     && charIs (charAt input (i + 1)) SPACE
  then
    Some (Continue (set_lineContent [BULLET; SPACE] (set_atLineStart false r))
            (i + 2) (bulletOut r))
  else if atLineStart r && charIs (charAt input i) STAR && (i + 1 <? length input)
          && charIs (charAt input (i + 1)) SPACE
          && ((i + 1 <? length input) && charIs (charAt input (i + 1)) SPACE)
  then
    Some (Continue (set_lineContent [BULLET; SPACE] (set_atLineStart false r))
            (i + 2) (bulletOut r))
  else if atLineStart r && isDigit (charAt input i) then
    let j := i + digits (sliceFrom input i) in
    if (j <? length input) && charIs (charAt input j) DOT
       && (j + 1 <? length input) && charIs (charAt input (j + 1)) SPACE
    then
      let num := slice input i j in
      Some (Continue
              (set_lineContent (num ++ [DOT; SPACE]) (set_atLineStart false r))
              (j + 2)
              (DIM ++ num ++ [DOT] ++ RESET ++ [SPACE] ++ restoreStyles r))
    else None
  else None.

(** Lines 226-246: bold and italic markers. *)
Definition emphasis (r : MarkdownRenderer) (input : jsstring) (i : nat)
  : option outcome :=
  if charIs (charAt input i) STAR && (i + 1 <? length input)
     && charIs (charAt input (i + 1)) STAR
  then
    let r1 := set_bold (negb (bold r)) r in
    let out := (if bold r1 then BOLD else NO_BOLD)
               ++ (if negb (bold r1) && italic r1 then ITALIC else []) in
    Some (Continue (set_atLineStart false r1) (i + 2) out)
  else if charIs (charAt input i) STAR then
    if i =? length input - 1 then Some (Break (set_pending [STAR] r))
    else
      let r1 := set_italic (negb (italic r)) r in
      Some (Continue (set_atLineStart false r1) (i + 1)
              (if italic r1 then ITALIC else NO_ITALIC))
  else None.

(** Lines 248-272: links. *)
Definition link (r : MarkdownRenderer) (input : jsstring) (i : nat)
  : option outcome :=
  if charIs (charAt input i) LBRACKET then
    match indexOf RBRACKET input (i + 1) with
    | None =>
        if length input - i <? 200
        then Some (Break (set_pending (sliceFrom input i) r))
        else None
    | Some closeBracket =>
        if (closeBracket + 1 <? length input)
           && charIs (charAt input (closeBracket + 1)) LPAREN
        then
          match indexOf RPAREN input (closeBracket + 2) with
          | None =>
              if length input - i <? 500
              then Some (Break (set_pending (sliceFrom input i) r))
              else None
          | Some closeParen =>
              let linkText := slice input (i + 1) closeBracket in
              let url := slice input (closeBracket + 2) closeParen in
              Some (Continue (set_atLineStart false r) (closeParen + 1)
                      (UNDERLINE ++ linkText ++ NO_UNDERLINE ++ DIM
                       ++ [SPACE; LPAREN] ++ url ++ [RPAREN] ++ RESET
                       ++ restoreStyles r))
          end
        else None
    end
  else None.

(** Lines 274-287: a newline or a literal character. *)
Definition literal (r : MarkdownRenderer) (input : jsstring) (i : nat) : outcome :=
  match charAt input i with
  | Some c =>
      if N.eqb c LF then Continue (newLine r) (i + 1) [LF]
      else Continue (set_lineContent (lineContent r ++ [c]) (set_atLineStart false r))
             (i + 1) [c]
  | None => Continue r (i + 1) []
  end.

Definition orElse (a : option outcome) (b : outcome) : outcome :=
  match a with
  | Some o => o
  | None => b
  end.

Notation "a <|> b" := (orElse a b) (at level 61, right associativity).

(** The body of the [while] loop, for [i < input.length]. *)
Definition step (cols : Z) (r : MarkdownRenderer) (input : jsstring) (i : nat)
  : outcome :=
  openFence r input i <|> codeBlock r input i <|> inlineCode r input i
  <|> header r input i <|> horizontalRule cols r input i <|> listItem r input i
  <|> emphasis r input i <|> link r input i <|> literal r input i.

(** How a call ends: the returned string, or a RangeError from [repeat]. *)
Inductive completion :=
| Returned (out : jsstring)
| RangeError.

(** The [while (i < input.length)] loop. Every iteration that continues
    moves [i] forward, so [length input - i] iterations suffice
    (lemma [loop_fuel] below). *)
Fixpoint loop (fuel : nat) (cols : Z) (r : MarkdownRenderer) (input : jsstring)
  (i : nat) (out : jsstring) : MarkdownRenderer * completion :=
  if length input <=? i then (r, Returned out)
  else
    match fuel with
    | 0 => (r, Returned out)
    | S fuel' =>
        match step cols r input i with
        | Continue r' i' emitted => loop fuel' cols r' input i' (out ++ emitted)
        | Break r' => (r', Returned out)
        | Throw r' => (r', RangeError)
        end
    end.

(** [push(chunk)]. *)
Definition push (cols : Z) (r : MarkdownRenderer) (chunk : jsstring)
  : MarkdownRenderer * completion :=
  let input := pending r ++ chunk in
  loop (length input) cols (set_pending [] r) input 0 [].

(** [flush()]. *)
Definition flush (r : MarkdownRenderer) : MarkdownRenderer * jsstring :=
  let out := pending r in
  let out := if bold r || italic r || inCode r || inCodeBlock r
             then out ++ RESET else out in
  (mkRenderer [] false false false false (codeBlockTicks r) true [], out).

(** Feeding a list of chunks to [push] in order, concatenating what the
    calls return; an exception ends the run. *)
Fixpoint pushAll (cols : Z) (r : MarkdownRenderer) (chunks : list jsstring)
  : MarkdownRenderer * completion :=
  match chunks with
  | [] => (r, Returned [])
  | chunk :: rest =>
      match push cols r chunk with
      | (r1, Returned out1) =>
          match pushAll cols r1 rest with
          | (r2, Returned out2) => (r2, Returned (out1 ++ out2))
          | (r2, RangeError) => (r2, RangeError)
          end
      | (r1, RangeError) => (r1, RangeError)
      end
  end.

(** The text a consumer sees for a stream cut into [chunks]: the outputs of
    the [push] calls on a fresh renderer followed by that of [flush]. *)
Definition render (cols : Z) (chunks : list jsstring) : completion :=
  match pushAll cols fresh chunks with
  | (r, Returned out) => Returned (out ++ snd (flush r))
  | (_, RangeError) => RangeError
  end.

(** The texts that [push] may keep in [pending].

    An unmatched bracket (line 252): the text from an opening bracket on,
    with no closing bracket in it, shorter than 200 code units. *)
Definition unmatchedBracket (p : jsstring) : Prop :=
  exists text, p = LBRACKET :: text /\ ~ In RBRACKET text /\ length p < 200.

(** An unmatched link target (line 257): bracketed text, an opening
    parenthesis and a target with no closing parenthesis in it, shorter than
    500 code units. *)
Definition unmatchedTarget (p : jsstring) : Prop :=
  exists text target,
    p = LBRACKET :: text ++ RBRACKET :: LPAREN :: target
    /\ ~ In RBRACKET text /\ ~ In RPAREN target /\ length p < 500.

(** An opening fence whose line has not ended (line 76). *)
Definition fenceLine (p : jsstring) : Prop :=
  exists ch n rest,
    (ch = BACKTICK \/ ch = TILDE) /\ 3 <= n /\ p = repeat ch n ++ rest
    /\ ~ In LF rest.

(** A header whose line has not ended: hashes alone (line 147), or hashes, a
    space and the start of a title (line 151). *)
Definition headerLine (p : jsstring) : Prop :=
  exists n rest,
    0 < n /\ p = repeat HASH n ++ rest
    /\ (rest = [] \/ exists title, rest = SPACE :: title /\ ~ In LF title).

(** A line that may still become a rule (line 174): it starts with a dash, a
    star or an underscore and holds only that character, fewer than three
    times, and spaces. *)
Definition ruleCandidate (p : jsstring) : Prop :=
  exists c rest,
    (c = DASH \/ c = STAR \/ c = UNDERSCORE) /\ p = c :: rest
    /\ Forall (fun x => x = c \/ x = SPACE) rest
    /\ count_occ N.eq_dec p c < 3.

(** What [push] may leave in [pending]: nothing; one of the two link
    look-aheads, the only ones with a bound on their length; the start of a
    line-level construct (fence, header or rule candidate), kept until its
    line ends; or a lone star (line 240). *)
Definition pendingShape (p : jsstring) : Prop :=
  p = [] \/ unmatchedBracket p \/ unmatchedTarget p \/ fenceLine p
  \/ headerLine p \/ ruleCandidate p \/ p = [STAR].

End Markdown.

(** ** wrapAssistantText *)

Module Wrap.

(** Sixteen spaces. *)
Definition ASSISTANT_INDENT : jsstring := repeat SPACE 16.

Definition breakLine : jsstring := LF :: ASSISTANT_INDENT.

(** The inner [while] of lines 754-761: the index of the first code unit at
    or after [i] that is outside 0x20..0x3f. *)
Fixpoint skipParams (rest : jsstring) (i : nat) : nat :=
  match rest with
  | c :: rest' => if ((32 <=? c) && (c <=? 63))%N then skipParams rest' (S i) else i
  | [] => i
  end.

(** One iteration of the [for] loop body at index [i < text.length]; the
    result is the value of [i] at the end of the body, the new column and
    the text appended to [result]. *)
Definition body (cols : Z) (text : jsstring) (i : nat) (col : Z)
  : nat * Z * jsstring :=
  match charAt text i with
  | Some ch =>
      if N.eqb ch ESC then
        let i := i + 1 in
        if (i <? length text) && charIs (charAt text i) 91%N then
          let i0 := i in
          let i := i + 1 in
          let j := skipParams (sliceFrom text i) i in
          (j, col,
           [ch] ++ slice text i0 j
           ++ (if j <? length text then slice text j (j + 1) else []))
        else (i, col, [ch])
      else if N.eqb ch LF then
        (i, Z.of_nat (length ASSISTANT_INDENT), breakLine)
      else if (cols <=? col)%Z then
        (i, Z.of_nat (length ASSISTANT_INDENT) + 1, breakLine ++ [ch])%Z
      else (i, col + 1, [ch])%Z
  | None => (i, col, [])
  end.

(** The [for] loop; [fuel] bounds the number of iterations, and the index
    grows at each of them, so [length text] is enough. *)
Fixpoint loop (fuel : nat) (cols : Z) (text : jsstring) (i : nat) (col : Z)
  (result : jsstring) : jsstring * Z :=
  if length text <=? i then (result, col)
  else
    match fuel with
    | 0 => (result, col)
    | S fuel' =>
        let '(i', col', emitted) := body cols text i col in
        loop fuel' cols text (i' + 1) col' (result ++ emitted)
    end.

(** [wrapAssistantText(text, startCol)], returning [(wrapped, endCol)]. *)
Definition wrapAssistantText (columns : option N) (text : jsstring) (startCol : Z)
  : jsstring * Z :=
  loop (length text) (terminalCols columns) text 0 startCol [].

(** Number of wrap breaks (newline plus indent) in a wrapped text. *)
Definition lineBreaks (s : jsstring) : nat := count_occ N.eq_dec s LF.

End Wrap.

(** ** The erase-and-redraw coordinator *)

Module Display.

(** One call of [process.stdout.write], by the shape of its argument. *)
Inductive write :=
| ClearLine                       (* ESC [2K *)
| CursorUp                        (* ESC [1A *)
| CarriageReturn                  (* \r *)
| Newline                         (* \n *)
| CursorRight (n : Z)             (* ESC [ n C *)
| Text (s : jsstring)             (* text handed in by a caller *)
| SpinnerLine (frame : nat)       (* the spinner line, with its newline *)
| PromptLine (continuation : bool) (visible : jsstring).

Definition SPINNER_FRAMES : list char :=
  [10251; 10265; 10297; 10296; 10300; 10292; 10278; 10279; 10247; 10255]%N.

Definition YELLOW := sgr "33".
Definition CIRCLE : char := 9675%N.
Definition ELLIPSIS : char := 8230%N.

(** The prompt prefix of [redrawPrompt] and [drawSpinnerAndPrompt]. *)
Definition promptPrefix (continuation : bool) : jsstring :=
  if continuation
  then lit "  " ++ DIM ++ lit ".." ++ RESET ++ lit " "
  else lit "  " ++ BRIGHT_MAGENTA ++ lit ">" ++ RESET ++ lit " ".

(** The code units a write sends to the terminal. *)
Definition bytes (w : write) : jsstring :=
  match w with
  | ClearLine => ESC :: lit "[2K"
  | CursorUp => ESC :: lit "[1A"
  | CarriageReturn => [CR]
  | Newline => [LF]
  | CursorRight n => ESC :: lit "[" ++ decimal n ++ lit "C"
  | Text s => s
  | SpinnerLine frame =>
      lit "  " ++ DIM
      ++ match nth_error SPINNER_FRAMES frame with
         | Some f => [f]
         | None => lit "undefined"
         end
      ++ lit " Thinking..." ++ RESET ++ [LF]
  | PromptLine continuation visible => promptPrefix continuation ++ visible
  end.

Inductive Source := local | imessage.

Record QueuedMessage := mkMessage { text : jsstring; source : Source }.

(** The variables of [main] that the display functions share. *)
Record state := mkState {
  inputBuffer : jsstring;
  spinnerTimer : bool;           (* the interval handle is not null *)
  dynamicLineCount : nat;
  streamingCol : Z;
  streamingActive : bool;
  promptVisible : bool;
  spinnerFrame : nat;
  escapeSeq : nat;
  processing : bool;
  messageQueue : list QueuedMessage;
  wakeResolve : bool;            (* a sleeper is waiting to be woken *)
  running : bool
}.

(** The values at the declarations, before the first [redrawPrompt()]. *)
Definition initial : state :=
  mkState [] false 0 0 false false 0 0 false [] false true.

Definition set_inputBuffer (v : jsstring) (s : state) :=
  mkState v (spinnerTimer s) (dynamicLineCount s) (streamingCol s)
    (streamingActive s) (promptVisible s) (spinnerFrame s) (escapeSeq s)
    (processing s) (messageQueue s) (wakeResolve s) (running s).
Definition set_spinnerTimer (v : bool) (s : state) :=
  mkState (inputBuffer s) v (dynamicLineCount s) (streamingCol s)
    (streamingActive s) (promptVisible s) (spinnerFrame s) (escapeSeq s)
    (processing s) (messageQueue s) (wakeResolve s) (running s).
Definition set_dynamicLineCount (v : nat) (s : state) :=
  mkState (inputBuffer s) (spinnerTimer s) v (streamingCol s)
    (streamingActive s) (promptVisible s) (spinnerFrame s) (escapeSeq s)
    (processing s) (messageQueue s) (wakeResolve s) (running s).
Definition set_streamingCol (v : Z) (s : state) :=
  mkState (inputBuffer s) (spinnerTimer s) (dynamicLineCount s) v
    (streamingActive s) (promptVisible s) (spinnerFrame s) (escapeSeq s)
    (processing s) (messageQueue s) (wakeResolve s) (running s).
Definition set_streamingActive (v : bool) (s : state) :=
  mkState (inputBuffer s) (spinnerTimer s) (dynamicLineCount s) (streamingCol s)
    v (promptVisible s) (spinnerFrame s) (escapeSeq s)
    (processing s) (messageQueue s) (wakeResolve s) (running s).
Definition set_promptVisible (v : bool) (s : state) :=
  mkState (inputBuffer s) (spinnerTimer s) (dynamicLineCount s) (streamingCol s)
    (streamingActive s) v (spinnerFrame s) (escapeSeq s)
    (processing s) (messageQueue s) (wakeResolve s) (running s).
Definition set_spinnerFrame (v : nat) (s : state) :=
  mkState (inputBuffer s) (spinnerTimer s) (dynamicLineCount s) (streamingCol s)
    (streamingActive s) (promptVisible s) v (escapeSeq s)
    (processing s) (messageQueue s) (wakeResolve s) (running s).
Definition set_escapeSeq (v : nat) (s : state) :=
  mkState (inputBuffer s) (spinnerTimer s) (dynamicLineCount s) (streamingCol s)
    (streamingActive s) (promptVisible s) (spinnerFrame s) v
    (processing s) (messageQueue s) (wakeResolve s) (running s).
Definition set_messageQueue (v : list QueuedMessage) (s : state) :=
  mkState (inputBuffer s) (spinnerTimer s) (dynamicLineCount s) (streamingCol s)
    (streamingActive s) (promptVisible s) (spinnerFrame s) (escapeSeq s)
    (processing s) v (wakeResolve s) (running s).
Definition set_wakeResolve (v : bool) (s : state) :=
  mkState (inputBuffer s) (spinnerTimer s) (dynamicLineCount s) (streamingCol s)
    (streamingActive s) (promptVisible s) (spinnerFrame s) (escapeSeq s)
    (processing s) (messageQueue s) v (running s).
Definition set_running (v : bool) (s : state) :=
  mkState (inputBuffer s) (spinnerTimer s) (dynamicLineCount s) (streamingCol s)
    (streamingActive s) (promptVisible s) (spinnerFrame s) (escapeSeq s)
    (processing s) (messageQueue s) (wakeResolve s) v.

(** A display function: it updates the shared variables and writes to the
    terminal. *)
Definition action := state -> state * list write.

Definition skip : action := fun s => (s, []).
Definition emit (w : write) : action := fun s => (s, [w]).
Definition assign (f : state -> state) : action := fun s => (f s, []).
Definition andThen (a b : action) : action :=
  fun s => let (s1, t1) := a s in let (s2, t2) := b s1 in (s2, t1 ++ t2).
Definition ifThenElse (c : state -> bool) (a b : action) : action :=
  fun s => if c s then a s else b s.
Definition when (c : state -> bool) (a : action) : action := ifThenElse c a skip.

Notation "a ;; b" := (andThen a b) (at level 61, right associativity).

(** The loop of [eraseLines], from iteration [i] on, [k] iterations left. *)
Fixpoint eraseLoop (k : nat) (i count : nat) : list write :=
  match k with
  | 0 => []
  | S k' =>
      ClearLine :: (if i <? count - 1 then [CursorUp] else [])
      ++ eraseLoop k' (S i) count
  end.

(** [eraseLines(count)]. *)
Definition eraseLines (count : nat) : action :=
  fun s => (s, eraseLoop count 0 count ++ [CarriageReturn]).

(** What [eraseLines(count)] writes when [count > 0], and nothing otherwise. *)
Definition eraseWrites (n : nat) : list write :=
  if 0 <? n then eraseLoop n 0 n ++ [CarriageReturn] else [].

(** What the input editor owns is the same in [s] and [s']. *)
Definition sameEditor (s s' : state) : Prop :=
  inputBuffer s' = inputBuffer s /\ escapeSeq s' = escapeSeq s
  /\ messageQueue s' = messageQueue s /\ processing s' = processing s.

(** The Enter key, as a carriage return or a line feed. *)
Definition isEnter (ch : jsstring) : Prop := ch = [CR] \/ ch = [LF].

(** The recurring block
    [if (dynamicLineCount > 0) { eraseLines(dynamicLineCount); dynamicLineCount = 0; }]. *)
Definition eraseDynamic : action :=
  when (fun s => 0 <? dynamicLineCount s)
    ((fun s => eraseLines (dynamicLineCount s) s) ;; assign (set_dynamicLineCount 0)).

Section Terminal.

(** [process.stdout.columns]. *)
Variable columns : option N.

(** [getVisibleInput()]. *)
Definition getVisibleInput (s : state) : jsstring :=
  let cols := terminalCols columns in
  let maxInput := (cols - 5)%Z in
  let currentLine :=
    match lastIndexOf LF (inputBuffer s) with
    | Some lastNl => sliceFrom (inputBuffer s) (lastNl + 1)
    | None => inputBuffer s
    end in
  if (maxInput <? Z.of_nat (length currentLine))%Z
  then sliceZ currentLine (Z.of_nat (length currentLine) - maxInput) None
  else currentLine.

(** The prompt write shared by [redrawPrompt] and [drawSpinnerAndPrompt]. *)
Definition promptWrite (s : state) : write :=
  PromptLine (includes (inputBuffer s) LF) (getVisibleInput s).

(** [drawSpinnerAndPrompt()]. *)
Definition drawSpinnerAndPrompt : action :=
  (fun s => emit (SpinnerLine (spinnerFrame s)) s) ;;
  (fun s => emit (promptWrite s) s) ;;
  assign (set_dynamicLineCount 2).

(** [redrawPrompt()]. *)
Definition redrawPrompt : action :=
  fun s0 =>
    let hadDynamic := 0 <? dynamicLineCount s0 in
    (eraseDynamic ;;
     ifThenElse spinnerTimer drawSpinnerAndPrompt
       (when (fun s => streamingActive s && negb hadDynamic) (emit Newline) ;;
        (fun s => emit (promptWrite s) s) ;;
        assign (set_dynamicLineCount 1) ;;
        assign (set_promptVisible true))) s0.

(** [writePermanent(text)]. *)
Definition writePermanent (text : jsstring) : action :=
  fun s0 =>
    let hadDynamic := 0 <? dynamicLineCount s0 in
    (eraseDynamic ;;
     when streamingActive
       ((if hadDynamic then skip else emit Newline) ;;
        assign (set_streamingActive false) ;;
        assign (set_streamingCol 0)) ;;
     emit (Text (text ++ [LF])) ;;
     ifThenElse spinnerTimer drawSpinnerAndPrompt
       (when promptVisible redrawPrompt)) s0.

(** The skipping of an escape sequence in [updateStreamingCol]
    (lines 1517-1524): the index after it. *)
Definition skipEscape (text : jsstring) (i : nat) : nat :=
  let i := i + 1 in
  if (i <? length text) && charIs (charAt text i) 91%N then
    let i := i + 1 in
    let i := Wrap.skipParams (sliceFrom text i) i in
    if i <? length text then i + 1 else i
  else i.

(** The [while] loop of [updateStreamingCol]; the index grows at each
    iteration, so [length text] iterations are enough. *)
Fixpoint updateLoop (fuel : nat) (text : jsstring) (i : nat) (col : Z) : Z :=
  if length text <=? i then col
  else
    match fuel with
    | 0 => col
    | S fuel' =>
        match charAt text i with
        | Some ch =>
            if N.eqb ch ESC then updateLoop fuel' text (skipEscape text i) col
            else if N.eqb ch LF then updateLoop fuel' text (i + 1) 0%Z
            else if N.eqb ch CR then updateLoop fuel' text (i + 1) 0%Z
            else
              let col := (col + 1)%Z in
              let col := if (terminalCols columns <=? col)%Z then 0%Z else col in
              updateLoop fuel' text (i + 1) col
        | None => col
        end
    end.

(** [updateStreamingCol(text)]. *)
Definition updateStreamingCol (text : jsstring) : action :=
  assign (fun s =>
            set_streamingCol (updateLoop (length text) text 0 (streamingCol s)) s).

(** [writeStreaming(text)]. *)
Definition writeStreaming (text : jsstring) : action :=
  when (fun s => 0 <? dynamicLineCount s)
    ((fun s => eraseLines (dynamicLineCount s) s) ;;
     assign (set_dynamicLineCount 0) ;;
     when streamingActive
       (emit CursorUp ;;
        when (fun s => (0 <? streamingCol s)%Z)
          (fun s => emit (CursorRight (streamingCol s)) s))) ;;
  emit (Text text) ;;
  assign (set_streamingActive true) ;;
  updateStreamingCol text ;;
  redrawPrompt.

(** [stopSpinner()]. *)
Definition stopSpinner : action := assign (set_spinnerTimer false).

(** [clearSpinner()]. *)
Definition clearSpinner : action :=
  stopSpinner ;; eraseDynamic ;; redrawPrompt.

(** [startSpinner()]; the interval it installs is [spinnerTick]. *)
Definition startSpinner : action :=
  assign (set_spinnerFrame 0) ;;
  assign (set_streamingCol 0) ;;
  eraseDynamic ;;
  drawSpinnerAndPrompt ;;
  assign (set_spinnerTimer true).

(** The callback of the interval (lines 1605-1611). *)
Definition spinnerTick : action :=
  assign (fun s => set_spinnerFrame (Nat.modulo (spinnerFrame s + 1)
                                       (length SPINNER_FRAMES)) s) ;;
  (fun s => eraseLines (dynamicLineCount s) s) ;;
  assign (set_dynamicLineCount 0) ;;
  drawSpinnerAndPrompt.

(** [wakeMainLoop()]. *)
Definition wakeMainLoop : action := assign (set_wakeResolve false).

(** [shutdown()]: the poller, the raw mode and the database are outside
    this embedding; its last line is written by the original
    [console.log], and the process exits. *)
Definition shutdown : action :=
  when running
    (assign (set_running false) ;;
     stopSpinner ;;
     eraseDynamic ;;
     assign (set_promptVisible false) ;;
     emit (Text ([LF] ++ lit "  " ++ DIM ++ lit "Shutting down..." ++ RESET
                 ++ [LF]))).

(** The line that [handleChar] logs for a message queued while another
    one is processed (lines 1693-1701). *)
Definition queuedNotice (queueNum : nat) (line : jsstring) : jsstring :=
  let cols := terminalCols columns in
  let num := decimal (Z.of_nat queueNum) in
  let queuePrefix :=
    lit "  " ++ [CIRCLE] ++ lit " queued (" ++ num ++ lit " pending) " in
  let maxQueueText := (cols - Z.of_nat (length queuePrefix))%Z in
  let queueDisplay :=
    if (maxQueueText <? Z.of_nat (length line))%Z
    then sliceZ line 0 (Some (maxQueueText - 1)%Z) ++ [ELLIPSIS]
    else line in
  lit "  " ++ YELLOW ++ [CIRCLE] ++ RESET ++ lit " " ++ DIM ++ lit "queued ("
  ++ num ++ lit " pending)" ++ RESET ++ lit " " ++ queueDisplay.

(** The Enter branch of [handleChar] (lines 1673-1707). *)
Definition handleEnter : action :=
  fun s =>
    if endsWith (inputBuffer s) 92%N then
      (assign (set_inputBuffer (sliceZ (inputBuffer s) 0 (Some (-1)%Z) ++ [LF])) ;;
       redrawPrompt) s
    else
      let line := trim (inputBuffer s) in
      (assign (set_inputBuffer []) ;;
       match line with
       | [] => redrawPrompt
       | _ =>
           assign (fun s => set_messageQueue
                              (messageQueue s ++ [mkMessage line local]) s) ;;
           wakeMainLoop ;;
           when processing
             (fun s => writePermanent
                         (queuedNotice (length (messageQueue s)) line) s) ;;
           redrawPrompt
       end) s.

(** [handleChar(ch)]; [ch.charCodeAt(0)] is [None] (NaN) for an empty
    string. *)
Definition handleChar (ch : jsstring) : action :=
  fun s =>
    let code := charAt ch 0 in
    if escapeSeq s =? 1 then
      assign (set_escapeSeq (if eqb ch [91%N] then 2 else 0)) s
    else if escapeSeq s =? 2 then assign (set_escapeSeq 0) s
    else if charIs code 27%N then assign (set_escapeSeq 1) s
    else if charIs code 3%N then shutdown s
    else if charIs code 4%N && (length (inputBuffer s) =? 0) then shutdown s
    else if eqb ch [CR] || eqb ch [LF]
    then handleEnter s
    else if charIs code 127%N || charIs code 8%N then
      if 0 <? length (inputBuffer s)
      then (assign (set_inputBuffer (sliceZ (inputBuffer s) 0 (Some (-1)%Z))) ;;
            redrawPrompt) s
      else skip s
    else if match code with Some c => (c <? 32)%N | None => false end then skip s
    else (assign (set_inputBuffer (inputBuffer s ++ ch)) ;; redrawPrompt) s.

(** The calls that reach the coordinator. *)
Inductive call :=
| StartSpinner
| ClearSpinner
| WriteStreaming (text : jsstring)
| WritePermanent (text : jsstring).

Definition perform (c : call) : action :=
  match c with
  | StartSpinner => startSpinner
  | ClearSpinner => clearSpinner
  | WriteStreaming text => writeStreaming text
  | WritePermanent text => writePermanent text
  end.

(** A sequence of calls, each running to completion before the next. *)
Fixpoint performAll (cs : list call) : action :=
  match cs with
  | [] => skip
  | c :: cs' => perform c ;; performAll cs'
  end.

(** Keystrokes fed to [handleChar] one after the other. *)
Fixpoint typeAll (keys : list jsstring) : action :=
  match keys with
  | [] => skip
  | k :: keys' => handleChar k ;; typeAll keys'
  end.

(** The persisted streaming column is a column of the terminal. *)
Definition inRange (s : state) : Prop :=
  (0 <= streamingCol s < terminalCols columns)%Z.

End Terminal.

(** A run during which the terminal may be resized: each call comes with
    the value of [process.stdout.columns] at the time it is made. *)
Fixpoint performEach (calls : list (option N * call)) : action :=
  match calls with
  | [] => skip
  | (columns, c) :: calls' => perform columns c ;; performEach calls'
  end.

(** No call of the run sees a terminal wider than [width]. *)
Definition widthsWithin (width : Z) (calls : list (option N * call)) : bool :=
  forallb (fun cc => (terminalCols (fst cc) <=? width)%Z) calls.

End Display.

(** ** Reading a terminal trace *)

Module Monitor.
Import Display.

(** What an observer of the terminal knows about the dynamic region:
    [drawn] lines written by the last redraw and not erased since,
    [clears] line-erase operations issued by the erase in progress, and
    [half] when the spinner line is written and its prompt is still to
    come. *)
Record region := mkRegion { drawn : nat; clears : nat; half : bool }.

(** Nothing in progress, [n] dynamic lines on screen. *)
Definition settled (n : nat) : region := mkRegion n 0 false.

Definition quiet (m : region) : bool :=
  (clears m =? 0) && (drawn m =? 0) && negb (half m).

(** The effect of one write; [None] when it breaks the discipline:
    - an erase ends (carriage return) after exactly as many line-erase
      operations as the last redraw drew lines;
    - permanent text, and every redraw, start on an erased region;
    - a redraw draws one line (prompt) or two (spinner line, then prompt). *)
Definition observe (m : region) (w : write) : option region :=
  match w with
  | ClearLine => if half m then None else Some (mkRegion (drawn m) (S (clears m)) false)
  | CursorUp => Some m
  | CursorRight _ => Some m
  | CarriageReturn =>
      if (clears m =? drawn m) && negb (half m) then Some (settled 0) else None
  | Newline => if quiet m then Some m else None
  | Text _ => if quiet m then Some m else None
  | SpinnerLine _ => if quiet m then Some (mkRegion 0 0 true) else None
  | PromptLine _ _ =>
      if (clears m =? 0) && (drawn m =? 0)
      then Some (settled (if half m then 2 else 1))
      else None
  end.

Fixpoint observeAll (m : region) (ws : list write) : option region :=
  match ws with
  | [] => Some m
  | w :: ws' =>
      match observe m w with
      | Some m' => observeAll m' ws'
      | None => None
      end
  end.

(** Number of line-erase operations among some writes. *)
Definition lineErases (ws : list write) : nat :=
  length (filter (fun w => match w with ClearLine => true | _ => false end) ws).

(** The cursor-right restores of a trace all stay below [cols]. *)
Definition restoreWithin (cols : Z) (w : write) : bool :=
  match w with
  | CursorRight n => ((0 <? n) && (n <? cols))%Z
  | _ => true
  end.

End Monitor.

(** ** Sample inputs *)

Module Samples.
Import Markdown Wrap Display.

(** The renderer after [push("**bold")] and [push(" `code")]: bold and
    inline code are open. *)
Definition unclosed : MarkdownRenderer :=
  fst (pushAll 80 fresh [lit "**bold"; lit " `code"]).

(** A fenced block whose opening line is cut after the language tag. *)
Definition fenceHead : jsstring := lit "```js".
Definition fenceTail : jsstring := [LF] ++ lit "foo" ++ [LF] ++ lit "```" ++ [LF].

(** A header line of 1002 code units with no newline yet. *)
Definition longHeader : jsstring := lit "# " ++ repeat 97%N 1000.

(** The renderer inside a block opened by four backticks, at line start. *)
Definition inFourTicks : MarkdownRenderer :=
  fst (push 80 fresh (lit "````" ++ [LF] ++ lit "code" ++ [LF])).

(** The text of the column-tracking example. *)
Definition styled : jsstring :=
  lit "hello" ++ BOLD ++ lit "world" ++ RESET ++ lit "!".

(** The coordinator once the first prompt is shown (line 1730). *)
Definition started : state := fst (redrawPrompt (Some 80%N) initial).

(** The Streaming state: some text was streamed and the prompt is drawn
    below it. *)
Definition streamingState : state :=
  fst (writeStreaming (Some 80%N) (lit "hi") started).

(** Seventy letters streamed on a terminal of 80 columns. *)
Definition seventyStreamed : state :=
  fst (writeStreaming (Some 80%N) (repeat 97%N 70) started).

End Samples.

(** ** Kinds of text *)

Module Text.
Import Markdown.

(** No code unit of [text] is one that the renderer reads as markup
    outside code: backtick, tilde, hash, dash, star, underscore, opening
    bracket or a digit. *)
Definition plainChar (c : char) : bool :=
  negb (N.eqb c BACKTICK || N.eqb c TILDE || N.eqb c HASH || N.eqb c DASH
        || N.eqb c STAR || N.eqb c UNDERSCORE || N.eqb c LBRACKET
        || isDigit (Some c)).

(** No code unit is a fence character. *)
Definition noFenceChar (c : char) : bool :=
  negb (N.eqb c BACKTICK || N.eqb c TILDE).

(** An open block has the width of a fence. *)
Definition blockWidthOk (r : MarkdownRenderer) : bool :=
  implb (inCodeBlock r) (3 <=? codeBlockTicks r).

(** The flags and buffers that a passed-through text leaves alone. *)
Definition sameStyle (r r' : MarkdownRenderer) : Prop :=
  bold r' = bold r /\ italic r' = italic r /\ inCode r' = inCode r
  /\ inCodeBlock r' = inCodeBlock r /\ pending r' = pending r
  /\ codeBlockTicks r' = codeBlockTicks r.

(** The renderer without the stale fence width that is left in
    [codeBlockTicks] once a block is closed. *)
Definition forgetWidth (r : MarkdownRenderer) : MarkdownRenderer :=
  if inCodeBlock r then r else set_codeBlockTicks 0 r.

Definition forgetWidthIn (o : outcome) : outcome :=
  match o with
  | Continue r i emitted => Continue (forgetWidth r) i emitted
  | Break r => Break (forgetWidth r)
  | Throw r => Throw (forgetWidth r)
  end.

Definition forgetOpt (o : option outcome) : option outcome :=
  option_map forgetWidthIn o.

End Text.

(** ** The events of a session *)

Module Session.
Import Display.

Definition set_processing (v : bool) (s : state) :=
  mkState (inputBuffer s) (spinnerTimer s) (dynamicLineCount s) (streamingCol s)
    (streamingActive s) (promptVisible s) (spinnerFrame s) (escapeSeq s)
    v (messageQueue s) (wakeResolve s) (running s).

(** An action keeps the erase discipline of [Monitor.observe]. *)
Definition symmetric (a : action) : Prop :=
  forall s,
    Monitor.observeAll (Monitor.settled (dynamicLineCount s)) (snd (a s))
    = Some (Monitor.settled (dynamicLineCount (fst (a s)))).

(** What reaches the display while [main] runs. *)
Inductive event :=
| Call (c : call)        (* one of the four coordinator calls *)
| Key (ch : jsstring)    (* [handleChar(ch)], from [readStdinRaw] *)
| Tick                   (* the spinner interval fires (lines 1605-1611) *)
| TurnStart              (* the main loop takes a batch (line 1920) *)
| TurnEnd                (* the batch is done (lines 1940-1945) *)
| Interrupt.             (* SIGINT or SIGTERM: [shutdown] *)

Section Terminal.

Variable columns : option N.

(** Lines 1940-1945 of the main loop. *)
Definition turnEnd : action :=
  assign (set_processing false) ;;
  assign (set_streamingActive false) ;;
  assign (set_streamingCol 0) ;;
  redrawPrompt columns.

(** The streaming column after writing [x] from column [sc]. *)
Definition track (x : jsstring) (sc : Z) : Z :=
  updateLoop columns (length x) x 0 sc.

Definition react (e : event) : action :=
  match e with
  | Call c => perform columns c
  | Key ch => handleChar columns ch
  | Tick => spinnerTick columns
  | TurnStart => assign (set_processing true)
  | TurnEnd => turnEnd
  | Interrupt => shutdown
  end.

(** Events are handled one at a time, each to completion; [shutdown] ends
    with [process.exit], after which nothing is handled. *)
Fixpoint reactAll (es : list event) : action :=
  fun s =>
    match es with
    | [] => (s, [])
    | e :: es' => if running s then (react e ;; reactAll es') s else (s, [])
    end.

(** The dynamic region as the code counts it: at most two lines, two while
    the spinner runs, and at least the prompt while text is streaming. *)
Definition regionCounted (s : state) : bool :=
  (dynamicLineCount s <=? 2)
  && implb (spinnerTimer s) (dynamicLineCount s =? 2)
  && implb (running s && streamingActive s) (0 <? dynamicLineCount s).

End Terminal.

(** An action brings the counters into that shape, or keeps them there. *)
Definition establishes (a : action) : Prop :=
  forall s, regionCounted (fst (a s)) = true.

Definition keeps (a : action) : Prop :=
  forall s, regionCounted s = true -> regionCounted (fst (a s)) = true.

(** A key that [handleChar] ignores: a control character other than
    Ctrl+C, Ctrl+D, backspace, Enter and ESC. *)
Definition ignoredControl (c : char) : bool :=
  ((c <? 32) && negb ((c =? 3) || (c =? 4) || (c =? 8) || (c =? 10) || (c =? 13)
                      || (c =? 27)))%N.

(** The last line [shutdown] writes, through the original [console.log]. *)
Definition farewell : jsstring :=
  [LF] ++ lit "  " ++ DIM ++ lit "Shutting down..." ++ RESET ++ [LF].

(** A key that [handleChar] appends to the buffer. *)
Definition printable (c : char) : bool := ((32 <=? c) && negb (c =? 127))%N.

(** A code unit that moves the cursor one column to the right: neither ESC
    nor a newline nor a carriage return. *)
Definition advances (c : char) : bool :=
  negb (N.eqb c ESC) && negb (N.eqb c LF) && negb (N.eqb c CR).

(** A parameter or intermediate byte of a control sequence (0x20-0x3f). *)
Definition isParam (c : char) : bool := ((32 <=? c) && (c <=? 63))%N.

(** ESC, bracket, parameter bytes and a final byte. *)
Definition controlSequence (params : jsstring) (final : char) : jsstring :=
  ESC :: 91%N :: params ++ [final].

End Session.

(** ** formatDuration and splitMessage *)

Module Messages.

(** [Number.isSafeInteger(n)] for a whole number [n]: its magnitude is
    below 2^53. *)
Definition isSafeInteger (n : Z) : bool := (Z.abs n <? 2 ^ 53)%Z.

(** [formatDuration(seconds)] (cli.ts, lines 653-661). A JavaScript number
    is a binary64 float, and the callers pass whole numbers ([Math.floor] of
    a quotient, lines 531 and 606). On the safe integers the operations of
    the function are exact: the quotient by 60 is below 2^48, where
    neighbouring floats are at most 1/32 apart, so that rounding it never
    reaches the next whole number and [Math.floor] gives the integer
    quotient; [%] gives the remainder; and the conversion to a string gives
    the decimal digits. The model covers these inputs only: for any other
    number it gives no result ([None]). *)
Definition formatDuration (seconds : Z) : option jsstring :=
  if isSafeInteger seconds then
    if (seconds <? 60)%Z then Some (decimal seconds ++ lit "s")
    else
      let m := (seconds / 60)%Z in
      let s := Z.rem seconds 60 in
      if (m <? 60)%Z then Some (decimal m ++ lit "m " ++ decimal s ++ lit "s")
      else
        let h := (m / 60)%Z in
        let rm := Z.rem m 60 in
        Some (decimal h ++ lit "h " ++ decimal rm ++ lit "m")
  else None.

(** [pat] occurs in [s] at index [k]. *)
Definition occursAt (pat s : jsstring) (k : nat) : bool :=
  JS.eqb (firstn (length pat) (skipn k s)) pat.

(** The search of [lastIndexOf], downwards from [k]. *)
Fixpoint searchDown (pat s : jsstring) (k : nat) : option nat :=
  if occursAt pat s k then Some k
  else
    match k with
    | 0 => None
    | S k' => searchDown pat s k'
    end.

(** [s.lastIndexOf(pat, position)] for [position >= 0]: the last occurrence
    that starts at or before [position]; [None] is -1. *)
Definition lastIndexOfStr (pat s : jsstring) (position : nat) : option nat :=
  if length s <? length pat then None
  else searchDown pat s (Nat.min position (length s - length pat)).

(** Lines 167-170 of sender.ts: a paragraph break, else a newline, else a
    space, else the limit itself; an index of 0 counts as not found. *)
Definition splitIndex (remaining : jsstring) (maxLength : nat) : nat :=
  match lastIndexOfStr [LF; LF] remaining maxLength with
  | Some (S k) => S k
  | _ =>
      match lastIndexOfStr [LF] remaining maxLength with
      | Some (S k) => S k
      | _ =>
          match lastIndexOfStr [SPACE] remaining maxLength with
          | Some (S k) => S k
          | _ => maxLength
          end
      end
  end.

(** The [while] loop of [splitMessage]; [None] when [fuel] iterations do not
    end it. *)
Fixpoint splitLoop (fuel : nat) (remaining : jsstring) (maxLength : nat)
  (chunks : list jsstring) : option (list jsstring) :=
  if length remaining =? 0 then Some chunks
  else
    match fuel with
    | 0 => None
    | S fuel' =>
        if length remaining <=? maxLength then Some (chunks ++ [remaining])
        else
          let splitIdx := splitIndex remaining maxLength in
          splitLoop fuel' (trimStart (sliceFrom remaining splitIdx)) maxLength
            (chunks ++ [slice remaining 0 splitIdx])
    end.

(** The label [[i/n]] and a newline in front of a chunk. *)
Definition labelled (i n : nat) (chunk : jsstring) : jsstring :=
  lit "[" ++ decimal (Z.of_nat i) ++ lit "/" ++ decimal (Z.of_nat n) ++ lit "]"
  ++ [LF] ++ chunk.

Fixpoint labelFrom (i n : nat) (chunks : list jsstring) : list jsstring :=
  match chunks with
  | [] => []
  | chunk :: rest => labelled i n chunk :: labelFrom (S i) n rest
  end.

(** Lines 175-179: chunks are numbered when there is more than one. *)
Definition numbered (chunks : list jsstring) : list jsstring :=
  if 1 <? length chunks then labelFrom 1 (length chunks) chunks else chunks.

(** [splitMessage(text, maxLength)] (sender.ts, lines 154-180). *)
Definition splitMessage (text : jsstring) (maxLength : nat)
  : option (list jsstring) :=
  if length text <=? maxLength then Some [text]
  else option_map numbered (splitLoop (length text) text maxLength []).

(** A chunk as the loop cuts it: not empty and within the limit. *)
Definition cut (maxLength : nat) (c : jsstring) : Prop :=
  1 <= length c <= maxLength.

(** The code units of a text that are not white space. *)
Definition inked (s : jsstring) : jsstring :=
  filter (fun c => negb (isWhiteSpace c)) s.

End Messages.

(** * Properties *)

(** ** Facts about the string primitives *)

Module JSFacts.

Lemma find_some c s base k :
  find c s base = Some k ->
  base <= k < base + length s /\ nth_error s (k - base) = Some c.
Proof.
  revert base. induction s as [|x s IH]; simpl; intros base H.
  - discriminate.
  - destruct (N.eqb_spec x c) as [->|Hne].
    + inversion H; subst. rewrite Nat.sub_diag. simpl. split; [lia|reflexivity].
    + apply IH in H. destruct H as [Hk Hn]. split; [lia|].
      replace (k - base) with (S (k - S base)) by lia. exact Hn.
Qed.

Lemma find_none c s base : find c s base = None -> ~ In c s.
Proof.
  revert base. induction s as [|x s IH]; simpl; intros base H.
  - tauto.
  - destruct (N.eqb_spec x c) as [->|Hne]; [discriminate|].
    intros [Hx|Hin]; [congruence|]. exact (IH _ H Hin).
Qed.

Lemma indexOf_some c s from k :
  indexOf c s from = Some k -> from <= k < length s /\ charAt s k = Some c.
Proof.
  unfold indexOf, charAt. intros H. apply find_some in H.
  rewrite length_skipn in H. destruct H as [Hk Hn].
  rewrite nth_error_skipn in Hn.
  replace (from + (k - from)) with k in Hn by lia.
  split; [|exact Hn]. lia.
Qed.

Lemma indexOf_none c s from : indexOf c s from = None -> ~ In c (sliceFrom s from).
Proof. unfold indexOf, sliceFrom. apply find_none. Qed.

Lemma run_le c s : run c s <= length s.
Proof.
  induction s as [|x s IH]; simpl; [lia|].
  destruct (N.eqb x c); simpl; lia.
Qed.

Lemma run_split c s : s = repeat c (run c s) ++ skipn (run c s) s.
Proof.
  induction s as [|x s IH]; simpl; [reflexivity|].
  destruct (N.eqb_spec x c) as [->|Hne]; simpl; [|reflexivity].
  f_equal. exact IH.
Qed.

Lemma run_stop c s :
  match skipn (run c s) s with
  | x :: _ => x <> c
  | [] => True
  end.
Proof.
  induction s as [|x s IH]; simpl; [exact I|].
  destruct (N.eqb_spec x c) as [->|Hne]; simpl; [exact IH|exact Hne].
Qed.

Lemma run_repeat c n rest :
  match rest with x :: _ => x <> c | [] => True end ->
  run c (repeat c n ++ rest) = n.
Proof.
  intros Hrest. induction n as [|n IH]; simpl.
  - destruct rest as [|x rest]; simpl; [reflexivity|].
    destruct (N.eqb_spec x c); [contradiction|reflexivity].
  - rewrite N.eqb_refl. f_equal. exact IH.
Qed.

Lemma sliceFrom_cons s i c : charAt s i = Some c -> sliceFrom s i = c :: sliceFrom s (S i).
Proof.
  unfold charAt, sliceFrom. revert i. induction s as [|x s IH]; intros [|i] H;
    simpl in *; try discriminate.
  - congruence.
  - apply IH. exact H.
Qed.

Lemma charAt_lt s i : i < length s -> exists c, charAt s i = Some c.
Proof.
  unfold charAt. intros H. destruct (nth_error s i) eqn:E; [eauto|].
  apply nth_error_None in E. lia.
Qed.

Lemma charAt_some_lt s i c : charAt s i = Some c -> i < length s.
Proof. unfold charAt. intros H. apply nth_error_Some. congruence. Qed.

Lemma sliceFrom_add s i n : sliceFrom (sliceFrom s i) n = sliceFrom s (i + n).
Proof. unfold sliceFrom. rewrite skipn_skipn. f_equal. lia. Qed.

Lemma sliceFrom_length s i : length (sliceFrom s i) = length s - i.
Proof. apply length_skipn. Qed.

Lemma charIs_true c k : charIs c k = true <-> c = Some k.
Proof.
  destruct c as [x|]; simpl.
  - rewrite N.eqb_eq. split; congruence.
  - split; discriminate.
Qed.

Lemma terminalCols_pos columns : (1 <= terminalCols columns)%Z.
Proof. destruct columns as [[|p]|]; simpl; lia. Qed.

End JSFacts.

(** ** The markdown renderer *)

Module MarkdownFacts.
Import Markdown JSFacts Samples.

(** *** flush *)

(** C5. Whenever bold, italic, inline code or a fenced block is open,
    [flush] returns the pending text followed by the full reset code, and
    leaves every style flag cleared, the pending buffer empty and the
    renderer at line start. *)
Theorem flush_closes_styles (r : MarkdownRenderer) :
  bold r || italic r || inCode r || inCodeBlock r = true ->
  snd (flush r) = pending r ++ RESET
  /\ bold (fst (flush r)) = false
  /\ italic (fst (flush r)) = false
  /\ inCode (fst (flush r)) = false
  /\ inCodeBlock (fst (flush r)) = false
  /\ atLineStart (fst (flush r)) = true
  /\ pending (fst (flush r)) = []
  /\ lineContent (fst (flush r)) = [].
Proof.
  intros Hopen. unfold flush. rewrite Hopen. simpl. repeat split.
Qed.

Lemma flush_closes_styles_witness :
  bold unclosed || italic unclosed || inCode unclosed || inCodeBlock unclosed = true
  /\ snd (flush unclosed) = pending unclosed ++ RESET
  /\ bold (fst (flush unclosed)) = false
  /\ italic (fst (flush unclosed)) = false
  /\ inCode (fst (flush unclosed)) = false
  /\ inCodeBlock (fst (flush unclosed)) = false
  /\ atLineStart (fst (flush unclosed)) = true
  /\ pending (fst (flush unclosed)) = []
  /\ lineContent (fst (flush unclosed)) = [].
Proof.
  split; [reflexivity|]. apply (flush_closes_styles unclosed). reflexivity.
Defined.

(** An unterminated fenced block is closed by [flush] in the same way. *)
Example flush_closes_open_fence :
  flush (fst (push 80 fresh (lit "```" ++ [LF] ++ lit "code")))
  = (mkRenderer [] false false false false 3 true [], RESET).
Proof. vm_compute. reflexivity. Qed.

(** C9. A second [flush] right after a first returns the empty string and
    leaves the renderer as the first one left it. *)
Theorem flush_idempotent (r : MarkdownRenderer) :
  flush (fst (flush r)) = (fst (flush r), []).
Proof. reflexivity. Qed.

(** *** Chunk boundaries *)

(** C1 (failing input). An opening fence whose line is cut by a chunk
    boundary: the first [push] records the block as open and keeps the fence
    in [pending]; the second reads the same fence again as the closing one.
    The block text comes out unstyled and the dim style opens at the real
    closing fence, whereas the whole text in one [push] is rendered as a
    dim block. *)
Theorem split_fence_renders_differently :
  render 80 [fenceHead; fenceTail]
    = Returned (RESET ++ lit "foo" ++ [LF] ++ DIM ++ RESET)
  /\ render 80 [fenceHead ++ fenceTail]
    = Returned (DIM ++ lit "foo" ++ [LF] ++ RESET)
  /\ render 80 [fenceHead; fenceTail] <> render 80 [fenceHead ++ fenceTail].
Proof.
  split; [|split].
  - vm_compute. reflexivity.
  - vm_compute. reflexivity.
  - vm_compute. discriminate.
Qed.

(** The state between the two calls: the block counts as open although
    its fence is still pending. *)
Example split_fence_state :
  push 80 fresh fenceHead
  = (mkRenderer fenceHead false false false true 3 true [], Returned []).
Proof. vm_compute. reflexivity. Qed.

(** The same happens to an ordered-list marker: a digit at the end of a
    chunk is emitted at once, and the marker is no longer recognised. *)
Example split_list_marker_renders_differently :
  render 80 [lit "1"; lit ". x"] = Returned (lit "1. x")
  /\ render 80 [lit "1. x"] = Returned (DIM ++ lit "1." ++ RESET ++ lit " x").
Proof. split; vm_compute; reflexivity. Qed.

(** The example given with the property does hold. *)
Example split_bold_renders_alike :
  render 80 [lit "**bo"; lit "ld**"] = render 80 [lit "**bold**"]
  /\ render 80 [lit "**bold**"] = Returned (BOLD ++ lit "bold" ++ NO_BOLD).
Proof. split; vm_compute; reflexivity. Qed.

(** A rule on a terminal narrower than 20 columns: [repeat] is called with
    a negative count. *)
Example narrow_rule_raises :
  render 10 [lit "---" ++ [LF]] = RangeError.
Proof. vm_compute. reflexivity. Qed.

Ltac break_hyp H :=
  match type of H with
  | context [match ?x with _ => _ end] => destruct x eqn:?
  | context [if ?x then _ else _] => destruct x eqn:?
  end.

Ltac inv H := inversion H; clear H; subst.

(** *** Every iteration moves forward *)

Lemma ruleScan_mono c rest j0 n j count b :
  ruleScan c rest j0 n = (j, count, b) -> j0 <= j.
Proof.
  revert j0 n. induction rest as [|x rest IH]; simpl; intros j0 n H.
  - inv H. lia.
  - repeat break_hyp H; try (inv H; lia); apply IH in H; lia.
Qed.

Lemma openFence_forward r input i r' i' e :
  openFence r input i = Some (Continue r' i' e) -> i < i'.
Proof.
  unfold openFence. intros H. repeat break_hyp H; inv H.
  match goal with E : indexOf _ _ _ = Some _ |- _ => apply indexOf_some in E end. lia.
Qed.

Lemma codeBlock_forward r input i r' i' e :
  i < length input -> codeBlock r input i = Some (Continue r' i' e) -> i < i'.
Proof.
  unfold codeBlock. intros Hi H. repeat break_hyp H; inv H; try lia.
  match goal with E : indexOf _ _ _ = Some _ |- _ => apply indexOf_some in E end. lia.
Qed.

Lemma inlineCode_forward r input i r' i' e :
  inlineCode r input i = Some (Continue r' i' e) -> i < i'.
Proof. unfold inlineCode. intros H. repeat break_hyp H; inv H; lia. Qed.

Lemma header_forward r input i r' i' e :
  header r input i = Some (Continue r' i' e) -> i < i'.
Proof.
  unfold header. intros H. repeat break_hyp H; inv H.
  match goal with E : indexOf _ _ _ = Some _ |- _ => apply indexOf_some in E end. lia.
Qed.

Lemma horizontalRule_forward cols r input i r' i' e :
  horizontalRule cols r input i = Some (Continue r' i' e) -> i < i'.
Proof.
  unfold horizontalRule. intros H.
  destruct (charAt input i) as [ruleChar|] eqn:Hc; [|discriminate].
  destruct (atLineStart r && _) eqn:Hcond; [|discriminate].
  rewrite (sliceFrom_cons _ _ _ Hc) in H. simpl in H.
  rewrite N.eqb_refl in H.
  assert (Hnl : N.eqb ruleChar LF = false).
  { apply andb_prop in Hcond. destruct Hcond as [_ Hcond].
    unfold DASH, STAR, UNDERSCORE, LF in *.
    repeat (apply orb_prop in Hcond; destruct Hcond as [Hcond|Hcond]);
      apply N.eqb_eq in Hcond; subst; reflexivity. }
  rewrite Hnl in H.
  match type of H with
  | context [ruleScan ?a ?b ?c ?d] =>
      destruct (ruleScan a b c d) as [[j count] isRule] eqn:Hs
  end.
  apply ruleScan_mono in Hs.
  repeat break_hyp H; inv H; lia.
Qed.

Lemma listItem_forward r input i r' i' e :
  listItem r input i = Some (Continue r' i' e) -> i < i'.
Proof. unfold listItem. intros H. repeat break_hyp H; inv H; lia. Qed.

Lemma emphasis_forward r input i r' i' e :
  emphasis r input i = Some (Continue r' i' e) -> i < i'.
Proof. unfold emphasis. intros H. repeat break_hyp H; inv H; lia. Qed.

Lemma link_forward r input i r' i' e :
  link r input i = Some (Continue r' i' e) -> i < i'.
Proof.
  unfold link. intros H. repeat break_hyp H; inv H.
  repeat match goal with E : indexOf _ _ _ = Some _ |- _ => apply indexOf_some in E end.
  lia.
Qed.

Lemma literal_forward r input i r' i' e :
  literal r input i = Continue r' i' e -> i < i'.
Proof. unfold literal. intros H. repeat break_hyp H; inv H; lia. Qed.

(** The sub-steps of [step], in order, each either deciding the outcome or
    falling through. *)
Lemma step_cases cols r input i o :
  step cols r input i = o ->
  openFence r input i = Some o \/ codeBlock r input i = Some o
  \/ inlineCode r input i = Some o \/ header r input i = Some o
  \/ horizontalRule cols r input i = Some o \/ listItem r input i = Some o
  \/ emphasis r input i = Some o \/ link r input i = Some o
  \/ literal r input i = o.
Proof.
  unfold step, orElse. intros H.
  repeat match type of H with
         | match ?x with _ => _ end = _ => destruct x; [subst; tauto|]
         end.
  tauto.
Qed.

Lemma step_forward cols r input i r' i' e :
  i < length input -> step cols r input i = Continue r' i' e -> i < i'.
Proof.
  intros Hi H. apply step_cases in H.
  destruct H as [H|[H|[H|[H|[H|[H|[H|[H|H]]]]]]]];
    eauto using openFence_forward, codeBlock_forward, inlineCode_forward,
      header_forward, horizontalRule_forward, listItem_forward,
      emphasis_forward, link_forward, literal_forward.
Qed.

(** [length input - i] iterations are enough: more fuel changes nothing. *)
Lemma push_loop_fuel cols input : forall f1 f2 r i out,
  length input - i <= f1 -> length input - i <= f2 ->
  loop f1 cols r input i out = loop f2 cols r input i out.
Proof.
  induction f1 as [|f1 IH]; intros f2 r i out H1 H2.
  - destruct f2; simpl; destruct (Nat.leb_spec (length input) i); try reflexivity; lia.
  - destruct f2; simpl; destruct (Nat.leb_spec (length input) i); try reflexivity; try lia.
    destruct (step cols r input i) as [r' i' e| |] eqn:Hs; try reflexivity.
    apply step_forward in Hs; [|assumption].
    apply IH; lia.
Qed.


(** *** Fences *)

Lemma sliceFrom_head s i c t : sliceFrom s i = c :: t -> charAt s i = Some c.
Proof.
  unfold sliceFrom, charAt. revert i. induction s as [|x s IH]; intros [|i] H;
    simpl in *; try discriminate.
  - congruence.
  - apply IH. exact H.
Qed.

Lemma matchFence_run input i ch n rest :
  ch = BACKTICK \/ ch = TILDE ->
  sliceFrom input i = repeat ch n ++ rest ->
  0 < n ->
  match rest with x :: _ => x <> ch | [] => True end ->
  matchFence input i = if 3 <=? n then n else 0.
Proof.
  intros Hch Hs Hn Hrest. unfold matchFence.
  destruct n as [|n]; [lia|].
  rewrite (sliceFrom_head input i _ _ Hs).
  replace (N.eqb ch BACKTICK || N.eqb ch TILDE) with true
    by (destruct Hch; subst; reflexivity).
  rewrite Hs. rewrite (run_repeat ch (S n) rest Hrest). reflexivity.
Qed.

Lemma matchFence_fence input i :
  0 < matchFence input i ->
  3 <= matchFence input i
  /\ exists ch, (ch = BACKTICK \/ ch = TILDE)
       /\ sliceFrom input i
          = repeat ch (matchFence input i) ++ sliceFrom input (i + matchFence input i).
Proof.
  unfold matchFence. destruct (charAt input i) as [ch|] eqn:Hc; [|lia].
  destruct (N.eqb ch BACKTICK || N.eqb ch TILDE) eqn:Hf; [|lia].
  destruct (Nat.leb_spec 3 (run ch (sliceFrom input i))) as [H3|H3]; [|lia].
  intros _. split; [exact H3|]. exists ch. split.
  - apply orb_prop in Hf. destruct Hf as [Hf|Hf]; apply N.eqb_eq in Hf; tauto.
  - rewrite <- sliceFrom_add. apply run_split.
Qed.

(** A fence of width [k >= 3] is met at [i] exactly when a run of at least
    [k] backticks, or of at least [k] tildes, starts there. *)
Lemma matchFence_ge input i k :
  3 <= k ->
  k <= matchFence input i
  <-> exists ch, (ch = BACKTICK \/ ch = TILDE)
        /\ charAt input i = Some ch /\ k <= run ch (sliceFrom input i).
Proof.
  intros H3. unfold matchFence.
  destruct (charAt input i) as [c|] eqn:Hc.
  - destruct (N.eqb c BACKTICK || N.eqb c TILDE) eqn:Hf.
    + destruct (Nat.leb_spec 3 (run c (sliceFrom input i))) as [Hr|Hr]; split.
      * intros Hle. exists c. split; [|split; [reflexivity|exact Hle]].
        apply orb_prop in Hf. destruct Hf as [Hf|Hf]; apply N.eqb_eq in Hf; tauto.
      * intros [ch [_ [Hch Hle]]]. inv Hch. exact Hle.
      * lia.
      * intros [ch [_ [Hch Hle]]]. inv Hch. lia.
    + split; [lia|]. intros [ch [Hch [Hch2 _]]]. inv Hch2.
      destruct Hch; subst; discriminate.
  - split; [lia|]. intros [ch [_ [Hch _]]]. discriminate.
Qed.


(** *** The pending buffer *)

Lemma hd_sliceFrom s i : hd_error (sliceFrom s i) = charAt s i.
Proof.
  unfold sliceFrom, charAt. revert i. induction s as [|x s IH]; intros [|i];
    simpl; try reflexivity. apply IH.
Qed.

Lemma not_in_repeat (c x : char) n : x <> c -> ~ In x (repeat c n).
Proof. intros Hne Hin. apply repeat_spec in Hin. congruence. Qed.

Lemma openFence_pending r input i r' :
  openFence r input i = Some (Break r') -> pendingShape (pending r').
Proof.
  unfold openFence. intros H.
  destruct (atLineStart r && negb (inCode r) && negb (inCodeBlock r)); [|discriminate].
  destruct (Nat.ltb_spec 0 (matchFence input i)) as [Hf|Hf]; [|discriminate].
  destruct (indexOf LF input (i + matchFence input i)) eqn:Hnl; inv H.
  simpl. do 3 right. left.
  destruct (matchFence_fence input i Hf) as [H3 [ch [Hch Hs]]].
  apply indexOf_none in Hnl.
  exists ch, (matchFence input i), (sliceFrom input (i + matchFence input i)).
  split; [exact Hch|]. split; [exact H3|]. split; [exact Hs|exact Hnl].
Qed.

Lemma codeBlock_pending r input i r' : codeBlock r input i = Some (Break r') -> False.
Proof. unfold codeBlock. intros H. repeat break_hyp H; discriminate. Qed.

Lemma inlineCode_pending r input i r' : inlineCode r input i = Some (Break r') -> False.
Proof. unfold inlineCode. intros H. repeat break_hyp H; discriminate. Qed.

Lemma header_pending r input i r' :
  header r input i = Some (Break r') -> pendingShape (pending r').
Proof.
  unfold header. intros H.
  destruct (atLineStart r && charIs (charAt input i) HASH) eqn:Hc; [|discriminate].
  apply andb_prop in Hc. destruct Hc as [_ Hc]. apply charIs_true in Hc.
  pose proof (run_split HASH (sliceFrom input i)) as Hsplit.
  pose proof (run_le HASH (sliceFrom input i)) as Hle.
  rewrite sliceFrom_length in Hle.
  assert (Hpos : 0 < run HASH (sliceFrom input i)).
  { rewrite (sliceFrom_cons _ _ _ Hc). simpl. lia. }
  set (n := run HASH (sliceFrom input i)) in *.
  destruct (Nat.leb_spec (length input) (i + n)) as [Hend|Hend].
  - inv H. simpl. do 4 right. left. exists n, []. split; [exact Hpos|].
    split; [|left; reflexivity].
    rewrite skipn_all2 in Hsplit; [exact Hsplit|].
    rewrite sliceFrom_length. lia.
  - destruct (charIs (charAt input (i + n)) SPACE) eqn:Hsp; [|discriminate].
    apply charIs_true in Hsp.
    destruct (indexOf LF input (i + n + 1)) eqn:Hnl; inv H.
    simpl. do 4 right. left.
    apply indexOf_none in Hnl.
    exists n, (SPACE :: sliceFrom input (i + n + 1)). split; [exact Hpos|]. split.
    + rewrite Hsplit at 1. f_equal.
      change (skipn n (sliceFrom input i)) with (sliceFrom (sliceFrom input i) n).
      rewrite sliceFrom_add, (sliceFrom_cons _ _ _ Hsp).
      replace (S (i + n)) with (i + n + 1) by lia. reflexivity.
    + right. exists (sliceFrom input (i + n + 1)). split; [reflexivity|exact Hnl].
Qed.

(** A scan that reaches the end of the text has seen rule characters and
    spaces only, and has counted the rule characters. *)
Lemma ruleScan_end c rest : forall j0 n j count b,
  c <> SPACE ->
  ruleScan c rest j0 n = (j, count, b) -> j0 + length rest <= j ->
  Forall (fun x => x = c \/ x = SPACE) rest
  /\ count = n + count_occ N.eq_dec rest c.
Proof.
  induction rest as [|x rest IH]; simpl; intros j0 n j count b Hc H Hj.
  - inv H. split; [constructor|lia].
  - destruct (N.eqb_spec x LF) as [->|Hx]; [inv H; lia|].
    destruct (N.eqb_spec x c) as [->|Hxc].
    + apply IH in H; [|assumption|lia]. destruct H as [HF Hcount].
      split; [constructor; auto|].
      destruct (N.eq_dec c c); [lia|congruence].
    + destruct (N.eqb_spec x SPACE) as [->|Hsp]; simpl in H.
      * apply IH in H; [|assumption|lia]. destruct H as [HF Hcount].
        split; [constructor; auto|].
        destruct (N.eq_dec SPACE c); [congruence|lia].
      * inv H. lia.
Qed.

Lemma horizontalRule_pending cols r input i r' :
  horizontalRule cols r input i = Some (Break r') -> pendingShape (pending r').
Proof.
  unfold horizontalRule. intros H.
  destruct (charAt input i) as [ruleChar|] eqn:Hc; [|discriminate].
  destruct (atLineStart r && _) eqn:Hcond; [|discriminate].
  assert (Hrule : ruleChar = DASH \/ ruleChar = STAR \/ ruleChar = UNDERSCORE).
  { apply andb_prop in Hcond. destruct Hcond as [_ Hcond].
    repeat (apply orb_prop in Hcond; destruct Hcond as [Hcond|Hcond]);
      apply N.eqb_eq in Hcond; tauto. }
  destruct (ruleScan ruleChar (sliceFrom input i) i 0) as [[j count] isRule] eqn:Hs.
  destruct (Nat.leb_spec (length input) j) as [Hend|Hend]; simpl in H.
  - destruct (Nat.ltb_spec count 3) as [H3|H3]; simpl in H.
    + inv H. simpl. do 5 right. left.
      apply ruleScan_end in Hs.
      * destruct Hs as [HF Hcount].
        exists ruleChar, (sliceFrom input (S i)).
        rewrite (sliceFrom_cons _ _ _ Hc) in *.
        split; [exact Hrule|]. split; [reflexivity|]. split.
        -- inversion HF; assumption.
        -- cbn [Nat.add] in Hcount. rewrite <- Hcount. exact H3.
      * destruct Hrule as [->|[->| ->]]; discriminate.
      * rewrite sliceFrom_length. apply charAt_some_lt in Hc. lia.
    + repeat break_hyp H; discriminate.
  - repeat break_hyp H; discriminate.
Qed.

Lemma listItem_pending r input i r' : listItem r input i = Some (Break r') -> False.
Proof. unfold listItem. intros H. repeat break_hyp H; discriminate. Qed.

Lemma emphasis_pending r input i r' :
  emphasis r input i = Some (Break r') -> pendingShape (pending r').
Proof.
  unfold emphasis. intros H. repeat break_hyp H; inv H. simpl.
  do 6 right. reflexivity.
Qed.

(** [find] returns the first position. *)
Lemma find_first c s : forall base k,
  find c s base = Some k ->
  exists a b, s = a ++ c :: b /\ ~ In c a /\ k = base + length a.
Proof.
  induction s as [|x s IH]; simpl; intros base k H; [discriminate|].
  destruct (N.eqb_spec x c) as [->|Hne].
  - inv H. exists [], s. simpl. split; [reflexivity|]. split; [tauto|lia].
  - apply IH in H. destruct H as [a [b [Hs [Hin Hk]]]].
    exists (x :: a), b. simpl. split; [congruence|]. split; [|lia].
    intros [Hx|Hx]; [congruence|tauto].
Qed.

Lemma link_pending r input i r' :
  link r input i = Some (Break r') -> pendingShape (pending r').
Proof.
  unfold link. intros H.
  destruct (charIs (charAt input i) LBRACKET) eqn:Hc; [|discriminate].
  apply charIs_true in Hc.
  pose proof (sliceFrom_cons _ _ _ Hc) as Hp.
  destruct (indexOf RBRACKET input (i + 1)) as [closeBracket|] eqn:Hb.
  - destruct ((closeBracket + 1 <? length input)
              && charIs (charAt input (closeBracket + 1)) LPAREN) eqn:Hparen;
      [|discriminate].
    apply andb_prop in Hparen. destruct Hparen as [_ Hparen].
    apply charIs_true in Hparen.
    destruct (indexOf RPAREN input (closeBracket + 2)) eqn:Hclose; [discriminate|].
    destruct (Nat.ltb_spec (length input - i) 500) as [Hlen|Hlen]; inv H.
    simpl. do 2 right. left.
    unfold indexOf in Hb. apply find_first in Hb.
    destruct Hb as [text [b [Hs [Hin Hk]]]].
    apply indexOf_none in Hclose.
    assert (Hb : sliceFrom input (closeBracket + 1) = b).
    { subst closeBracket. unfold sliceFrom.
      replace (i + 1 + length text + 1) with ((length text + 1) + (i + 1)) by lia.
      rewrite <- skipn_skipn, Hs, skipn_app.
      rewrite skipn_all2 by lia.
      replace (length text + 1 - length text) with 1 by lia. reflexivity. }
    pose proof (sliceFrom_cons _ _ _ Hparen) as Htarget. rewrite Hb in Htarget.
    exists text, (sliceFrom input (S (closeBracket + 1))).
    split; [|split; [exact Hin|split]].
    + rewrite Hp. replace (S i) with (i + 1) by lia.
      unfold sliceFrom at 1. rewrite Hs, Htarget. reflexivity.
    + replace (S (closeBracket + 1)) with (closeBracket + 2) by lia. exact Hclose.
    + rewrite sliceFrom_length. exact Hlen.
  - destruct (Nat.ltb_spec (length input - i) 200) as [Hlen|Hlen]; inv H.
    simpl. right. left.
    apply indexOf_none in Hb.
    exists (sliceFrom input (i + 1)).
    split; [|split; [exact Hb|]].
    + rewrite Hp. replace (S i) with (i + 1) by lia. reflexivity.
    + rewrite sliceFrom_length. exact Hlen.
Qed.

Lemma literal_pending r input i r' : literal r input i = Break r' -> False.
Proof. unfold literal. intros H. repeat break_hyp H; discriminate. Qed.

Lemma step_break cols r input i r' :
  step cols r input i = Break r' -> pendingShape (pending r').
Proof.
  intros H. apply step_cases in H.
  destruct H as [H|[H|[H|[H|[H|[H|[H|[H|H]]]]]]]];
    eauto using openFence_pending, header_pending, horizontalRule_pending,
      emphasis_pending, link_pending;
    exfalso;
    eauto using codeBlock_pending, inlineCode_pending, listItem_pending,
      literal_pending.
Qed.

(** Iterations that do not [break] leave [pending] alone. *)
Lemma step_keeps_pending cols r input i o :
  step cols r input i = o ->
  match o with
  | Continue r' _ _ => pending r' = pending r
  | Throw r' => pending r' = pending r
  | Break _ => True
  end.
Proof.
  intros H. apply step_cases in H.
  unfold openFence, codeBlock, inlineCode, header, horizontalRule, listItem,
    emphasis, link, literal in H.
  destruct H as [H|[H|[H|[H|[H|[H|[H|[H|H]]]]]]]];
    repeat break_hyp H; try discriminate; inv H; try reflexivity; exact I.
Qed.

Lemma loop_pending cols input : forall fuel r i out,
  pending r = [] -> pendingShape (pending (fst (loop fuel cols r input i out))).
Proof.
  induction fuel as [|fuel IH]; intros r i out Hp; simpl;
    destruct (length input <=? i); simpl; try (left; exact Hp).
  destruct (step cols r input i) as [r' i' e|r'|r'] eqn:Hs.
  - apply IH. apply step_keeps_pending in Hs. congruence.
  - simpl. eapply step_break. exact Hs.
  - simpl. apply step_keeps_pending in Hs. left. congruence.
Qed.




(** Inside a block, an iteration that does not face a long enough fence
    keeps the block open with its width. *)
Lemma step_keeps_block_open cols r input i :
  inCodeBlock r = true -> i < length input ->
  matchFence input i < codeBlockTicks r ->
  exists r' i' e,
    step cols r input i = Continue r' i' e
    /\ inCodeBlock r' = true /\ codeBlockTicks r' = codeBlockTicks r.
Proof.
  intros Hin Hi Hf. unfold step, openFence, codeBlock. rewrite Hin.
  rewrite andb_false_r. cbn [orElse].
  destruct (Nat.leb_spec (codeBlockTicks r) (matchFence input i)) as [?|_]; [lia|].
  rewrite andb_false_r.
  destruct (charAt_lt input i Hi) as [c Hc]. rewrite Hc.
  destruct (N.eqb c LF); cbn [orElse]; do 3 eexists;
    (split; [reflexivity|]); simpl; auto.
Qed.

Lemma loop_keeps_block_open cols input k :
  (forall j, matchFence input j < k) ->
  forall fuel r i out,
    inCodeBlock r = true -> codeBlockTicks r = k ->
    inCodeBlock (fst (loop fuel cols r input i out)) = true
    /\ codeBlockTicks (fst (loop fuel cols r input i out)) = k.
Proof.
  intros Hno. induction fuel as [|fuel IH]; intros r i out Hin Hk; simpl;
    destruct (Nat.leb_spec (length input) i) as [Hi|Hi]; simpl; auto.
  destruct (step_keeps_block_open cols r input i Hin Hi) as [r' [i' [e [Hs [H1 H2]]]]].
  { rewrite Hk. apply Hno. }
  rewrite Hs. apply IH; congruence.
Qed.

(** A [push] that meets no fence of the opening width or more, at any
    position, leaves the block open. *)
Lemma push_keeps_block_open cols r chunk :
  inCodeBlock r = true ->
  (forall j, matchFence (pending r ++ chunk) j < codeBlockTicks r) ->
  inCodeBlock (fst (push cols r chunk)) = true
  /\ codeBlockTicks (fst (push cols r chunk)) = codeBlockTicks r.
Proof.
  intros Hin Hno. unfold push.
  apply loop_keeps_block_open; [exact Hno|exact Hin|reflexivity].
Qed.
(** An opening fence records its width. *)
Lemma openFence_records_width r input i r' i' out :
  openFence r input i = Some (Continue r' i' out) ->
  inCodeBlock r' = true /\ codeBlockTicks r' = matchFence input i
  /\ 3 <= matchFence input i /\ atLineStart r' = true /\ out = DIM.
Proof.
  unfold openFence. intros H.
  destruct (atLineStart r && negb (inCode r) && negb (inCodeBlock r)); [|discriminate].
  destruct (Nat.ltb_spec 0 (matchFence input i)) as [Hf|Hf]; [|discriminate].
  destruct (indexOf LF input (i + matchFence input i)); inv H.
  simpl. repeat split. apply matchFence_fence. exact Hf.
Qed.

(** Whole documents: four backticks, then three, four or five. *)
Example four_ticks_three :
  push 80 fresh (lit "````" ++ [LF] ++ lit "code" ++ [LF] ++ lit "```" ++ [LF])
  = (mkRenderer [] false false false true 4 true [],
     Returned (DIM ++ lit "code" ++ [LF] ++ lit "```" ++ [LF])).
Proof. vm_compute. reflexivity. Qed.

Example four_ticks_four :
  push 80 fresh (lit "````" ++ [LF] ++ lit "code" ++ [LF] ++ lit "````" ++ [LF])
  = (mkRenderer [] false false false false 4 true [],
     Returned (DIM ++ lit "code" ++ [LF] ++ RESET)).
Proof. vm_compute. reflexivity. Qed.

Example four_ticks_five :
  push 80 fresh (lit "````" ++ [LF] ++ lit "code" ++ [LF] ++ lit "`````" ++ [LF])
  = (mkRenderer [] false false false false 4 true [],
     Returned (DIM ++ lit "code" ++ [LF] ++ RESET)).
Proof. vm_compute. reflexivity. Qed.



(** No constant bounds the pending buffer: a header of any length is kept. *)
Lemma header_pending_unbounded cols n :
  pending (fst (push cols fresh (lit "# " ++ repeat 97%N n)))
  = lit "# " ++ repeat 97%N n.
Proof.
  assert (Hnone : forall k base, find LF (repeat 97%N k) base = None).
  { induction k as [|k IH]; intros base; simpl; [reflexivity|apply IH]. }
  unfold push. cbn [pending fresh app]. change (lit "# ") with [HASH; SPACE].
  cbn [app length loop Nat.leb].
  unfold step, openFence, codeBlock, inlineCode, header.
  cbn [atLineStart inCode inCodeBlock set_pending negb andb matchFence charAt
       nth_error orElse charIs sliceFrom skipn run Nat.add Nat.leb length].
  cbn. unfold indexOf. cbn [skipn]. rewrite Hnone. reflexivity.
Qed.

(** The link look-ahead is the bounded one. *)
Example long_link_text_is_literal :
  pending (fst (push 80 fresh (LBRACKET :: repeat 97%N 199))) = []
  /\ length (pending (fst (push 80 fresh (LBRACKET :: repeat 97%N 198)))) = 199.
Proof. split; vm_compute; reflexivity. Qed.

End MarkdownFacts.

(** ** The line wrapper *)

Module WrapFacts.
Import Wrap JSFacts Samples.

Lemma skipParams_mono rest : forall i, i <= skipParams rest i.
Proof.
  induction rest as [|c rest IH]; intros i; simpl; [lia|].
  destruct ((32 <=? c) && (c <=? 63))%N; [|lia].
  specialize (IH (S i)). lia.
Qed.

Lemma body_forward cols text i col : i <= fst (fst (body cols text i col)).
Proof.
  unfold body. destruct (charAt text i) as [ch|]; [|simpl; lia].
  destruct (N.eqb ch ESC).
  - destruct ((i + 1 <? length text) && charIs (charAt text (i + 1)) 91%N); simpl.
    + pose proof (skipParams_mono (sliceFrom text (i + 1 + 1)) (i + 1 + 1)). lia.
    + lia.
  - destruct (N.eqb ch LF); [simpl; lia|].
    destruct (cols <=? col)%Z; simpl; lia.
Qed.

(** [length text - i] iterations are enough for the [for] loop. *)
Lemma wrap_loop_fuel cols text : forall f1 f2 i col result,
  length text - i <= f1 -> length text - i <= f2 ->
  loop f1 cols text i col result = loop f2 cols text i col result.
Proof.
  induction f1 as [|f1 IH]; intros f2 i col result H1 H2.
  - destruct f2; simpl; destruct (Nat.leb_spec (length text) i); try reflexivity; lia.
  - destruct f2; simpl; destruct (Nat.leb_spec (length text) i); try reflexivity; try lia.
    pose proof (body_forward cols text i col) as Hb.
    destruct (body cols text i col) as [[i' col'] emitted]. simpl in Hb.
    apply IH; lia.
Qed.

(** An escape sequence never moves the column. *)
Lemma body_escape_keeps_column cols text i col :
  charAt text i = Some ESC -> snd (fst (body cols text i col)) = col.
Proof.
  intros H. unfold body. rewrite H. simpl.
  destruct ((i + 1 <? length text) && _); reflexivity.
Qed.

(** A visible character moves the column by one, after a break when the
    column has reached the width. *)
Lemma body_visible cols text i col ch :
  charAt text i = Some ch -> ch <> ESC -> ch <> LF ->
  body cols text i col
  = if (cols <=? col)%Z then (i, 17%Z, breakLine ++ [ch]) else (i, (col + 1)%Z, [ch]).
Proof.
  intros H Hesc Hlf. unfold body. rewrite H.
  destruct (N.eqb_spec ch ESC); [contradiction|].
  destruct (N.eqb_spec ch LF); [contradiction|]. reflexivity.
Qed.

Ltac decide_width :=
  match goal with
  | |- context [Z.leb ?a ?b] => destruct (Z.leb_spec a b); try lia
  end.

(** C6 (amended). On a terminal of at least 24 columns, wrapping the
    styled text from column [width - 3] copies both escape sequences
    through, inserts one break (newline and indent) after the third
    visible character, where the column has reached the width, and ends at
    column 24: the indent of 16 plus the 8 visible characters after the
    break. *)
Theorem wrap_column_tracking (columns : option N) :
  (24 <= terminalCols columns)%Z ->
  wrapAssistantText columns styled (terminalCols columns - 3)
    = (lit "hel" ++ breakLine ++ lit "lo" ++ BOLD ++ lit "world" ++ RESET ++ lit "!",
       24%Z)
  /\ lineBreaks (fst (wrapAssistantText columns styled (terminalCols columns - 3))) = 1.
Proof.
  intros Hw. unfold wrapAssistantText.
  generalize dependent (terminalCols columns). intros cols Hw.
  assert (H : loop (length styled) cols styled 0 (cols - 3) []
              = (lit "hel" ++ breakLine ++ lit "lo" ++ BOLD ++ lit "world" ++ RESET
                 ++ lit "!", 24%Z)).
  { cbv [styled]. simpl. unfold body. simpl.
    repeat (decide_width; simpl).
    reflexivity. }
  rewrite H. split; reflexivity.
Qed.

Lemma wrap_column_tracking_witness :
  (24 <= terminalCols (Some 80%N))%Z
  /\ wrapAssistantText (Some 80%N) styled (terminalCols (Some 80%N) - 3)
      = (lit "hel" ++ breakLine ++ lit "lo" ++ BOLD ++ lit "world" ++ RESET
         ++ lit "!", 24%Z)
  /\ lineBreaks (fst (wrapAssistantText (Some 80%N) styled
                        (terminalCols (Some 80%N) - 3))) = 1.
Proof.
  split; [simpl; lia|]. apply (wrap_column_tracking (Some 80%N)). simpl. lia.
Defined.

(** C6 (counterexample). On a terminal of 20 columns the same text, from
    column 17, is broken twice. *)
Lemma narrow_terminal_breaks_twice :
  wrapAssistantText (Some 20%N) styled (20 - 3)
    = (lit "hel" ++ breakLine ++ lit "lo" ++ BOLD ++ lit "wo" ++ breakLine
       ++ lit "rld" ++ RESET ++ lit "!", 20%Z)
  /\ lineBreaks (fst (wrapAssistantText (Some 20%N) styled (20 - 3))) <> 1.
Proof. split; vm_compute; [reflexivity|discriminate]. Qed.

End WrapFacts.

(** ** The display coordinator *)

Module DisplayFacts.
Import Display Monitor JSFacts Samples.

Local Arguments eraseLoop : simpl never.

Lemma observeAll_app m a b :
  observeAll m (a ++ b)
  = match observeAll m a with
    | Some m' => observeAll m' b
    | None => None
    end.
Proof.
  revert m. induction a as [|w a IH]; intros m; simpl; [reflexivity|].
  destruct (observe m w); [apply IH|reflexivity].
Qed.

(** [eraseLoop] issues one line-erase operation per iteration. *)
Lemma observe_eraseLoop k : forall i count d c rest,
  observeAll (mkRegion d c false) (eraseLoop k i count ++ rest)
  = observeAll (mkRegion d (c + k) false) rest.
Proof.
  induction k as [|k IH]; intros i count d c rest.
  - cbn. rewrite Nat.add_0_r. reflexivity.
  - cbn [eraseLoop]. simpl. destruct (i <? count - 1); simpl;
      rewrite IH; f_equal; f_equal; lia.
Qed.

Lemma eraseLoop_lineErases k : forall i count,
  lineErases (eraseLoop k i count) = k.
Proof.
  induction k as [|k IH]; intros i count; [reflexivity|].
  cbn [eraseLoop]. unfold lineErases in *. simpl.
  rewrite filter_app, length_app, IH.
  destruct (i <? count - 1); reflexivity.
Qed.

(** [eraseLines(count)] issues [count] line-erase operations. *)
Lemma eraseLines_lineErases count s :
  lineErases (snd (eraseLines count s)) = count.
Proof.
  unfold eraseLines. simpl. unfold lineErases.
  rewrite filter_app, length_app. fold (lineErases (eraseLoop count 0 count)).
  rewrite eraseLoop_lineErases. simpl. lia.
Qed.

(** An erase of exactly the lines on screen is accepted and leaves the
    region erased. *)
Lemma observe_erase n rest :
  observeAll (settled n) (eraseLoop n 0 n ++ [CarriageReturn] ++ rest)
  = observeAll (settled 0) rest.
Proof.
  unfold settled. rewrite observe_eraseLoop.
  cbn. rewrite Nat.eqb_refl. reflexivity.
Qed.

Section Terminal.
Variable columns : option N.

Ltac run_display :=
  cbv [perform startSpinner clearSpinner writeStreaming writePermanent
       redrawPrompt drawSpinnerAndPrompt eraseDynamic eraseLines
       updateStreamingCol stopSpinner promptWrite
       andThen when ifThenElse assign emit skip
       set_dynamicLineCount set_spinnerTimer set_spinnerFrame
       set_streamingCol set_streamingActive set_promptVisible
       dynamicLineCount spinnerTimer streamingActive promptVisible
       streamingCol spinnerFrame inputBuffer escapeSeq processing
       messageQueue wakeResolve running fst snd].

Lemma perform_symmetric c s :
  observeAll (settled (dynamicLineCount s)) (snd (perform columns c s))
  = Some (settled (dynamicLineCount (fst (perform columns c s)))).
Proof.
  destruct s as [ib st dlc sc sa pv sf es pr mq wr rn].
  destruct c; destruct dlc as [|n]; destruct st, sa, pv;
    run_display; cbn [Nat.ltb Nat.leb andb negb app fst snd];
    try destruct (0 <? sc)%Z;
    cbn [Nat.ltb Nat.leb andb negb app fst snd];
    rewrite <- ?app_assoc; try rewrite observe_erase; reflexivity.
Qed.

(** C2. Along every sequence of [startSpinner], [clearSpinner],
    [writeStreaming] and [writePermanent] calls, from any state, the
    terminal trace keeps the erase discipline: each erase issues as many
    line-erase operations as the last redraw drew lines (1 for the prompt,
    2 for spinner and prompt), each redraw and each text starts on an
    erased region, and [dynamicLineCount] ends as the number of lines on
    screen. *)
Theorem erase_symmetry (calls : list call) : forall s,
  observeAll (settled (dynamicLineCount s)) (snd (performAll columns calls s))
  = Some (settled (dynamicLineCount (fst (performAll columns calls s)))).
Proof.
  induction calls as [|c calls IH]; intros s; [reflexivity|].
  cbn [performAll]. unfold andThen.
  pose proof (perform_symmetric c s) as Hc.
  destruct (perform columns c s) as [s1 t1]. simpl in Hc.
  pose proof (IH s1) as Hrest.
  destruct (performAll columns calls s1) as [s2 t2]. simpl in Hrest |- *.
  rewrite observeAll_app, Hc. exact Hrest.
Qed.

(** *** writePermanent *)

(** C7 (amended). [writePermanent(text)] erases the dynamic region when
    one is shown; emits a newline only when streaming with no dynamic
    region shown; writes [text] and a newline; leaves the streaming
    state; and redraws spinner and prompt when the spinner runs, else
    the prompt when it has been shown. *)
Theorem writePermanent_trace (text : jsstring) (s : state) :
  streamingActive (fst (writePermanent columns text s)) = false
  /\ snd (writePermanent columns text s)
  = eraseWrites (dynamicLineCount s)
    ++ (if streamingActive s && negb (0 <? dynamicLineCount s)
        then [Newline] else [])
    ++ [Text (text ++ [LF])]
    ++ (if spinnerTimer s
        then [SpinnerLine (spinnerFrame s); promptWrite columns s]
        else if promptVisible s then [promptWrite columns s] else []).
Proof.
  destruct s as [ib st dlc sc sa pv sf es pr mq wr rn].
  unfold eraseWrites.
  destruct dlc as [|n]; destruct st, sa, pv;
    run_display; cbn [Nat.ltb Nat.leb andb negb app fst snd];
    rewrite <- ?app_assoc; split; reflexivity.
Qed.

(** *** The streaming column *)

Lemma skipEscape_forward text i : i < skipEscape text i.
Proof.
  unfold skipEscape.
  destruct ((i + 1 <? length text) && charIs (charAt text (i + 1)) 91%N); [|lia].
  pose proof (WrapFacts.skipParams_mono (sliceFrom text (i + 1 + 1)) (i + 1 + 1)).
  destruct (_ <? length text); lia.
Qed.

(** [length text] iterations are enough for [updateStreamingCol]. *)
Lemma updateLoop_fuel text : forall f1 f2 i col,
  length text - i <= f1 -> length text - i <= f2 ->
  updateLoop columns f1 text i col = updateLoop columns f2 text i col.
Proof.
  induction f1 as [|f1 IH]; intros f2 i col H1 H2.
  - destruct f2; simpl; destruct (Nat.leb_spec (length text) i); try reflexivity; lia.
  - destruct f2; simpl; destruct (Nat.leb_spec (length text) i);
      try reflexivity; try lia.
    pose proof (skipEscape_forward text i).
    destruct (charAt text i) as [ch|]; [|reflexivity].
    destruct (N.eqb ch ESC); [apply IH; lia|].
    destruct (N.eqb ch LF); [apply IH; lia|].
    destruct (N.eqb ch CR); apply IH; lia.
Qed.

Lemma updateLoop_range text : forall fuel i col,
  (0 <= col < terminalCols columns)%Z ->
  (0 <= updateLoop columns fuel text i col < terminalCols columns)%Z.
Proof.
  pose proof (terminalCols_pos columns) as Hpos.
  induction fuel as [|fuel IH]; intros i col Hcol; simpl;
    destruct (length text <=? i); try exact Hcol.
  destruct (charAt text i) as [ch|]; [|exact Hcol].
  destruct (N.eqb ch ESC); [apply IH; exact Hcol|].
  destruct (N.eqb ch LF); [apply IH; lia|].
  destruct (N.eqb ch CR); [apply IH; lia|].
  apply IH. destruct (Z.leb_spec (terminalCols columns) (col + 1)); lia.
Qed.

Lemma perform_range c s :
  inRange columns s ->
  inRange columns (fst (perform columns c s))
  /\ forallb (restoreWithin (terminalCols columns)) (snd (perform columns c s)) = true.
Proof.
  pose proof (terminalCols_pos columns) as Hpos.
  destruct s as [ib st dlc sc sa pv sf es pr mq wr rn]. unfold inRange.
  cbn [streamingCol]. intros Hsc.
  assert (Herase : forall k i n rest,
             forallb (restoreWithin (terminalCols columns)) (eraseLoop k i n ++ rest)
             = forallb (restoreWithin (terminalCols columns)) rest).
  { induction k as [|k IHk]; intros i n rest; [reflexivity|].
    cbn [eraseLoop]. simpl. destruct (i <? n - 1); simpl; apply IHk. }
  destruct c as [| |text|text]; destruct dlc as [|n]; destruct st, sa, pv;
    run_display; cbn [Nat.ltb Nat.leb andb negb app fst snd];
    try (destruct (Z.ltb_spec 0 sc));
    cbn [Nat.ltb Nat.leb andb negb app fst snd];
    rewrite <- ?app_assoc, ?Herase; simpl;
    (split; [try lia; try (apply updateLoop_range; lia)|]);
    try reflexivity;
    rewrite ?andb_true_r; apply andb_true_intro; split;
      try (apply Z.ltb_lt; lia).
Qed.

(** With a width that does not change, the column stays a column of the
    terminal over any text and any sequence of calls. *)
Lemma fixed_width_in_range (s : state) :
  inRange columns s ->
  (forall text, inRange columns (fst (updateStreamingCol columns text s)))
  /\ (forall calls,
        inRange columns (fst (performAll columns calls s))
        /\ forallb (restoreWithin (terminalCols columns))
             (snd (performAll columns calls s)) = true).
Proof.
  intros Hs. split.
  - intros text. unfold inRange, updateStreamingCol, assign. simpl.
    destruct s; simpl. apply updateLoop_range. exact Hs.
  - intros calls. revert s Hs.
    induction calls as [|c calls IH]; intros s Hs; [split; [exact Hs|reflexivity]|].
    cbn [performAll]. unfold andThen.
    destruct (perform_range c s Hs) as [H1 H2].
    destruct (perform columns c s) as [s1 t1]. simpl in H1, H2.
    destruct (IH s1 H1) as [H3 H4].
    destruct (performAll columns calls s1) as [s2 t2]. simpl in *.
    split; [exact H3|]. rewrite forallb_app, H2, H4. reflexivity.
Qed.

(** The same bounds against any [width] that the terminal does not exceed:
    the loop wraps at the width it reads, so it never leaves a column at or
    beyond a larger one. *)
Lemma updateLoop_bound width text : forall fuel i col,
  (terminalCols columns <= width)%Z -> (0 <= col < width)%Z ->
  (0 <= updateLoop columns fuel text i col < width)%Z.
Proof.
  intros fuel i col Hw. revert i col.
  induction fuel as [|fuel IH]; intros i col Hcol; simpl;
    destruct (length text <=? i); try exact Hcol.
  destruct (charAt text i) as [ch|]; [|exact Hcol].
  destruct (N.eqb ch ESC); [apply IH; exact Hcol|].
  destruct (N.eqb ch LF); [apply IH; lia|].
  destruct (N.eqb ch CR); [apply IH; lia|].
  apply IH. destruct (Z.leb_spec (terminalCols columns) (col + 1)); lia.
Qed.

Lemma perform_bound width c s :
  (terminalCols columns <= width)%Z -> (0 <= streamingCol s < width)%Z ->
  (0 <= streamingCol (fst (perform columns c s)) < width)%Z
  /\ forallb (restoreWithin width) (snd (perform columns c s)) = true.
Proof.
  intros Hw.
  destruct s as [ib st dlc sc sa pv sf es pr mq wr rn].
  cbn [streamingCol]. intros Hsc.
  assert (Herase : forall k i n rest,
             forallb (restoreWithin width) (eraseLoop k i n ++ rest)
             = forallb (restoreWithin width) rest).
  { induction k as [|k IHk]; intros i n rest; [reflexivity|].
    cbn [eraseLoop]. simpl. destruct (i <? n - 1); simpl; apply IHk. }
  destruct c as [| |text|text]; destruct dlc as [|n]; destruct st, sa, pv;
    run_display; cbn [Nat.ltb Nat.leb andb negb app fst snd];
    try (destruct (Z.ltb_spec 0 sc));
    cbn [Nat.ltb Nat.leb andb negb app fst snd];
    rewrite <- ?app_assoc, ?Herase; simpl;
    (split; [try lia; try (apply updateLoop_bound; lia)|]);
    try reflexivity;
    rewrite ?andb_true_r; apply andb_true_intro; split;
      try (apply Z.ltb_lt; lia).
Qed.

(** *** The input editor *)

Lemma redrawPrompt_editor s : sameEditor s (fst (redrawPrompt columns s)).
Proof.
  destruct s as [ib st dlc sc sa pv sf es pr mq wr rn].
  destruct dlc, st, sa; run_display; cbn; repeat split.
Qed.

Lemma writePermanent_editor text s :
  sameEditor s (fst (writePermanent columns text s)).
Proof.
  destruct s as [ib st dlc sc sa pv sf es pr mq wr rn].
  destruct dlc, st, sa, pv; run_display; cbn; repeat split.
Qed.

Lemma last_skip (a b : list write) (x d : write) :
  last (a ++ x :: b) d = last (x :: b) d.
Proof.
  induction a as [|y a IH]; [reflexivity|].
  cbn [app]. rewrite <- IH. cbn [last].
  destruct (a ++ x :: b) eqn:E; [destruct a; discriminate|reflexivity].
Qed.

(** A redraw ends with the prompt for the current buffer. *)
Lemma redrawPrompt_last s :
  last (snd (redrawPrompt columns s)) Newline = promptWrite columns s.
Proof.
  destruct s as [ib st dlc sc sa pv sf es pr mq wr rn].
  destruct dlc, st, sa; run_display; cbn [Nat.ltb Nat.leb andb negb app fst snd];
    rewrite <- ?app_assoc; try reflexivity;
    cbn [app]; rewrite last_skip; reflexivity.
Qed.

Lemma assign_andThen f a s : (assign f ;; a) s = a (f s).
Proof. unfold andThen, assign. destruct (a (f s)). reflexivity. Qed.

(** A printable key is appended to the buffer. *)
Lemma handleChar_printable c s :
  escapeSeq s = 0 -> (32 <= c)%N -> c <> 127%N ->
  let s' := fst (handleChar columns [c] s) in
  inputBuffer s' = inputBuffer s ++ [c] /\ escapeSeq s' = 0
  /\ messageQueue s' = messageQueue s /\ processing s' = processing s.
Proof.
  intros Hes Hc H127. unfold handleChar. rewrite Hes. cbn [Nat.eqb charAt nth_error charIs].
  assert (E : forall k, (k < 32)%N -> N.eqb c k = false)
    by (intros k Hk; apply N.eqb_neq; lia).
  rewrite (E 27%N), (E 3%N), (E 4%N), (E 8%N) by lia.
  replace (N.eqb c 127) with false by (symmetry; apply N.eqb_neq; exact H127).
  cbn [andb orb JS.eqb]. unfold CR, LF. rewrite (E 13%N), (E 10%N) by lia.
  cbn [andb orb]. replace (c <? 32)%N with false by (symmetry; apply N.ltb_ge; exact Hc).
  unfold andThen, assign.
  pose proof (redrawPrompt_editor (set_inputBuffer (inputBuffer s ++ [c]) s)) as Hr.
  destruct (redrawPrompt columns _) as [s1 t1]. cbn [fst snd app].
  destruct Hr as [H1 [H2 [H3 H4]]]. cbn [fst] in *.
  rewrite H1, H2, H3, H4. destruct s; cbn. cbn in Hes. repeat split; auto.
Qed.

(** Enter after a trailing backslash: the backslash becomes a newline,
    nothing is queued, and the prompt is redrawn. *)
Lemma handleChar_continue ch s body :
  isEnter ch -> escapeSeq s = 0 -> inputBuffer s = body ++ [92%N] ->
  let r := handleChar columns ch s in
  inputBuffer (fst r) = body ++ [LF] /\ escapeSeq (fst r) = 0
  /\ messageQueue (fst r) = messageQueue s /\ processing (fst r) = processing s
  /\ last (snd r) Newline = promptWrite columns (set_inputBuffer (body ++ [LF]) s).
Proof.
  intros Hch Hes Hib.
  assert (Hh : handleChar columns ch s = handleEnter columns s).
  { unfold handleChar. rewrite Hes. destruct Hch; subst; reflexivity. }
  cbv zeta. rewrite Hh. unfold handleEnter.
  assert (Hends : endsWith (inputBuffer s) 92%N = true).
  { unfold endsWith. rewrite Hib, rev_app_distr. reflexivity. }
  rewrite Hends.
  assert (Hslice : sliceZ (inputBuffer s) 0 (Some (-1)%Z) = body).
  { unfold sliceZ, clampIndex. rewrite Hib, length_app. cbn [length].
    replace (0 <? 0)%Z with false by reflexivity.
    replace (-1 <? 0)%Z with true by reflexivity.
    rewrite Z.min_l, Z.max_l by lia. cbn [Z.to_nat skipn].
    replace (Z.to_nat (Z.of_nat (length body + 1) + -1 - 0)) with (length body) by lia.
    rewrite firstn_app, firstn_all, Nat.sub_diag. cbn. apply app_nil_r. }
  rewrite Hslice. unfold andThen, assign.
  pose proof (redrawPrompt_editor (set_inputBuffer (body ++ [LF]) s)) as Hr.
  pose proof (redrawPrompt_last (set_inputBuffer (body ++ [LF]) s)) as Hl.
  destruct (redrawPrompt columns _) as [s1 t1]. cbn [fst snd app] in *.
  destruct Hr as [H1 [H2 [H3 H4]]].
  rewrite H1, H2, H3, H4. destruct s; cbn in *. repeat split; auto.
Qed.

(** Enter on a buffer that does not end with a backslash and is not
    blank: the trimmed buffer is queued as one local message and the
    buffer is cleared. *)
Lemma handleChar_submit ch s :
  isEnter ch -> escapeSeq s = 0 -> endsWith (inputBuffer s) 92%N = false ->
  trim (inputBuffer s) <> [] ->
  let s' := fst (handleChar columns ch s) in
  inputBuffer s' = [] /\ escapeSeq s' = 0
  /\ messageQueue s' = messageQueue s ++ [mkMessage (trim (inputBuffer s)) local].
Proof.
  intros Hch Hes Hends Hline.
  assert (Hh : handleChar columns ch s = handleEnter columns s).
  { unfold handleChar. rewrite Hes. destruct Hch; subst; reflexivity. }
  cbv zeta. rewrite Hh. unfold handleEnter. rewrite Hends.
  destruct (trim (inputBuffer s)) as [|x line] eqn:Ht; [congruence|].
  unfold wakeMainLoop. rewrite !assign_andThen.
  set (s1 := set_wakeResolve false _).
  assert (Hs1 : inputBuffer s1 = [] /\ escapeSeq s1 = 0
                /\ messageQueue s1 = messageQueue s ++ [mkMessage (x :: line) local]).
  { subst s1. destruct s; cbn in *. auto. }
  destruct Hs1 as [I1 [I2 I3]].
  unfold andThen, when, ifThenElse, skip.
  destruct (processing s1).
  - pose proof (writePermanent_editor
                  (queuedNotice columns (length (messageQueue s1)) (x :: line)) s1) as Hw.
    destruct (writePermanent columns _ s1) as [s2 t2].
    pose proof (redrawPrompt_editor s2) as Hr.
    destruct (redrawPrompt columns s2) as [s3 t3]. cbn [fst snd] in *.
    destruct Hw as [W1 [W2 [W3 _]]]. destruct Hr as [R1 [R2 [R3 _]]].
    rewrite R1, R2, R3, W1, W2, W3. auto.
  - pose proof (redrawPrompt_editor s1) as Hr.
    destruct (redrawPrompt columns s1) as [s3 t3]. cbn [fst snd] in *.
    destruct Hr as [R1 [R2 [R3 _]]].
    rewrite R1, R2, R3. auto.
Qed.

Lemma typeAll_cons k keys s :
  fst (typeAll columns (k :: keys) s)
  = fst (typeAll columns keys (fst (handleChar columns k s))).
Proof.
  cbn [typeAll]. unfold andThen. destruct (handleChar columns k s) as [s1 t1].
  cbn [fst]. destruct (typeAll columns keys s1). reflexivity.
Qed.



End Terminal.

(** A run at one width is a run in which every call reads that width. *)
Lemma performEach_fixed columns calls s :
  performEach (map (pair columns) calls) s = performAll columns calls s.
Proof.
  revert s. induction calls as [|c calls IH]; intros s; [reflexivity|].
  cbn [map performEach performAll]. unfold andThen.
  destruct (perform columns c s) as [s1 t1]. rewrite IH. reflexivity.
Qed.

(** C10 (amended). The width is read at each call. Over a run in which no
    call sees a terminal wider than [width], from a state whose streaming
    column is below [width]: the column stays in [0, width) after every
    sequence of coordinator calls and after [updateStreamingCol] on any
    text, and every cursor-right restore written moves by at least 1 and
    less than [width]. With a terminal that keeps its width, [width] is that
    width. *)
Theorem streamingCol_in_range (width : Z) (calls : list (option N * call))
  (s : state) :
  (0 <= streamingCol s < width)%Z ->
  widthsWithin width calls = true ->
  (0 <= streamingCol (fst (performEach calls s)) < width)%Z
  /\ forallb (restoreWithin width) (snd (performEach calls s)) = true
  /\ (forall columns text,
        (terminalCols columns <= width)%Z ->
        (0 <= streamingCol (fst (updateStreamingCol columns text s)) < width)%Z).
Proof.
  intros Hs Hw.
  assert (Hrun : (0 <= streamingCol (fst (performEach calls s)) < width)%Z
                 /\ forallb (restoreWithin width) (snd (performEach calls s)) = true).
  { revert s Hs Hw.
    induction calls as [|[columns c] calls IH]; intros s Hs Hw;
      [split; [exact Hs|reflexivity]|].
    cbn [widthsWithin forallb fst] in Hw. apply andb_prop in Hw.
    destruct Hw as [Hc Hw]. apply Z.leb_le in Hc.
    cbn [performEach]. unfold andThen.
    destruct (perform_bound columns width c s Hc Hs) as [H1 H2].
    destruct (perform columns c s) as [s1 t1]. simpl in H1, H2.
    destruct (IH s1 H1 Hw) as [H3 H4].
    destruct (performEach calls s1) as [s2 t2]. simpl in *.
    split; [exact H3|]. rewrite forallb_app, H2, H4. reflexivity. }
  destruct Hrun as [H1 H2]. split; [exact H1|]. split; [exact H2|].
  intros columns text Hc. unfold updateStreamingCol, assign. simpl.
  destruct s; simpl. apply updateLoop_bound; assumption.
Qed.

Lemma streamingCol_in_range_witness :
  (0 <= streamingCol
          (fst (performEach
                  [(Some 80%N, WriteStreaming (repeat 97%N 70));
                   (Some 40%N, WriteStreaming BOLD);
                   (None, WritePermanent (lit "x"))] started)) < 80)%Z
  /\ forallb (restoreWithin 80)
       (snd (performEach
               [(Some 80%N, WriteStreaming (repeat 97%N 70));
                (Some 40%N, WriteStreaming BOLD);
                (None, WritePermanent (lit "x"))] started)) = true
  /\ (forall columns text,
        (terminalCols columns <= 80)%Z ->
        (0 <= streamingCol (fst (updateStreamingCol columns text started)) < 80)%Z).
Proof.
  apply (streamingCol_in_range 80
           [(Some 80%N, WriteStreaming (repeat 97%N 70));
            (Some 40%N, WriteStreaming BOLD);
            (None, WritePermanent (lit "x"))] started).
  - simpl. lia.
  - reflexivity.
Defined.

(** C10 (counterexample). After seventy letters streamed on 80 columns the
    terminal is resized to 40: the next [writeStreaming] (of a style code,
    which moves nothing) restores the cursor by 70 columns, and the column
    it leaves, 70, is not a column of the terminal. *)
Lemma resize_leaves_column_out_of_range :
  inRange (Some 80%N) seventyStreamed
  /\ streamingCol (fst (writeStreaming (Some 40%N) BOLD seventyStreamed)) = 70%Z
  /\ ~ inRange (Some 40%N) (fst (writeStreaming (Some 40%N) BOLD seventyStreamed))
  /\ In (CursorRight 70) (snd (writeStreaming (Some 40%N) BOLD seventyStreamed))
  /\ forallb (restoreWithin (terminalCols (Some 40%N)))
       (snd (writeStreaming (Some 40%N) BOLD seventyStreamed)) = false.
Proof.
  assert (E : streamingCol (fst (writeStreaming (Some 40%N) BOLD seventyStreamed))
              = 70%Z) by (vm_compute; reflexivity).
  split; [unfold inRange; vm_compute; split; [discriminate|reflexivity]|].
  split; [exact E|].
  split; [unfold inRange; rewrite E; simpl; lia|].
  split; [vm_compute; tauto|vm_compute; reflexivity].
Qed.


(** The whole trace of the five keys on an 80-column terminal. *)
Example five_keys_trace :
  snd (typeAll (Some 80%N) [lit "a"; [92%N]; [CR]; lit "b"; [CR]] started)
  = [ClearLine; CarriageReturn; PromptLine false (lit "a");
     ClearLine; CarriageReturn; PromptLine false (lit "a" ++ [92%N]);
     ClearLine; CarriageReturn; PromptLine true [];
     ClearLine; CarriageReturn; PromptLine true (lit "b");
     ClearLine; CarriageReturn; PromptLine false []].
Proof. vm_compute. reflexivity. Qed.

(** C7 (counterexample). In the Streaming state, with the prompt drawn
    below the streamed text, [writePermanent] goes from the erase straight
    to the text: no newline is written. *)
Lemma streaming_permanent_has_no_newline :
  streamingActive streamingState = true
  /\ snd (writePermanent (Some 80%N) (lit "X") streamingState)
     = [ClearLine; CarriageReturn; Text (lit "X" ++ [LF]); PromptLine false []]
  /\ ~ In Newline (snd (writePermanent (Some 80%N) (lit "X") streamingState)).
Proof.
  split; [reflexivity|]. split; [vm_compute; reflexivity|].
  vm_compute. intros [H|[H|[H|[H|[]]]]]; discriminate.
Qed.

(** The observer does reject traces that break the discipline: a short
    erase, a redraw over a drawn region, text over a drawn region. *)
Example observer_rejects :
  observeAll (settled 2) [ClearLine; CarriageReturn] = None
  /\ observeAll (settled 1) [PromptLine false []] = None
  /\ observeAll (settled 1) [Text (lit "x")] = None
  /\ observeAll (settled 1) [ClearLine; CursorUp; ClearLine; CarriageReturn] = None.
Proof. repeat split. Qed.

(** A run from the first prompt through all four calls. *)
Example four_calls_trace :
  snd (performAll (Some 80%N)
         [StartSpinner; WritePermanent (lit "X"); ClearSpinner;
          WriteStreaming (lit "hi")] started)
  = [ClearLine; CarriageReturn; SpinnerLine 0; PromptLine false [];
     ClearLine; CursorUp; ClearLine; CarriageReturn; Text (lit "X" ++ [LF]);
     SpinnerLine 0; PromptLine false [];
     ClearLine; CursorUp; ClearLine; CarriageReturn; PromptLine false [];
     ClearLine; CarriageReturn; Text (lit "hi"); Newline; PromptLine false []].
Proof. vm_compute. reflexivity. Qed.

End DisplayFacts.

(** * Further properties *)

Module SessionFacts.
Import Display Monitor JSFacts Samples Session DisplayFacts.

Local Arguments eraseLoop : simpl never.

Lemma symmetric_skip : symmetric skip.
Proof. intros s. reflexivity. Qed.

Lemma symmetric_assign f :
  (forall s, dynamicLineCount (f s) = dynamicLineCount s) -> symmetric (assign f).
Proof. intros H s. unfold assign. simpl. rewrite H. reflexivity. Qed.

Lemma symmetric_andThen a b : symmetric a -> symmetric b -> symmetric (a ;; b).
Proof.
  intros Ha Hb s. unfold andThen. specialize (Ha s).
  destruct (a s) as [s1 t1]. specialize (Hb s1).
  destruct (b s1) as [s2 t2]. simpl in *.
  rewrite observeAll_app, Ha. exact Hb.
Qed.

Section Terminal.
Variable columns : option N.

Ltac run_display :=
  cbv [perform startSpinner clearSpinner writeStreaming writePermanent
       redrawPrompt drawSpinnerAndPrompt eraseDynamic eraseLines spinnerTick
       updateStreamingCol stopSpinner promptWrite shutdown turnEnd
       andThen when ifThenElse assign emit skip
       set_dynamicLineCount set_spinnerTimer set_spinnerFrame set_processing
       set_streamingCol set_streamingActive set_promptVisible set_running
       dynamicLineCount spinnerTimer streamingActive promptVisible
       streamingCol spinnerFrame inputBuffer escapeSeq processing
       messageQueue wakeResolve running fst snd].

Lemma symmetric_perform c : symmetric (perform columns c).
Proof. intros s. apply perform_symmetric. Qed.

Lemma symmetric_redrawPrompt : symmetric (redrawPrompt columns).
Proof.
  intros s. destruct s as [ib st dlc sc sa pv sf es pr mq wr rn].
  destruct dlc as [|n]; destruct st, sa;
    run_display; cbn [Nat.ltb Nat.leb andb negb app fst snd];
    rewrite <- ?app_assoc; try rewrite observe_erase; reflexivity.
Qed.

Lemma symmetric_shutdown : symmetric shutdown.
Proof.
  intros s. destruct s as [ib st dlc sc sa pv sf es pr mq wr rn].
  destruct dlc as [|n]; destruct rn;
    run_display; cbn [Nat.ltb Nat.leb andb negb app fst snd];
    rewrite <- ?app_assoc; try rewrite observe_erase; reflexivity.
Qed.

Lemma symmetric_spinnerTick : symmetric (spinnerTick columns).
Proof.
  intros s. destruct s as [ib st dlc sc sa pv sf es pr mq wr rn].
  run_display. cbn [Nat.ltb Nat.leb andb negb app fst snd].
  rewrite <- ?app_assoc. rewrite observe_erase. reflexivity.
Qed.

Lemma symmetric_turnEnd : symmetric (turnEnd columns).
Proof.
  unfold turnEnd. repeat apply symmetric_andThen;
    try (apply symmetric_assign; intros []; reflexivity).
  apply symmetric_redrawPrompt.
Qed.

Lemma symmetric_handleEnter : symmetric (handleEnter columns).
Proof.
  intros s. unfold handleEnter.
  destruct (endsWith (inputBuffer s) 92%N).
  - apply symmetric_andThen; [|apply symmetric_redrawPrompt].
    apply symmetric_assign. intros []; reflexivity.
  - apply symmetric_andThen; [apply symmetric_assign; intros []; reflexivity|].
    destruct (trim (inputBuffer s)); [apply symmetric_redrawPrompt|].
    apply symmetric_andThen; [apply symmetric_assign; intros []; reflexivity|].
    apply symmetric_andThen;
      [unfold wakeMainLoop; apply symmetric_assign; intros []; reflexivity|].
    apply symmetric_andThen; [|apply symmetric_redrawPrompt].
    intros s1. unfold when, ifThenElse. destruct (processing s1).
    + apply (symmetric_perform (WritePermanent _)).
    + apply symmetric_skip.
Qed.

Lemma symmetric_handleChar ch : symmetric (handleChar columns ch).
Proof.
  intros s. unfold handleChar.
  repeat match goal with
         | |- context [if ?c then _ else _] =>
             lazymatch c with
             | context [if _ then _ else _] => fail
             | _ => destruct c
             end
         end;
    try (apply symmetric_assign; intros []; reflexivity);
    try apply symmetric_shutdown; try apply symmetric_handleEnter;
    try apply symmetric_skip;
    (apply symmetric_andThen;
     [apply symmetric_assign; intros []; reflexivity|apply symmetric_redrawPrompt]).
Qed.

Lemma symmetric_react e : symmetric (react columns e).
Proof.
  destruct e; simpl.
  - apply symmetric_perform.
  - apply symmetric_handleChar.
  - apply symmetric_spinnerTick.
  - apply symmetric_assign. intros []; reflexivity.
  - apply symmetric_turnEnd.
  - apply symmetric_shutdown.
Qed.

(** X1. Keystrokes, spinner ticks, the main loop's turn boundaries and
    signals keep the erase discipline too. *)
Theorem session_erase_symmetry (events : list event) (s : state) :
  observeAll (settled (dynamicLineCount s)) (snd (reactAll columns events s))
  = Some (settled (dynamicLineCount (fst (reactAll columns events s)))).
Proof.
  revert s. change (symmetric (reactAll columns events)).
  induction events as [|e events IH]; intros s; [reflexivity|].
  cbn [reactAll]. destruct (running s); [|reflexivity].
  apply symmetric_andThen; [apply symmetric_react|exact IH].
Qed.

(** *** The line count *)

Lemma establishes_keeps a : establishes a -> keeps a.
Proof. intros H s _. apply H. Qed.

Lemma establishes_after a b : establishes b -> establishes (a ;; b).
Proof.
  intros Hb s. unfold andThen. destruct (a s) as [s1 t1]. specialize (Hb s1).
  destruct (b s1) as [s2 t2]. exact Hb.
Qed.

Lemma establishes_redrawPrompt : establishes (redrawPrompt columns).
Proof.
  intros s. destruct s as [ib st dlc sc sa pv sf es pr mq wr rn].
  destruct dlc as [|n]; destruct st, sa, rn; reflexivity.
Qed.

Lemma establishes_perform c : establishes (perform columns c).
Proof.
  intros s. destruct s as [ib st dlc sc sa pv sf es pr mq wr rn].
  destruct c; destruct dlc as [|n]; destruct st, sa, pv, rn;
    unfold regionCounted; run_display;
    cbn [Nat.ltb Nat.leb andb negb app fst snd];
    try destruct (0 <? sc)%Z; reflexivity.
Qed.

Lemma establishes_spinnerTick : establishes (spinnerTick columns).
Proof.
  intros s. destruct s as [ib st dlc sc sa pv sf es pr mq wr rn].
  destruct st, sa, rn; reflexivity.
Qed.

Lemma keeps_shutdown : keeps shutdown.
Proof.
  intros s. destruct s as [ib st dlc sc sa pv sf es pr mq wr rn].
  destruct rn; [|auto]. intros _.
  destruct dlc as [|n]; destruct st, sa; reflexivity.
Qed.

Lemma keeps_assign f :
  (forall s, regionCounted (f s) = regionCounted s) -> keeps (assign f).
Proof. intros H s Hs. unfold assign. simpl. rewrite H. exact Hs. Qed.

Lemma keeps_handleEnter : keeps (handleEnter columns).
Proof.
  apply establishes_keeps. intros s. unfold handleEnter.
  destruct (endsWith (inputBuffer s) 92%N).
  - apply establishes_after, establishes_redrawPrompt.
  - apply establishes_after. destruct (trim (inputBuffer s)).
    + apply establishes_redrawPrompt.
    + repeat apply establishes_after. apply establishes_redrawPrompt.
Qed.

Lemma keeps_handleChar ch : keeps (handleChar columns ch).
Proof.
  intros s. unfold handleChar.
  repeat match goal with
         | |- context [if ?c then _ else _] =>
             lazymatch c with
             | context [if _ then _ else _] => fail
             | _ => destruct c
             end
         end;
    try (apply keeps_assign; intros []; reflexivity);
    try apply keeps_shutdown; try apply keeps_handleEnter;
    try (intros H; exact H);
    (intros _; apply establishes_after, establishes_redrawPrompt).
Qed.

Lemma keeps_react e : keeps (react columns e).
Proof.
  destruct e; simpl.
  - apply establishes_keeps, establishes_perform.
  - apply keeps_handleChar.
  - apply establishes_keeps, establishes_spinnerTick.
  - apply keeps_assign. intros []; reflexivity.
  - apply establishes_keeps. unfold turnEnd.
    repeat apply establishes_after. apply establishes_redrawPrompt.
  - apply keeps_shutdown.
Qed.

Lemma keeps_reactAll (events : list event) : keeps (reactAll columns events).
Proof.
  induction events as [|e events IH]; intros s Hs; [exact Hs|].
  cbn [reactAll]. destruct (running s); [|exact Hs].
  unfold andThen. pose proof (keeps_react e s Hs) as H1.
  destruct (react columns e s) as [s1 t1]. specialize (IH s1 H1).
  destruct (reactAll columns events s1) as [s2 t2]. exact IH.
Qed.

(** X2. [dynamicLineCount] is 0, 1 or 2 throughout a session, 2 whenever the
    spinner runs, and positive whenever text is streaming: the prompt is
    always below streamed text. *)
Theorem session_region_counted (events : list event) (s : state) :
  regionCounted s = true -> regionCounted (fst (reactAll columns events s)) = true.
Proof. apply keeps_reactAll. Qed.

Lemma writePermanent_writes text s :
  snd (writePermanent columns text s)
  = eraseWrites (dynamicLineCount s)
    ++ (if streamingActive s && negb (0 <? dynamicLineCount s)
        then [Newline] else [])
    ++ [Text (text ++ [LF])]
    ++ (if spinnerTimer s
        then [SpinnerLine (spinnerFrame s); promptWrite columns s]
        else if promptVisible s then [promptWrite columns s] else []).
Proof.
  destruct s as [ib st dlc sc sa pv sf es pr mq wr rn].
  unfold eraseWrites.
  destruct dlc as [|n]; destruct st, sa, pv;
    run_display; cbn [Nat.ltb Nat.leb andb negb app fst snd];
    rewrite <- ?app_assoc; reflexivity.
Qed.

(** X3. Hence the separating newline of [writePermanent] is never written in
    a session: permanent text always goes on the erased prompt line. *)
Theorem session_permanent_without_newline (events : list event) (text : jsstring) :
  let s := fst (reactAll columns events initial) in
  running s = true ->
  snd (writePermanent columns text s)
  = eraseWrites (dynamicLineCount s) ++ [Text (text ++ [LF])]
    ++ (if spinnerTimer s
        then [SpinnerLine (spinnerFrame s); promptWrite columns s]
        else if promptVisible s then [promptWrite columns s] else []).
Proof.
  intros s Hrun.
  assert (Hs : regionCounted s = true) by (apply keeps_reactAll; reflexivity).
  rewrite writePermanent_writes. f_equal. unfold regionCounted in Hs. rewrite Hrun in Hs.
  destruct (streamingActive s); [|reflexivity].
  destruct (0 <? dynamicLineCount s); [reflexivity|].
  rewrite !andb_false_r in Hs. discriminate.
Qed.

End Terminal.
End SessionFacts.

Module EditorFacts.
Import Display Monitor JSFacts Samples Session DisplayFacts.

Section Terminal.
Variable columns : option N.

(** *** Keys that leave no trace *)

Lemma set_escapeSeq_same_3 s :
  escapeSeq s = 0 -> set_escapeSeq 0 (set_escapeSeq 2 (set_escapeSeq 1 s)) = s.
Proof. destruct s; simpl; intros ->; reflexivity. Qed.

Lemma set_escapeSeq_same_2 s :
  escapeSeq s = 0 -> set_escapeSeq 0 (set_escapeSeq 1 s) = s.
Proof. destruct s; simpl; intros ->; reflexivity. Qed.

Lemma eqb_true a : forall b, JS.eqb a b = true <-> a = b.
Proof.
  induction a as [|x a IH]; intros [|y b]; simpl; split; intros H;
    try reflexivity; try discriminate.
  - apply andb_prop in H. destruct H as [H1 H2].
    apply N.eqb_eq in H1. apply IH in H2. congruence.
  - inversion H; subst. rewrite N.eqb_refl. apply IH. reflexivity.
Qed.

Lemma eqb_false a b : a <> b -> JS.eqb a b = false.
Proof.
  intros H. destruct (JS.eqb a b) eqn:E; [|reflexivity].
  apply eqb_true in E. contradiction.
Qed.

Lemma handleChar_escape s :
  escapeSeq s = 0 -> handleChar columns [ESC] s = (set_escapeSeq 1 s, []).
Proof. intros H. unfold handleChar. rewrite H. reflexivity. Qed.

Lemma handleChar_after_escape ch s :
  escapeSeq s = 1 ->
  handleChar columns ch s
  = (set_escapeSeq (if JS.eqb ch [91%N] then 2 else 0) s, []).
Proof. intros H. unfold handleChar. rewrite H. reflexivity. Qed.

Lemma handleChar_after_bracket ch s :
  escapeSeq s = 2 -> handleChar columns ch s = (set_escapeSeq 0 s, []).
Proof. intros H. unfold handleChar. rewrite H. reflexivity. Qed.

(** X4. A three-key escape sequence (ESC, bracket, any final key, as sent by
    the arrow keys) and a two-key one (ESC, any key but the bracket) are
    swallowed: the state is unchanged and nothing is written. *)
Theorem escape_sequences_swallowed (s : state) (ch : jsstring) :
  escapeSeq s = 0 ->
  typeAll columns [[ESC]; [91%N]; ch] s = (s, [])
  /\ (ch <> [91%N] -> typeAll columns [[ESC]; ch] s = (s, [])).
Proof.
  intros Hes. split.
  - cbn [typeAll]. unfold andThen, skip.
    rewrite (handleChar_escape s Hes).
    rewrite (handleChar_after_escape [91%N] (set_escapeSeq 1 s)) by reflexivity.
    cbn [JS.eqb N.eqb Pos.eqb andb].
    rewrite handleChar_after_bracket by reflexivity.
    cbn [app]. rewrite set_escapeSeq_same_3 by exact Hes. reflexivity.
  - intros Hne. cbn [typeAll]. unfold andThen, skip.
    rewrite (handleChar_escape s Hes).
    rewrite (handleChar_after_escape ch (set_escapeSeq 1 s)) by reflexivity.
    rewrite (eqb_false ch [91%N] Hne).
    cbn [app]. rewrite set_escapeSeq_same_2 by exact Hes. reflexivity.
Qed.

(** *** Editing keys *)

Lemma sliceZ_drop_last (b : jsstring) (c : char) :
  sliceZ (b ++ [c]) 0 (Some (-1)%Z) = b.
Proof.
  unfold sliceZ, clampIndex. rewrite length_app. cbn [length].
  replace (0 <? 0)%Z with false by reflexivity.
  replace (-1 <? 0)%Z with true by reflexivity.
  rewrite Z.min_l, Z.max_l by lia. cbn [Z.to_nat skipn].
  replace (Z.to_nat (Z.of_nat (length b + 1) + -1 - 0)) with (length b) by lia.
  rewrite firstn_app, firstn_all, Nat.sub_diag. cbn. apply app_nil_r.
Qed.

Lemma handleChar_delete (del : char) (s : state) :
  escapeSeq s = 0 -> del = 127%N \/ del = 8%N ->
  handleChar columns [del] s
  = if 0 <? length (inputBuffer s)
    then (assign (set_inputBuffer (sliceZ (inputBuffer s) 0 (Some (-1)%Z))) ;;
          redrawPrompt columns) s
    else (s, []).
Proof.
  intros Hes Hdel. unfold handleChar. rewrite Hes.
  destruct Hdel; subst; reflexivity.
Qed.

(** A key whose first code unit is printable is appended whole, be it one
    code unit or a surrogate pair. *)
Lemma handleChar_appends (c : char) (rest : jsstring) (s : state) :
  escapeSeq s = 0 -> printable c = true ->
  let s' := fst (handleChar columns (c :: rest) s) in
  inputBuffer s' = inputBuffer s ++ c :: rest /\ escapeSeq s' = 0
  /\ messageQueue s' = messageQueue s.
Proof.
  intros Hes Hp. unfold printable in Hp. apply andb_prop in Hp.
  destruct Hp as [Hc H127]. apply N.leb_le in Hc. apply negb_true_iff in H127.
  unfold handleChar. rewrite Hes. cbn [Nat.eqb charAt nth_error charIs].
  assert (E : forall k, (k < 32)%N -> N.eqb c k = false)
    by (intros k Hk; apply N.eqb_neq; lia).
  rewrite (E 27%N), (E 3%N), (E 4%N), (E 8%N) by lia. rewrite H127.
  cbn [andb orb JS.eqb]. unfold CR, LF. rewrite (E 13%N), (E 10%N) by lia.
  cbn [andb orb]. replace (c <? 32)%N with false by (symmetry; apply N.ltb_ge; exact Hc).
  unfold andThen, assign.
  pose proof (redrawPrompt_editor columns
                (set_inputBuffer (inputBuffer s ++ c :: rest) s)) as Hr.
  destruct (redrawPrompt columns _) as [s1 t1]. cbn [fst snd app].
  destruct Hr as [H1 [H2 [H3 H4]]]. cbn [fst] in *.
  rewrite H1, H2, H3. destruct s; cbn. cbn in Hes. repeat split; auto.
Qed.

(** X5. Backspace (or delete) removes the last code unit of the buffer.
    After a printable key [c :: rest] it leaves the buffer as it was before
    the key followed by the key without its last code unit: a key of one
    code unit is undone, and of a key of two (a character outside the basic
    plane, handed over whole by the [for ... of] of line 1635) the first
    surrogate stays. Queue and escape state are as before the two keys; on
    an empty buffer backspace changes nothing and writes nothing. *)
Theorem backspace_removes_last_unit (s : state) (c : char) (rest : jsstring)
  (del : char) :
  escapeSeq s = 0 -> printable c = true -> del = 127%N \/ del = 8%N ->
  let s' := fst (typeAll columns [c :: rest; [del]] s) in
  inputBuffer s' = inputBuffer s ++ removelast (c :: rest)
  /\ (rest = [] -> inputBuffer s' = inputBuffer s)
  /\ messageQueue s' = messageQueue s
  /\ escapeSeq s' = 0
  /\ (inputBuffer s = [] -> handleChar columns [del] s = (s, [])).
Proof.
  intros Hes Hc Hdel. cbv zeta.
  rewrite !typeAll_cons. cbn [typeAll skip fst].
  pose proof (handleChar_appends c rest s Hes Hc) as Ha.
  cbv zeta in Ha. destruct Ha as [A1 [A2 A3]].
  unfold jsstring, char in *.
  match type of A2 with
  | escapeSeq ?t = 0 => remember t as s1 eqn:E1 in *
  end.
  pose proof (handleChar_delete del s1 A2 Hdel) as Hd.
  unfold jsstring, char in Hd. rewrite Hd. clear Hd.
  rewrite A1, length_app. cbn [length].
  match goal with
  | |- context [0 <? ?n] => destruct (Nat.ltb_spec 0 n); [|lia]
  end.
  assert (Hkey : inputBuffer s ++ c :: rest
                 = (inputBuffer s ++ removelast (c :: rest)) ++ [last (c :: rest) c]).
  { rewrite <- app_assoc. f_equal. apply app_removelast_last. discriminate. }
  pose proof (sliceZ_drop_last (inputBuffer s ++ removelast (c :: rest))
                (last (c :: rest) c)) as Hdrop.
  unfold jsstring, char in Hdrop, Hkey. rewrite <- Hkey in Hdrop.
  rewrite Hdrop, assign_andThen.
  pose proof (redrawPrompt_editor columns
                (set_inputBuffer (inputBuffer s ++ removelast (c :: rest)) s1))
    as Hr.
  unfold sameEditor in Hr. unfold jsstring, char in Hr.
  destruct Hr as [R1 [R2 [R3 _]]].
  rewrite R1, R2, R3. repeat split.
  - intros ->. cbn [removelast]. apply app_nil_r.
  - destruct s1; exact A3.
  - destruct s1; exact A2.
  - intros Hemp. pose proof (handleChar_delete del s Hes Hdel) as Hd.
    unfold jsstring, char in Hd. rewrite Hd, Hemp. reflexivity.
Qed.

(** X6. A control character other than Ctrl+C, backspace, Enter and ESC, and
    Ctrl+D when the buffer is not empty, is ignored: the state is unchanged
    and nothing is written. *)
Theorem control_keys_ignored (s : state) (c : char) :
  escapeSeq s = 0 ->
  ignoredControl c = true \/ (c = 4%N /\ inputBuffer s <> []) ->
  handleChar columns [c] s = (s, []).
Proof.
  intros Hes Hc. unfold handleChar. rewrite Hes.
  cbn [Nat.eqb charAt nth_error charIs JS.eqb]. unfold CR, LF.
  destruct Hc as [Hc|[-> Hne]].
  - unfold ignoredControl in Hc. apply andb_prop in Hc. destruct Hc as [Hlt Hc].
    apply negb_true_iff in Hc.
    repeat (apply orb_false_elim in Hc; destruct Hc as [Hc ?]).
    assert (H127 : N.eqb c 127 = false)
      by (apply N.eqb_neq; apply N.ltb_lt in Hlt; lia).
    repeat match goal with E : N.eqb c _ = false |- _ => rewrite E; clear E end.
    cbn [andb orb]. rewrite Hlt. reflexivity.
  - destruct (inputBuffer s) as [|x b]; [contradiction|]. reflexivity.
Qed.

Lemma trimStart_snoc (a : jsstring) (x : char) :
  isWhiteSpace x = false -> trimStart (a ++ [x]) = trimStart a ++ [x].
Proof.
  intros Hx. induction a as [|y a IH]; simpl.
  - rewrite Hx. reflexivity.
  - destruct (isWhiteSpace y); [exact IH|reflexivity].
Qed.

Lemma trim_blank_no_backslash (b : jsstring) :
  trim b = [] -> endsWith b 92%N = false.
Proof.
  unfold trim, endsWith. intros Ht.
  destruct (rev b) as [|x r] eqn:Hr; [reflexivity|].
  destruct (N.eqb_spec x 92) as [->|]; [|reflexivity]. exfalso.
  assert (Hb : b = rev r ++ [92%N]).
  { rewrite <- (rev_involutive b), Hr. reflexivity. }
  rewrite Hb, trimStart_snoc, rev_app_distr in Ht by reflexivity.
  cbn in Ht. symmetry in Ht. apply app_cons_not_nil in Ht. exact Ht.
Qed.

(** X7. Enter on a blank buffer (empty or white space only) queues nothing:
    the buffer is cleared and the empty prompt is redrawn. *)
Theorem blank_enter_queues_nothing (s : state) (ch : jsstring) :
  isEnter ch -> escapeSeq s = 0 -> trim (inputBuffer s) = [] ->
  let r := handleChar columns ch s in
  messageQueue (fst r) = messageQueue s /\ inputBuffer (fst r) = []
  /\ last (snd r) Newline = PromptLine false [].
Proof.
  intros Hch Hes Hblank. cbv zeta.
  assert (Hh : handleChar columns ch s = handleEnter columns s).
  { unfold handleChar. rewrite Hes. destruct Hch; subst; reflexivity. }
  rewrite Hh. unfold handleEnter.
  rewrite (trim_blank_no_backslash _ Hblank), Hblank, assign_andThen.
  destruct (redrawPrompt_editor columns (set_inputBuffer [] s)) as [R1 [R2 [R3 _]]].
  rewrite R1, R3, redrawPrompt_last.
  split; [destruct s; reflexivity|]. split; [destruct s; reflexivity|].
  unfold promptWrite, getVisibleInput. destruct s; cbn.
  destruct (terminalCols columns - 5 <? 0)%Z; [|reflexivity].
  unfold sliceZ. rewrite skipn_nil, firstn_nil. reflexivity.
Qed.

(** *** Shutdown *)

(** X8. Ctrl+C, and Ctrl+D on an empty buffer, shut down: the spinner is
    stopped, the dynamic region is erased and marked empty, the farewell line
    is written, and [running] is cleared; a second [shutdown] does nothing. *)
Theorem interrupt_shuts_down_once (s : state) (c : char) :
  escapeSeq s = 0 -> running s = true ->
  c = 3%N \/ (c = 4%N /\ inputBuffer s = []) ->
  let r := handleChar columns [c] s in
  running (fst r) = false /\ spinnerTimer (fst r) = false
  /\ dynamicLineCount (fst r) = 0 /\ promptVisible (fst r) = false
  /\ snd r = eraseWrites (dynamicLineCount s) ++ [Text farewell]
  /\ shutdown (fst r) = (fst r, []).
Proof.
  intros Hes Hrun Hc. cbv zeta.
  assert (Hh : handleChar columns [c] s = shutdown s).
  { unfold handleChar. rewrite Hes. destruct Hc as [->|[-> Hb]]; [reflexivity|].
    rewrite Hb. reflexivity. }
  rewrite Hh. clear Hh Hc Hes.
  destruct s as [ib st dlc sc sa pv sf es pr mq wr rn].
  cbn in Hrun. subst rn. unfold eraseWrites.
  destruct dlc as [|n];
    cbv [shutdown stopSpinner eraseDynamic eraseLines
         andThen when ifThenElse assign emit skip
         set_dynamicLineCount set_spinnerTimer set_promptVisible set_running
         dynamicLineCount spinnerTimer streamingActive promptVisible
         streamingCol spinnerFrame inputBuffer escapeSeq processing
         messageQueue wakeResolve running fst snd];
    cbn [Nat.ltb Nat.leb andb negb app fst snd];
    repeat split; rewrite <- ?app_assoc; reflexivity.
Qed.

(** *** The prompt line *)

Lemma lastIndexOf_from_spec c s : forall base acc,
  (~ In c s /\ lastIndexOf_from c s base acc = acc)
  \/ (exists k, lastIndexOf_from c s base acc = Some (base + k)
                /\ k < length s /\ ~ In c (skipn (S k) s)).
Proof.
  induction s as [|x s IH]; intros base acc; simpl.
  - left. split; [tauto|reflexivity].
  - destruct (IH (S base) (if N.eqb x c then Some base else acc))
      as [[Hno Hr]|[k [Hr [Hk Hno]]]].
    + destruct (N.eqb_spec x c) as [->|Hne].
      * right. exists 0. rewrite Hr, Nat.add_0_r. repeat split; [lia|exact Hno].
      * left. split; [|exact Hr]. intros [H|H]; [congruence|tauto].
    + right. exists (S k). rewrite Hr. repeat split; [f_equal; lia|lia|exact Hno].
Qed.

Lemma skipn_suffix (l : jsstring) n : exists pre, l = pre ++ skipn n l.
Proof. exists (firstn n l). symmetry. apply firstn_skipn. Qed.

Lemma skipn_In (l : jsstring) n x : In x (skipn n l) -> In x l.
Proof. intros H. rewrite <- (firstn_skipn n l). apply in_or_app. right. exact H. Qed.

(** X9. The visible part of the input is a suffix of the buffer with no
    newline in it, and at most [cols - 5] code units long, so that the prompt
    stays on one terminal line. *)
Theorem visible_input_fits (s : state) :
  (Z.of_nat (length (getVisibleInput columns s))
   <= Z.max 0 (terminalCols columns - 5))%Z
  /\ ~ In LF (getVisibleInput columns s)
  /\ exists hidden, inputBuffer s = hidden ++ getVisibleInput columns s.
Proof.
  unfold getVisibleInput.
  set (line := match lastIndexOf LF (inputBuffer s) with
               | Some lastNl => sliceFrom (inputBuffer s) (lastNl + 1)
               | None => inputBuffer s
               end).
  assert (Hline : ~ In LF line /\ exists pre, inputBuffer s = pre ++ line).
  { subst line. unfold lastIndexOf.
    destruct (lastIndexOf_from_spec LF (inputBuffer s) 0 None)
      as [[Hno Hr]|[k [Hr [Hk Hno]]]]; rewrite Hr.
    - split; [exact Hno|]. exists []. reflexivity.
    - cbn [Nat.add]. unfold sliceFrom. replace (k + 1) with (S k) by lia.
      split; [exact Hno|]. apply skipn_suffix. }
  destruct Hline as [Hno [pre Hpre]].
  destruct (Z.ltb_spec (terminalCols columns - 5) (Z.of_nat (length line))) as [Hlong|Hfit].
  - unfold sliceZ, clampIndex.
    set (len := Z.of_nat (length line)) in *.
    destruct (Z.ltb_spec (len - (terminalCols columns - 5)) 0) as [?|_]; [lia|].
    set (from := Z.to_nat (Z.min (len - (terminalCols columns - 5)) len)).
    rewrite firstn_all2 by (rewrite length_skipn; lia).
    repeat split.
    + rewrite length_skipn. subst from len. lia.
    + intros H. apply Hno. exact (skipn_In _ _ _ H).
    + destruct (skipn_suffix line from) as [mid Hmid].
      exists (pre ++ mid). rewrite <- app_assoc, <- Hmid. exact Hpre.
  - repeat split; [lia|exact Hno|]. exists pre. exact Hpre.
Qed.

(** *** Erasing *)

Lemma eraseLoop_shape : forall k i count,
  i + S k = count ->
  eraseLoop (S k) i count = ClearLine :: concat (repeat [CursorUp; ClearLine] k).
Proof.
  assert (Hstep : forall k i count,
             eraseLoop (S k) i count
             = ClearLine :: (if i <? count - 1 then [CursorUp] else [])
                            ++ eraseLoop k (S i) count) by reflexivity.
  induction k as [|k IH]; intros i count Hc; rewrite Hstep.
  - destruct (Nat.ltb_spec i (count - 1)); [lia|]. reflexivity.
  - destruct (Nat.ltb_spec i (count - 1)); [|lia].
    rewrite (IH (S i) count) by lia. reflexivity.
Qed.

(** X10. [eraseLines(n)] for [n >= 1] clears the current line, then [n - 1]
    times moves up and clears, and returns the carriage: [n] lines cleared,
    the cursor at the start of the topmost one. [eraseLines(0)] only returns
    the carriage. *)
Theorem eraseLines_writes (n : nat) (s : state) :
  eraseLines (S n) s
  = (s, ClearLine :: concat (repeat [CursorUp; ClearLine] n) ++ [CarriageReturn])
  /\ eraseLines 0 s = (s, [CarriageReturn]).
Proof.
  unfold eraseLines. rewrite (eraseLoop_shape n 0 (S n)) by lia.
  split; reflexivity.
Qed.

(** *** The spinner *)

(** X11. Idle, Thinking, Idle: from the idle prompt (spinner off, nothing
    streaming, the prompt shown on its one line), [startSpinner] then
    [clearSpinner] erase one line, draw spinner and prompt, erase two lines
    and draw the same prompt again; only the frame counter and the streaming
    column are reset. *)
Theorem spinner_round_trip (s : state) :
  spinnerTimer s = false -> streamingActive s = false ->
  dynamicLineCount s = 1 -> promptVisible s = true ->
  (startSpinner columns ;; clearSpinner columns) s
  = (set_spinnerFrame 0 (set_streamingCol 0 s),
     [ClearLine; CarriageReturn; SpinnerLine 0; promptWrite columns s;
      ClearLine; CursorUp; ClearLine; CarriageReturn; promptWrite columns s]).
Proof.
  destruct s as [ib st dlc sc sa pv sf es pr mq wr rn]. cbn.
  intros -> -> -> ->. reflexivity.
Qed.

End Terminal.
End EditorFacts.

Module ColumnFacts.
Import Display Monitor JSFacts Samples Session DisplayFacts WrapFacts.

Section Terminal.
Variable columns : option N.

(** *** updateStreamingCol *)

Lemma skipParams_base rest : forall a b,
  Wrap.skipParams rest (a + b) = a + Wrap.skipParams rest b.
Proof.
  induction rest as [|c rest IH]; intros a b; simpl; [reflexivity|].
  destruct ((32 <=? c) && (c <=? 63))%N; [|reflexivity].
  replace (S (a + b)) with (a + S b) by lia. apply IH.
Qed.

Lemma skipParams_run params : forall final rest base,
  forallb isParam params = true -> isParam final = false ->
  Wrap.skipParams (params ++ final :: rest) base = base + length params.
Proof.
  induction params as [|p params IH]; intros final rest base Hp Hf; simpl.
  - unfold isParam in Hf. rewrite Hf. lia.
  - simpl in Hp. apply andb_prop in Hp. destruct Hp as [Hp1 Hp2].
    unfold isParam in Hp1. rewrite Hp1. rewrite IH by assumption. lia.
Qed.

Lemma charAt_shift (pre text : jsstring) i :
  charAt (pre ++ text) (length pre + i) = charAt text i.
Proof.
  unfold charAt. rewrite nth_error_app2 by lia. f_equal. lia.
Qed.

Lemma sliceFrom_shift (pre text : jsstring) i :
  sliceFrom (pre ++ text) (length pre + i) = sliceFrom text i.
Proof.
  unfold sliceFrom. rewrite skipn_app.
  rewrite skipn_all2 by lia. cbn [app]. f_equal. lia.
Qed.

Lemma skipEscape_shift (pre text : jsstring) i :
  skipEscape (pre ++ text) (length pre + i) = length pre + skipEscape text i.
Proof.
  unfold skipEscape. rewrite length_app.
  replace (length pre + i + 1) with (length pre + (i + 1)) by lia.
  rewrite charAt_shift.
  replace (length pre + (i + 1) <? length pre + length text) with (i + 1 <? length text)
    by (destruct (Nat.ltb_spec (i + 1) (length text));
        destruct (Nat.ltb_spec (length pre + (i + 1)) (length pre + length text));
        try reflexivity; lia).
  destruct ((i + 1 <? length text) && charIs (charAt text (i + 1)) 91%N); [|reflexivity].
  replace (length pre + (i + 1) + 1) with (length pre + (i + 1 + 1)) by lia.
  rewrite sliceFrom_shift, skipParams_base.
  set (j := Wrap.skipParams (sliceFrom text (i + 1 + 1)) (i + 1 + 1)).
  destruct (Nat.ltb_spec j (length text));
    destruct (Nat.ltb_spec (length pre + j) (length pre + length text)); lia.
Qed.

Lemma updateLoop_shift (pre text : jsstring) : forall fuel i col,
  updateLoop columns fuel (pre ++ text) (length pre + i) col
  = updateLoop columns fuel text i col.
Proof.
  induction fuel as [|fuel IH]; intros i col; simpl; rewrite length_app;
    replace (length pre + length text <=? length pre + i) with (length text <=? i)
      by (destruct (Nat.leb_spec (length text) i);
          destruct (Nat.leb_spec (length pre + length text) (length pre + i));
          try reflexivity; lia);
    destruct (length text <=? i); try reflexivity.
  rewrite charAt_shift. destruct (charAt text i) as [ch|]; [|reflexivity].
  rewrite skipEscape_shift.
  replace (length pre + i + 1) with (length pre + (i + 1)) by lia.
  rewrite !IH. reflexivity.
Qed.

Lemma updateLoop_end text fuel col : updateLoop columns fuel text (length text) col = col.
Proof. destruct fuel; simpl; rewrite Nat.leb_refl; reflexivity. Qed.

(** One iteration on a code unit that is not ESC. *)
Lemma updateLoop_step text fuel i col ch :
  charAt text i = Some ch -> N.eqb ch ESC = false ->
  updateLoop columns (S fuel) text i col
  = updateLoop columns fuel text (i + 1)
      (if N.eqb ch LF || N.eqb ch CR then 0%Z
       else if (terminalCols columns <=? col + 1)%Z then 0%Z else (col + 1)%Z).
Proof.
  intros Hc Hesc. simpl.
  destruct (Nat.leb_spec (length text) i) as [Hi|_].
  - apply charAt_some_lt in Hc. lia.
  - rewrite Hc, Hesc. destruct (N.eqb ch LF); [reflexivity|].
    destruct (N.eqb ch CR); reflexivity.
Qed.

Lemma updateLoop_app (a b : jsstring) :
  forallb (fun c => negb (N.eqb c ESC)) a = true ->
  forall fuel i col,
    length (a ++ b) - i <= fuel -> i <= length a ->
    updateLoop columns fuel (a ++ b) i col
    = updateLoop columns (length b) b 0
        (updateLoop columns (length a - i) a i col).
Proof.
  intros Ha. induction fuel as [|fuel IH]; intros i col Hf Hi;
    rewrite length_app in Hf.
  - assert (i = length a) by lia. assert (length b = 0) by lia. subst i.
    rewrite updateLoop_end. destruct b; [|discriminate].
    rewrite app_nil_r, updateLoop_end. reflexivity.
  - destruct (Nat.eq_dec i (length a)) as [->|Hne].
    + rewrite updateLoop_end.
      pose proof (updateLoop_shift a b (S fuel) 0 col) as Hsh.
      rewrite Nat.add_0_r in Hsh. rewrite Hsh.
      apply updateLoop_fuel; lia.
    + assert (Hlt : i < length a) by lia.
      destruct (charAt_lt a i Hlt) as [ch Hc].
      assert (Hesc : N.eqb ch ESC = false).
      { rewrite forallb_forall in Ha. apply negb_true_iff, Ha.
        unfold charAt in Hc. eapply nth_error_In. exact Hc. }
      assert (Hc' : charAt (a ++ b) i = Some ch).
      { unfold charAt in *. rewrite nth_error_app1 by lia. exact Hc. }
      rewrite (updateLoop_step _ fuel i col ch Hc' Hesc).
      replace (length a - i) with (S (length a - (i + 1))) by lia.
      rewrite (updateLoop_step _ _ i col ch Hc Hesc).
      apply IH; rewrite ?length_app; lia.
Qed.

(** X12. Streaming a text in two writes leaves the same column as streaming it
    in one, provided the first part holds no ESC (so no control sequence is
    cut). *)
Theorem streaming_column_composes (a b : jsstring) (s : state) :
  forallb (fun c => negb (N.eqb c ESC)) a = true ->
  fst (updateStreamingCol columns (a ++ b) s)
  = fst ((updateStreamingCol columns a ;; updateStreamingCol columns b) s).
Proof.
  intros Ha. unfold updateStreamingCol, andThen, assign. cbn [fst].
  rewrite (updateLoop_app a b Ha) by lia.
  rewrite Nat.sub_0_r. destruct s; reflexivity.
Qed.

(** X13. A control sequence (ESC, bracket, parameter bytes, final byte) does
    not move the streaming column. *)
Theorem control_sequence_keeps_streaming_column
  (params : jsstring) (final : char) (rest : jsstring) (s : state) :
  forallb isParam params = true -> isParam final = false ->
  fst (updateStreamingCol columns (controlSequence params final ++ rest) s)
  = fst (updateStreamingCol columns rest s).
Proof.
  intros Hp Hf. unfold updateStreamingCol, assign. cbn [fst]. f_equal.
  set (pre := controlSequence params final).
  assert (Hlen : length pre = 2 + length params + 1).
  { subst pre. unfold controlSequence. cbn [length]. rewrite length_app. cbn. lia. }
  assert (Hskip : skipEscape (pre ++ rest) 0 = length pre).
  { subst pre. unfold controlSequence, skipEscape.
    cbn [app length Nat.add charAt nth_error charIs sliceFrom skipn].
    rewrite length_app.
    replace (1 <? S (S (length (params ++ [final]) + length rest))) with true
      by (symmetry; apply Nat.ltb_lt; lia).
    cbn [andb N.eqb Pos.eqb]. rewrite <- app_assoc. cbn [app].
    rewrite skipParams_run by assumption.
    rewrite length_app. cbn [length].
    match goal with
    | |- context [?x <? ?y] => destruct (Nat.ltb_spec x y); lia
    end. }
  rewrite length_app.
  replace (length pre + length rest) with (S (length pre + length rest - 1)) by lia.
  cbn [updateLoop]. rewrite length_app.
  destruct (Nat.leb_spec (length pre + length rest) 0) as [?|_]; [lia|].
  replace (charAt (pre ++ rest) 0) with (Some ESC) by reflexivity.
  rewrite N.eqb_refl, Hskip.
  pose proof (updateLoop_shift pre rest (length pre + length rest - 1) 0
                (streamingCol s)) as Hsh.
  rewrite Nat.add_0_r in Hsh. rewrite Hsh.
  apply updateLoop_fuel; lia.
Qed.

Lemma updateLoop_counts (text : jsstring) :
  forallb advances text = true ->
  forall fuel i col,
    length text - i <= fuel -> i <= length text ->
    (0 <= col < terminalCols columns)%Z ->
    updateLoop columns fuel text i col
    = ((col + Z.of_nat (length text - i)) mod terminalCols columns)%Z.
Proof.
  intros Ht. induction fuel as [|fuel IH]; intros i col Hf Hi Hcol.
  - assert (i = length text) by lia. subst i.
    rewrite updateLoop_end, Nat.sub_diag, Z.add_0_r, Z.mod_small; lia.
  - destruct (Nat.eq_dec i (length text)) as [->|Hne].
    + rewrite updateLoop_end, Nat.sub_diag, Z.add_0_r, Z.mod_small; lia.
    + destruct (charAt_lt text i ltac:(lia)) as [ch Hc].
      assert (Hadv : advances ch = true).
      { rewrite forallb_forall in Ht. apply Ht.
        unfold charAt in Hc. eapply nth_error_In. exact Hc. }
      unfold advances in Hadv.
      apply andb_prop in Hadv. destruct Hadv as [Hadv Hcr].
      apply andb_prop in Hadv. destruct Hadv as [Hesc Hlf].
      apply negb_true_iff in Hesc, Hlf, Hcr.
      rewrite (updateLoop_step _ fuel i col ch Hc Hesc), Hlf, Hcr. cbn [orb].
      replace (length text - i) with (S (length text - (i + 1))) by lia.
      rewrite Nat2Z.inj_succ.
      destruct (Z.leb_spec (terminalCols columns) (col + 1)) as [Hw|Hw].
      * rewrite IH by lia.
        assert (col + 1 = terminalCols columns)%Z by lia.
        replace (col + Z.succ (Z.of_nat (length text - (i + 1))))%Z
          with (Z.of_nat (length text - (i + 1)) + 1 * terminalCols columns)%Z by lia.
        rewrite Z.mod_add by lia. reflexivity.
      * rewrite IH by lia. f_equal. lia.
Qed.

(** X14. Over text that only advances the cursor, the streaming column counts
    modulo the terminal width. *)
Theorem streaming_column_counts (text : jsstring) (s : state) :
  forallb advances text = true -> inRange columns s ->
  streamingCol (fst (updateStreamingCol columns text s))
  = ((streamingCol s + Z.of_nat (length text)) mod terminalCols columns)%Z.
Proof.
  intros Ht Hs. unfold updateStreamingCol, assign. cbn [fst].
  replace (streamingCol (set_streamingCol _ s))
    with (updateLoop columns (length text) text 0 (streamingCol s))
    by (destruct s; reflexivity).
  rewrite (updateLoop_counts text Ht) by (unfold inRange in Hs; lia).
  rewrite Nat.sub_0_r. reflexivity.
Qed.

End Terminal.
End ColumnFacts.

Module WrapMore.
Import Wrap JSFacts Samples Session WrapFacts ColumnFacts.

(** The text and column produced by one iteration on a code unit that is not
    ESC. *)
Lemma body_not_escape cols text i col ch :
  charAt text i = Some ch -> N.eqb ch ESC = false ->
  body cols text i col
  = if N.eqb ch LF then (i, 16%Z, breakLine)
    else if (cols <=? col)%Z then (i, 17%Z, breakLine ++ [ch])
         else (i, (col + 1)%Z, [ch]).
Proof. intros Hc He. unfold body. rewrite Hc, He. reflexivity. Qed.

Lemma loop_end cols text fuel col result :
  loop fuel cols text (length text) col result = (result, col).
Proof. destruct fuel; simpl; rewrite Nat.leb_refl; reflexivity. Qed.

(** What is already written stays in front. *)
Lemma loop_result cols text : forall fuel i col result,
  loop fuel cols text i col result
  = (result ++ fst (loop fuel cols text i col []), snd (loop fuel cols text i col [])).
Proof.
  induction fuel as [|fuel IH]; intros i col result; simpl;
    destruct (length text <=? i); simpl; rewrite ?app_nil_r; try reflexivity.
  destruct (body cols text i col) as [[i' col'] emitted].
  rewrite IH. rewrite (IH _ _ ([] ++ emitted)). cbn [fst snd app].
  rewrite app_assoc. reflexivity.
Qed.

Lemma body_shift cols (pre text : jsstring) i col :
  body cols (pre ++ text) (length pre + i) col
  = let '(j, c, e) := body cols text i col in (length pre + j, c, e).
Proof.
  unfold body. rewrite charAt_shift.
  destruct (charAt text i) as [ch|]; [|reflexivity].
  destruct (N.eqb ch ESC).
  - rewrite length_app.
    replace (length pre + i + 1) with (length pre + (i + 1)) by lia.
    rewrite charAt_shift.
    replace (length pre + (i + 1) <? length pre + length text) with (i + 1 <? length text)
      by (destruct (Nat.ltb_spec (i + 1) (length text));
          destruct (Nat.ltb_spec (length pre + (i + 1)) (length pre + length text));
          try reflexivity; lia).
    destruct ((i + 1 <? length text) && charIs (charAt text (i + 1)) 91%N);
      [|reflexivity].
    replace (length pre + (i + 1) + 1) with (length pre + (i + 1 + 1)) by lia.
    rewrite sliceFrom_shift, skipParams_base.
    set (j := skipParams (sliceFrom text (i + 1 + 1)) (i + 1 + 1)).
    assert (Hslice : forall a b, a <= b ->
               slice (pre ++ text) (length pre + a) (length pre + b) = slice text a b).
    { intros a b Hab. unfold slice.
      change (skipn (length pre + a) (pre ++ text))
        with (sliceFrom (pre ++ text) (length pre + a)).
      rewrite sliceFrom_shift. f_equal. lia. }
    pose proof (skipParams_mono (sliceFrom text (i + 1 + 1)) (i + 1 + 1)) as Hj.
    fold j in Hj.
    rewrite Hslice by lia.
    replace (length pre + j + 1) with (length pre + (j + 1)) by lia.
    rewrite Hslice by lia.
    replace (length pre + j <? length pre + length text) with (j <? length text)
      by (destruct (Nat.ltb_spec j (length text));
          destruct (Nat.ltb_spec (length pre + j) (length pre + length text));
          try reflexivity; lia).
    reflexivity.
  - destruct (N.eqb ch LF); [reflexivity|].
    destruct (cols <=? col)%Z; reflexivity.
Qed.

Lemma loop_shift cols (pre text : jsstring) : forall fuel i col result,
  loop fuel cols (pre ++ text) (length pre + i) col result
  = loop fuel cols text i col result.
Proof.
  induction fuel as [|fuel IH]; intros i col result; simpl; rewrite length_app;
    replace (length pre + length text <=? length pre + i) with (length text <=? i)
      by (destruct (Nat.leb_spec (length text) i);
          destruct (Nat.leb_spec (length pre + length text) (length pre + i));
          try reflexivity; lia);
    destruct (length text <=? i); try reflexivity.
  rewrite body_shift. destruct (body cols text i col) as [[j c] e].
  replace (length pre + j + 1) with (length pre + (j + 1)) by lia.
  apply IH.
Qed.

Lemma loop_step cols text fuel i col result ch :
  charAt text i = Some ch -> N.eqb ch ESC = false ->
  loop (S fuel) cols text i col result
  = let '(_, c, e) := body cols text i col in
    loop fuel cols text (i + 1) c (result ++ e).
Proof.
  intros Hc He. simpl.
  destruct (Nat.leb_spec (length text) i) as [Hi|_].
  - apply charAt_some_lt in Hc. lia.
  - rewrite (body_not_escape cols text i col ch Hc He).
    destruct (N.eqb ch LF); [reflexivity|].
    destruct (cols <=? col)%Z; reflexivity.
Qed.

Lemma loop_app cols (a b : jsstring) :
  forallb (fun c => negb (N.eqb c ESC)) a = true ->
  forall fuel i col result,
    length (a ++ b) - i <= fuel -> i <= length a ->
    loop fuel cols (a ++ b) i col result
    = let '(wa, ca) := loop (length a - i) cols a i col result in
      loop (length b) cols b 0 ca wa.
Proof.
  intros Ha. induction fuel as [|fuel IH]; intros i col result Hf Hi;
    rewrite length_app in Hf.
  - assert (i = length a) by lia. assert (length b = 0) by lia. subst i.
    rewrite loop_end. destruct b; [|discriminate].
    rewrite app_nil_r, loop_end. reflexivity.
  - destruct (Nat.eq_dec i (length a)) as [->|Hne].
    + rewrite loop_end.
      pose proof (loop_shift cols a b (S fuel) 0 col result) as Hsh.
      rewrite Nat.add_0_r in Hsh. rewrite Hsh.
      apply wrap_loop_fuel; lia.
    + assert (Hlt : i < length a) by lia.
      destruct (charAt_lt a i Hlt) as [ch Hc].
      assert (Hesc : N.eqb ch ESC = false).
      { rewrite forallb_forall in Ha. apply negb_true_iff, Ha.
        unfold charAt in Hc. eapply nth_error_In. exact Hc. }
      assert (Hc' : charAt (a ++ b) i = Some ch).
      { unfold charAt in *. rewrite nth_error_app1 by lia. exact Hc. }
      rewrite (loop_step cols _ fuel i col result ch Hc' Hesc).
      replace (length a - i) with (S (length a - (i + 1))) by lia.
      rewrite (loop_step cols _ _ i col result ch Hc Hesc).
      rewrite (body_not_escape cols _ i col ch Hc' Hesc).
      rewrite (body_not_escape cols _ i col ch Hc Hesc).
      destruct (N.eqb ch LF); [apply IH; rewrite ?length_app; lia|].
      destruct (cols <=? col)%Z; apply IH; rewrite ?length_app; lia.
Qed.

(** X15. Wrapping a text in two calls, the second starting at the column the
    first returned, gives the same text and end column as wrapping it in one
    call, provided the first part holds no ESC. *)
Theorem wrap_composes (columns : option N) (a b : jsstring) (startCol : Z) :
  forallb (fun c => negb (N.eqb c ESC)) a = true ->
  wrapAssistantText columns (a ++ b) startCol
  = (fst (wrapAssistantText columns a startCol)
     ++ fst (wrapAssistantText columns b (snd (wrapAssistantText columns a startCol))),
     snd (wrapAssistantText columns b (snd (wrapAssistantText columns a startCol)))).
Proof.
  intros Ha. unfold wrapAssistantText.
  rewrite (loop_app _ a b Ha) by lia. rewrite Nat.sub_0_r.
  destruct (loop (length a) (terminalCols columns) a 0 startCol []) as [wa ca].
  cbn [fst snd]. apply loop_result.
Qed.

Lemma slice_control_params (params : jsstring) (final : char) (rest : jsstring) :
  slice (ESC :: 91%N :: params ++ final :: rest) 1 (2 + length params)
  = 91%N :: params.
Proof.
  unfold slice. replace (2 + length params - 1) with (S (length params)) by lia.
  cbn [skipn firstn]. rewrite firstn_app, firstn_all, Nat.sub_diag.
  cbn [firstn]. rewrite app_nil_r. reflexivity.
Qed.

Lemma slice_control_final (params : jsstring) (final : char) (rest : jsstring) :
  slice (ESC :: 91%N :: params ++ final :: rest)
    (2 + length params) (2 + length params + 1)
  = [final].
Proof.
  unfold slice. replace (2 + length params + 1 - (2 + length params)) with 1 by lia.
  cbn [Nat.add skipn]. rewrite skipn_app, skipn_all, Nat.sub_diag. reflexivity.
Qed.

(** X16. A control sequence is copied through without moving the column, and
    the text after it is wrapped as if it came first. *)
Theorem wrap_copies_control_sequence
  (columns : option N) (params : jsstring) (final : char) (rest : jsstring)
  (startCol : Z) :
  forallb isParam params = true -> isParam final = false ->
  wrapAssistantText columns (controlSequence params final ++ rest) startCol
  = (controlSequence params final ++ fst (wrapAssistantText columns rest startCol),
     snd (wrapAssistantText columns rest startCol)).
Proof.
  intros Hp Hf. unfold wrapAssistantText.
  set (cols := terminalCols columns). set (pre := controlSequence params final).
  assert (Hlen : length pre = 2 + length params + 1).
  { subst pre. unfold controlSequence. cbn [length]. rewrite length_app. cbn. lia. }
  assert (Hbody : body cols (pre ++ rest) 0 startCol = (length pre - 1, startCol, pre)).
  { rewrite Hlen. subst pre. unfold controlSequence, body.
    cbn [app length Nat.add charAt nth_error charIs sliceFrom skipn].
    rewrite N.eqb_refl. rewrite <- app_assoc. cbn [app].
    rewrite length_app. cbn [length].
    replace (1 <? S (S (length params + S (length rest)))) with true
      by (symmetry; apply Nat.ltb_lt; lia).
    cbn [andb N.eqb Pos.eqb].
    rewrite skipParams_run by assumption.
    replace (2 + length params <? S (S (length params + S (length rest)))) with true
      by (symmetry; apply Nat.ltb_lt; lia).
    rewrite slice_control_params, slice_control_final.
    replace (S (S (length params + 1)) - 1) with (2 + length params) by lia.
    reflexivity. }
  rewrite length_app.
  replace (length pre + length rest) with (S (length pre + length rest - 1)) by lia.
  cbn [loop]. rewrite length_app.
  destruct (Nat.leb_spec (length pre + length rest) 0) as [?|_]; [lia|].
  rewrite Hbody. cbn [app].
  replace (length pre - 1 + 1) with (length pre + 0) by lia.
  rewrite loop_shift.
  rewrite (wrap_loop_fuel cols rest _ (length rest)) by lia.
  apply loop_result.
Qed.

(** X17. A text with neither ESC nor newline that fits in the rest of the line
    is returned as it is, and the column advances by its length. *)
Theorem wrap_keeps_short_text (columns : option N) (text : jsstring) (startCol : Z) :
  forallb (fun c => negb (N.eqb c ESC) && negb (N.eqb c LF)) text = true ->
  (startCol + Z.of_nat (length text) <= terminalCols columns)%Z ->
  wrapAssistantText columns text startCol
  = (text, (startCol + Z.of_nat (length text))%Z).
Proof.
  intros Ht Hfit. unfold wrapAssistantText. set (cols := terminalCols columns) in *.
  assert (H : forall fuel i col result,
             length text - i <= fuel -> i <= length text ->
             (col + Z.of_nat (length text - i) <= cols)%Z ->
             loop fuel cols text i col result
             = (result ++ sliceFrom text i, (col + Z.of_nat (length text - i))%Z)).
  { induction fuel as [|fuel IH]; intros i col result Hf Hi Hcol.
    - assert (i = length text) by lia. subst i.
      rewrite loop_end. unfold sliceFrom.
      rewrite skipn_all, app_nil_r, Nat.sub_diag, Z.add_0_r. reflexivity.
    - destruct (Nat.eq_dec i (length text)) as [->|Hne].
      + rewrite loop_end. unfold sliceFrom.
        rewrite skipn_all, app_nil_r, Nat.sub_diag, Z.add_0_r. reflexivity.
      + destruct (charAt_lt text i ltac:(lia)) as [ch Hc].
        assert (Hv : negb (N.eqb ch ESC) && negb (N.eqb ch LF) = true).
        { rewrite forallb_forall in Ht. apply Ht.
          unfold charAt in Hc. eapply nth_error_In. exact Hc. }
        apply andb_prop in Hv. destruct Hv as [Hesc Hlf].
        apply negb_true_iff in Hesc, Hlf.
        rewrite (loop_step cols _ fuel i col result ch Hc Hesc).
        rewrite (body_not_escape cols _ i col ch Hc Hesc), Hlf.
        destruct (Z.leb_spec cols col) as [?|_]; [lia|].
        rewrite IH by lia.
        rewrite (sliceFrom_cons text i ch Hc), <- app_assoc.
        replace (i + 1) with (S i) by lia. cbn [app].
        f_equal. lia. }
  rewrite H by lia. rewrite Nat.sub_0_r. reflexivity.
Qed.

(** X18. On a terminal wider than the indent, a call that starts at or before
    the width ends at or before the width. *)
Theorem wrap_column_bounded (columns : option N) (text : jsstring) (startCol : Z) :
  (16 < terminalCols columns)%Z -> (startCol <= terminalCols columns)%Z ->
  (snd (wrapAssistantText columns text startCol) <= terminalCols columns)%Z.
Proof.
  intros Hw Hs. unfold wrapAssistantText. set (cols := terminalCols columns) in *.
  generalize (@nil char) as result. generalize 0 as i. revert Hs.
  generalize startCol as col. generalize (length text) at 1 as fuel.
  induction fuel as [|fuel IH]; intros col Hcol i result; simpl;
    destruct (length text <=? i); simpl; try exact Hcol.
  assert (Hb : (snd (fst (body cols text i col)) <= cols)%Z).
  { unfold body. destruct (charAt text i) as [ch|]; [|exact Hcol].
    destruct (N.eqb ch ESC).
    - destruct ((i + 1 <? length text) && _); exact Hcol.
    - destruct (N.eqb ch LF); [simpl; lia|].
      destruct (Z.leb_spec cols col); simpl; lia. }
  destruct (body cols text i col) as [[i' col'] emitted]. apply IH. exact Hb.
Qed.

End WrapMore.

Module RenderFacts.
Import Markdown JSFacts MarkdownFacts Samples Text.

(** *** No exception on a terminal of 20 columns or more *)

Lemma step_no_throw cols r input i r' :
  (20 <= cols)%Z -> step cols r input i <> Throw r'.
Proof.
  intros Hw H. apply step_cases in H.
  unfold openFence, codeBlock, inlineCode, header, horizontalRule, listItem,
    emphasis, link, literal, repeat1 in H.
  destruct (Z.ltb_spec (Z.min (cols - 20) 40) 0) as [?|_]; [lia|].
  destruct H as [H|[H|[H|[H|[H|[H|[H|[H|H]]]]]]]];
    repeat break_hyp H; discriminate.
Qed.

(** X19. On a terminal of at least 20 columns [push] never raises: it returns
    a string, whatever the renderer state and the chunk. *)
Theorem push_returns (cols : Z) (r : MarkdownRenderer) (chunk : jsstring) :
  (20 <= cols)%Z -> exists out, snd (push cols r chunk) = Returned out.
Proof.
  intros Hw. unfold push.
  generalize (set_pending [] r) as r0. generalize (@nil char) as out.
  generalize 0 as i. generalize (length (pending r ++ chunk)) as fuel.
  induction fuel as [|fuel IH]; intros i out r0; simpl;
    destruct (length (pending r ++ chunk) <=? i); simpl; eauto.
  destruct (step cols r0 (pending r ++ chunk) i) as [r1 i1 e|r1|r1] eqn:Hs; simpl;
    eauto.
  exfalso. exact (step_no_throw _ _ _ _ _ Hw Hs).
Qed.

(** *** Text that is passed through *)

Lemma matchFence_other input i c :
  charAt input i = Some c -> noFenceChar c = true -> matchFence input i = 0.
Proof.
  intros Hc Hn. unfold matchFence. rewrite Hc.
  unfold noFenceChar in Hn. apply negb_true_iff in Hn. rewrite Hn. reflexivity.
Qed.

Lemma step_plain cols r input i c :
  charAt input i = Some c -> plainChar c = true ->
  inCode r = false -> inCodeBlock r = false ->
  step cols r input i = literal r input i.
Proof.
  intros Hc Hp Hic Hib.
  unfold plainChar in Hp. apply negb_true_iff in Hp.
  repeat (apply orb_false_elim in Hp; destruct Hp as [Hp ?]).
  assert (Hf : matchFence input i = 0).
  { apply (matchFence_other input i c Hc). unfold noFenceChar.
    rewrite Hp. match goal with E : N.eqb c TILDE = false |- _ => rewrite E end.
    reflexivity. }
  unfold step, openFence, codeBlock, inlineCode, header, horizontalRule, listItem,
    emphasis, link.
  rewrite Hc, Hic, Hib, Hf.
  match goal with E : isDigit (Some c) = false |- _ => rewrite E end.
  cbn [charIs].
  repeat match goal with E : N.eqb c _ = false |- _ => rewrite E; clear E end.
  rewrite !andb_false_r. cbn [andb orb negb orElse Nat.ltb Nat.leb].
  destruct (atLineStart r); reflexivity.
Qed.

Lemma literal_char r input i c :
  charAt input i = Some c ->
  exists r', literal r input i = Continue r' (i + 1) [c]
             /\ bold r' = bold r /\ italic r' = italic r /\ inCode r' = inCode r
             /\ inCodeBlock r' = inCodeBlock r /\ pending r' = pending r
             /\ codeBlockTicks r' = codeBlockTicks r.
Proof.
  intros Hc. unfold literal. rewrite Hc.
  destruct (N.eqb_spec c LF) as [->|_]; eexists; (split; [reflexivity|]);
    repeat split.
Qed.

(** A loop whose every iteration emits the code unit it reads. *)
Lemma loop_verbatim cols input (P : MarkdownRenderer -> Prop) :
  (forall r r', P r -> sameStyle r r' -> P r') ->
  (forall r i, P r -> i < length input ->
     exists r' c, charAt input i = Some c
                  /\ step cols r input i = Continue r' (i + 1) [c]
                  /\ sameStyle r r') ->
  forall fuel r i out,
    P r -> length input - i <= fuel -> i <= length input ->
    snd (loop fuel cols r input i out) = Returned (out ++ sliceFrom input i)
    /\ sameStyle r (fst (loop fuel cols r input i out)).
Proof.
  intros Hkeep Hstep. induction fuel as [|fuel IH]; intros r i out HP Hf Hi.
  - assert (i = length input) by lia. subst i. simpl. rewrite Nat.leb_refl.
    unfold sliceFrom. rewrite skipn_all, app_nil_r. simpl.
    split; [reflexivity|]. repeat split.
  - simpl. destruct (Nat.leb_spec (length input) i) as [Hge|Hlt].
    + assert (i = length input) by lia. subst i.
      unfold sliceFrom. rewrite skipn_all, app_nil_r. simpl.
      split; [reflexivity|]. repeat split.
    + destruct (Hstep r i HP Hlt) as [r' [c [Hc [Hs Hsame]]]].
      rewrite Hs.
      destruct (IH r' (i + 1) (out ++ [c]) (Hkeep _ _ HP Hsame)) as [H1 H2];
        try lia.
      split.
      { rewrite H1, (sliceFrom_cons input i c Hc), <- app_assoc.
        replace (i + 1) with (S i) by lia. reflexivity. }
      destruct Hsame as [S1 [S2 [S3 [S4 [S5 S6]]]]].
      destruct H2 as [T1 [T2 [T3 [T4 [T5 T6]]]]].
      unfold sameStyle. repeat split; congruence.
Qed.

Lemma charAt_forallb (f : char -> bool) (text : jsstring) i c :
  forallb f text = true -> charAt text i = Some c -> f c = true.
Proof.
  intros Hall Hc. rewrite forallb_forall in Hall. apply Hall.
  unfold charAt in Hc. eapply nth_error_In. exact Hc.
Qed.

Lemma sameStyle_set_pending r : pending r = [] -> sameStyle r (set_pending [] r).
Proof. intros H. unfold sameStyle. simpl. rewrite H. repeat split. Qed.

Lemma sameStyle_trans r1 r2 r3 : sameStyle r1 r2 -> sameStyle r2 r3 -> sameStyle r1 r3.
Proof. unfold sameStyle. intuition congruence. Qed.

(** X20. Text without markup characters (backtick, tilde, hash, dash, star,
    underscore, opening bracket, digits) is returned unchanged by [push]
    outside code, newlines included, and leaves styles and buffer as they
    were. *)
Theorem plain_text_unchanged (cols : Z) (r : MarkdownRenderer) (text : jsstring) :
  forallb plainChar text = true ->
  pending r = [] -> inCode r = false -> inCodeBlock r = false ->
  snd (push cols r text) = Returned text /\ sameStyle r (fst (push cols r text)).
Proof.
  intros Ht Hp Hic Hib. unfold push. rewrite Hp. cbn [app].
  destruct (loop_verbatim cols text
              (fun r => inCode r = false /\ inCodeBlock r = false)) with
    (fuel := length text) (r := set_pending [] r) (i := 0) (out := @nil char)
    as [H1 H2]; try lia.
  - intros r1 r2 [A B] [_ [_ [S3 [S4 _]]]]. split; congruence.
  - intros r1 i [A B] Hi. destruct (charAt_lt text i Hi) as [c Hc].
    pose proof (charAt_forallb _ _ _ _ Ht Hc) as Hpl.
    destruct (literal_char r1 text i c Hc) as [r' [Hl Hs]].
    exists r', c. rewrite (step_plain cols r1 text i c Hc Hpl A B). auto.
  - split; assumption.
  - split; [exact H1|].
    eapply sameStyle_trans; [apply sameStyle_set_pending; exact Hp|exact H2].
Qed.

(** X21. Inside a fenced block, text without backticks and tildes is returned
    unchanged: no markup is read there and the block stays open. *)
Theorem block_text_unchanged (cols : Z) (r : MarkdownRenderer) (text : jsstring) :
  forallb noFenceChar text = true ->
  pending r = [] -> inCodeBlock r = true -> 0 < codeBlockTicks r ->
  snd (push cols r text) = Returned text /\ sameStyle r (fst (push cols r text)).
Proof.
  intros Ht Hp Hib Hk. unfold push. rewrite Hp. cbn [app].
  destruct (loop_verbatim cols text
              (fun r => inCodeBlock r = true /\ 0 < codeBlockTicks r)) with
    (fuel := length text) (r := set_pending [] r) (i := 0) (out := @nil char)
    as [H1 H2]; try lia.
  - intros r1 r2 [A B] [_ [_ [_ [S4 [_ S6]]]]]. split; [congruence|lia].
  - intros r1 i [A B] Hi. destruct (charAt_lt text i Hi) as [c Hc].
    pose proof (charAt_forallb _ _ _ _ Ht Hc) as Hnf.
    unfold step, openFence, codeBlock. rewrite A, andb_false_r.
    rewrite (matchFence_other text i c Hc Hnf).
    destruct (Nat.leb_spec (codeBlockTicks r1) 0) as [?|_]; [lia|].
    rewrite andb_false_r, Hc. cbn [orElse].
    destruct (N.eqb_spec c LF) as [->|_]; cbn [orElse];
      eexists; eexists; (split; [reflexivity|]); (split; [reflexivity|]);
      unfold sameStyle; simpl; repeat split.
  - split; assumption.
  - split; [exact H1|].
    eapply sameStyle_trans; [apply sameStyle_set_pending; exact Hp|exact H2].
Qed.

(** X22. Inside inline code, text without a backtick is returned unchanged,
    and the code span stays open. *)
Theorem inline_code_text_unchanged (cols : Z) (r : MarkdownRenderer)
  (text : jsstring) :
  forallb (fun c => negb (N.eqb c BACKTICK)) text = true ->
  pending r = [] -> inCode r = true -> inCodeBlock r = false ->
  snd (push cols r text) = Returned text /\ sameStyle r (fst (push cols r text)).
Proof.
  intros Ht Hp Hic Hib. unfold push. rewrite Hp. cbn [app].
  destruct (loop_verbatim cols text
              (fun r => inCode r = true /\ inCodeBlock r = false)) with
    (fuel := length text) (r := set_pending [] r) (i := 0) (out := @nil char)
    as [H1 H2]; try lia.
  - intros r1 r2 [A B] [_ [_ [S3 [S4 _]]]]. split; congruence.
  - intros r1 i [A B] Hi. destruct (charAt_lt text i Hi) as [c Hc].
    pose proof (charAt_forallb _ _ _ _ Ht Hc) as Hnb. cbv beta in Hnb.
    apply negb_true_iff in Hnb.
    unfold step, openFence, codeBlock, inlineCode.
    rewrite A, B, Hc. cbn [charIs negb andb]. rewrite andb_false_r, Hnb.
    cbn [andb orElse].
    destruct (N.eqb_spec c LF) as [->|_]; cbn [orElse];
      eexists; eexists; (split; [reflexivity|]); (split; [reflexivity|]);
      unfold sameStyle; simpl; repeat split.
  - split; assumption.
  - split; [exact H1|].
    eapply sameStyle_trans; [apply sameStyle_set_pending; exact Hp|exact H2].
Qed.

(** *** The width of an open block *)

Lemma step_block_width cols r input i :
  blockWidthOk r = true ->
  match step cols r input i with
  | Continue r' _ _ => blockWidthOk r' = true
  | Break r' => blockWidthOk r' = true
  | Throw r' => blockWidthOk r' = true
  end.
Proof.
  intros Hr.
  destruct (step cols r input i) as [r' i' e|r'|r'] eqn:Hs;
    apply step_cases in Hs;
    destruct Hs as [H|[H|[H|[H|[H|[H|[H|[H|H]]]]]]]].
  all: try (unfold codeBlock, inlineCode, header, horizontalRule, listItem,
              emphasis, link, literal in H;
            repeat break_hyp H; try discriminate; inv H;
            unfold blockWidthOk in *; simpl in *; try exact Hr; reflexivity).
  all: unfold openFence in H;
    destruct (atLineStart r && negb (inCode r) && negb (inCodeBlock r));
      try discriminate;
    destruct (Nat.ltb_spec 0 (matchFence input i)) as [Hf|Hf]; try discriminate;
    destruct (indexOf LF input (i + matchFence input i)); inv H;
    unfold blockWidthOk; cbn -[Nat.leb];
    apply Nat.leb_le; apply matchFence_fence; exact Hf.
Qed.

Lemma loop_block_width cols input : forall fuel r i out,
  blockWidthOk r = true -> blockWidthOk (fst (loop fuel cols r input i out)) = true.
Proof.
  induction fuel as [|fuel IH]; intros r i out Hr; simpl;
    destruct (length input <=? i); simpl; try exact Hr.
  pose proof (step_block_width cols r input i Hr) as Hs.
  destruct (step cols r input i) as [r' i' e|r'|r']; simpl; auto.
Qed.

(** X23. Whenever a fenced block is open its recorded width is at least 3:
    this holds for a new renderer, after [flush], and is kept by [push]; so a
    line that starts with no fence never closes a block. *)
Theorem open_block_has_fence_width :
  blockWidthOk fresh = true
  /\ (forall r, blockWidthOk (fst (flush r)) = true)
  /\ (forall cols r chunk,
        blockWidthOk r = true -> blockWidthOk (fst (push cols r chunk)) = true)
  /\ (forall cols chunks, blockWidthOk (fst (pushAll cols fresh chunks)) = true).
Proof.
  assert (Hpush : forall cols r chunk,
             blockWidthOk r = true -> blockWidthOk (fst (push cols r chunk)) = true).
  { intros cols r chunk Hr. unfold push. apply loop_block_width.
    destruct r; exact Hr. }
  split; [reflexivity|]. split; [reflexivity|]. split; [exact Hpush|].
  intros cols chunks. generalize fresh, (eq_refl : blockWidthOk fresh = true).
  induction chunks as [|chunk chunks IH]; intros r Hr; [exact Hr|].
  cbn [pushAll]. pose proof (Hpush cols r chunk Hr) as H1.
  destruct (push cols r chunk) as [r1 [out1|]]; [|exact H1].
  specialize (IH r1 H1).
  destruct (pushAll cols r1 chunks) as [r2 [out2|]]; exact IH.
Qed.

End RenderFacts.

Module ReuseFacts.
Import Markdown JSFacts MarkdownFacts Samples Text.

Ltac split_cases :=
  repeat match goal with
         | |- context [match ?x with _ => _ end] =>
             lazymatch x with
             | context [match _ with _ => _ end] => fail
             | _ => destruct x
             end
         end.

Section Closed.
Variables (p : jsstring) (b it ic : bool) (t : nat) (ls : bool) (lc : jsstring).

(** A renderer outside a block, and the same with the stale width reset. *)
Let r := mkRenderer p b it ic false t ls lc.
Let r0 := mkRenderer p b it ic false 0 ls lc.

Lemma openFence_forget input i :
  forgetOpt (openFence r0 input i) = forgetOpt (openFence r input i).
Proof. unfold openFence, r, r0. simpl. split_cases; reflexivity. Qed.

Lemma codeBlock_forget input i :
  forgetOpt (codeBlock r0 input i) = forgetOpt (codeBlock r input i).
Proof. reflexivity. Qed.

Lemma inlineCode_forget input i :
  forgetOpt (inlineCode r0 input i) = forgetOpt (inlineCode r input i).
Proof. unfold inlineCode, r, r0. simpl. split_cases; reflexivity. Qed.

Lemma header_forget input i :
  forgetOpt (header r0 input i) = forgetOpt (header r input i).
Proof. unfold header, r, r0. simpl. split_cases; reflexivity. Qed.

Lemma horizontalRule_forget cols input i :
  forgetOpt (horizontalRule cols r0 input i)
  = forgetOpt (horizontalRule cols r input i).
Proof. unfold horizontalRule, r, r0. simpl. split_cases; reflexivity. Qed.

Lemma listItem_forget input i :
  forgetOpt (listItem r0 input i) = forgetOpt (listItem r input i).
Proof. unfold listItem, r, r0. simpl. split_cases; reflexivity. Qed.

Lemma emphasis_forget input i :
  forgetOpt (emphasis r0 input i) = forgetOpt (emphasis r input i).
Proof. unfold emphasis, r, r0. simpl. split_cases; reflexivity. Qed.

Lemma link_forget input i :
  forgetOpt (link r0 input i) = forgetOpt (link r input i).
Proof. unfold link, r, r0. simpl. split_cases; reflexivity. Qed.

Lemma literal_forget input i :
  forgetWidthIn (literal r0 input i) = forgetWidthIn (literal r input i).
Proof. unfold literal, r, r0. simpl. split_cases; reflexivity. Qed.

End Closed.

Lemma forget_orElse a c :
  forgetWidthIn (orElse a c) = orElse (forgetOpt a) (forgetWidthIn c).
Proof. destruct a; reflexivity. Qed.

Lemma step_forget cols r input i :
  forgetWidthIn (step cols (forgetWidth r) input i)
  = forgetWidthIn (step cols r input i).
Proof.
  unfold forgetWidth. destruct r as [p b it ic ib t ls lc]. simpl.
  destruct ib; [reflexivity|]. unfold set_codeBlockTicks. simpl.
  unfold step. rewrite !forget_orElse.
  rewrite (openFence_forget p b it ic t ls lc), (codeBlock_forget p b it ic t ls lc),
    (inlineCode_forget p b it ic t ls lc), (header_forget p b it ic t ls lc),
    (horizontalRule_forget p b it ic t ls lc), (listItem_forget p b it ic t ls lc),
    (emphasis_forget p b it ic t ls lc), (link_forget p b it ic t ls lc),
    (literal_forget p b it ic t ls lc).
  reflexivity.
Qed.

Lemma step_related cols r r' input i :
  forgetWidth r = forgetWidth r' ->
  forgetWidthIn (step cols r input i) = forgetWidthIn (step cols r' input i).
Proof.
  intros H. rewrite <- (step_forget cols r), <- (step_forget cols r'), H.
  reflexivity.
Qed.

Lemma loop_related cols input : forall fuel r r' i out,
  forgetWidth r = forgetWidth r' ->
  snd (loop fuel cols r input i out) = snd (loop fuel cols r' input i out)
  /\ forgetWidth (fst (loop fuel cols r input i out))
     = forgetWidth (fst (loop fuel cols r' input i out)).
Proof.
  induction fuel as [|fuel IH]; intros r r' i out H; simpl;
    destruct (length input <=? i); simpl; auto.
  pose proof (step_related cols r r' input i H) as Hs.
  destruct (step cols r input i) as [a ia ea|a|a];
    destruct (step cols r' input i) as [c ic ec|c|c];
    simpl in Hs; try discriminate; inversion Hs; subst; simpl; auto.
Qed.

Lemma forgetWidth_pending r r' :
  forgetWidth r = forgetWidth r' -> pending r = pending r'.
Proof.
  unfold forgetWidth. intros H.
  destruct r as [p b it ic ib t ls lc], r' as [p' b' it' ic' ib' t' ls' lc'].
  simpl in *. destruct ib, ib'; simpl in *; inversion H; subst; reflexivity.
Qed.

Lemma forgetWidth_clear r r' :
  forgetWidth r = forgetWidth r' ->
  forgetWidth (set_pending [] r) = forgetWidth (set_pending [] r').
Proof.
  unfold forgetWidth. intros H.
  destruct r as [p b it ic ib t ls lc], r' as [p' b' it' ic' ib' t' ls' lc'].
  simpl in *. destruct ib, ib'; simpl in *; inversion H; subst; reflexivity.
Qed.

Lemma push_related cols r r' chunk :
  forgetWidth r = forgetWidth r' ->
  snd (push cols r chunk) = snd (push cols r' chunk)
  /\ forgetWidth (fst (push cols r chunk)) = forgetWidth (fst (push cols r' chunk)).
Proof.
  intros H. unfold push. rewrite (forgetWidth_pending r r' H).
  apply loop_related, forgetWidth_clear, H.
Qed.

(** X24. A renderer that was flushed renders like a new one: every later
    sequence of [push] calls returns what a new renderer returns, and the
    final [flush] too. The fence width left behind by a closed block is never
    read. *)
Theorem flushed_renderer_is_new (cols : Z) (r : MarkdownRenderer)
  (chunks : list jsstring) :
  snd (pushAll cols (fst (flush r)) chunks) = snd (pushAll cols fresh chunks)
  /\ snd (flush (fst (pushAll cols (fst (flush r)) chunks)))
     = snd (flush (fst (pushAll cols fresh chunks))).
Proof.
  assert (H0 : forgetWidth (fst (flush r)) = forgetWidth fresh) by reflexivity.
  revert H0. generalize (fst (flush r)) as a, fresh as c. 
  assert (Hflush : forall a c, forgetWidth a = forgetWidth c ->
                               snd (flush a) = snd (flush c)).
  { unfold forgetWidth, flush. intros a c H.
    destruct a as [p b it ic ib t ls lc], c as [p' b' it' ic' ib' t' ls' lc'].
    simpl in *. destruct ib, ib'; simpl in *; inversion H; subst; reflexivity. }
  assert (Hall : forall a c, forgetWidth a = forgetWidth c ->
             snd (pushAll cols a chunks) = snd (pushAll cols c chunks)
             /\ forgetWidth (fst (pushAll cols a chunks))
                = forgetWidth (fst (pushAll cols c chunks))).
  { induction chunks as [|chunk chunks IH]; intros a c H; [auto|].
    cbn [pushAll]. destruct (push_related cols a c chunk H) as [H1 H2].
    destruct (push cols a chunk) as [a1 [oa|]], (push cols c chunk) as [c1 [oc|]];
      simpl in H1, H2; try discriminate; [|auto].
    inversion H1; subst. destruct (IH a1 c1 H2) as [H3 H4].
    destruct (pushAll cols a1 chunks) as [a2 [oa2|]],
             (pushAll cols c1 chunks) as [c2 [oc2|]];
      simpl in H3, H4; try discriminate; simpl; auto.
    inversion H3; subst. auto. }
  intros a c H. destruct (Hall a c H) as [H1 H2]. split; [exact H1|].
  apply Hflush. exact H2.
Qed.

End ReuseFacts.

Module MessagesFacts.
Import JSFacts Messages.

(** *** formatDuration *)

(** X25. For a safe integer, [formatDuration] shows a number of seconds
    below a minute as it is; below an hour as minutes and seconds that add
    up to it; and from an hour on as hours and minutes, the seconds being
    dropped. *)
Theorem formatDuration_parts (seconds : Z) :
  isSafeInteger seconds = true ->
  ((seconds < 60)%Z
   /\ formatDuration seconds = Some (decimal seconds ++ lit "s"))
  \/ (exists m s,
        (60 <= seconds < 3600 /\ seconds = 60 * m + s /\ 1 <= m < 60 /\ 0 <= s < 60)%Z
        /\ formatDuration seconds
           = Some (decimal m ++ lit "m " ++ decimal s ++ lit "s"))
  \/ (exists h m,
        (3600 <= seconds /\ 3600 * h + 60 * m <= seconds < 3600 * h + 60 * m + 60
         /\ 1 <= h /\ 0 <= m < 60)%Z
        /\ formatDuration seconds
           = Some (decimal h ++ lit "h " ++ decimal m ++ lit "m")).
Proof.
  intros Hsafe. unfold formatDuration. rewrite Hsafe.
  destruct (Z.ltb_spec seconds 60) as [H1|H1]; [left; split; [exact H1|reflexivity]|].
  right.
  pose proof (Z.div_mod seconds 60 ltac:(lia)) as Hdm.
  pose proof (Z.mod_pos_bound seconds 60 ltac:(lia)) as Hm.
  assert (Hrem : Z.rem seconds 60 = (seconds mod 60)%Z)
    by (apply Z.rem_mod_nonneg; lia).
  destruct (Z.ltb_spec (seconds / 60) 60) as [H2|H2].
  - left. exists (seconds / 60)%Z, (Z.rem seconds 60). split; [|reflexivity].
    rewrite Hrem. lia.
  - right.
    pose proof (Z.div_mod (seconds / 60) 60 ltac:(lia)) as Hdm2.
    pose proof (Z.mod_pos_bound (seconds / 60) 60 ltac:(lia)) as Hm2.
    assert (Hrem2 : Z.rem (seconds / 60) 60 = ((seconds / 60) mod 60)%Z)
      by (apply Z.rem_mod_nonneg; lia).
    exists (seconds / 60 / 60)%Z, (Z.rem (seconds / 60) 60). split; [|reflexivity].
    rewrite Hrem2. lia.
Qed.

(** *** splitMessage *)

Lemma searchDown_le pat s : forall k j, searchDown pat s k = Some j -> j <= k.
Proof.
  induction k as [|k IH]; intros j H; simpl in H;
    destruct (occursAt pat s _); inversion H; subst; try lia.
  apply IH in H. lia.
Qed.

Lemma lastIndexOfStr_le pat s position j :
  lastIndexOfStr pat s position = Some j -> j <= position.
Proof.
  unfold lastIndexOfStr. destruct (length s <? length pat); [discriminate|].
  intros H. apply searchDown_le in H. lia.
Qed.

Lemma splitIndex_bounds remaining maxLength :
  1 <= maxLength -> 1 <= splitIndex remaining maxLength <= maxLength.
Proof.
  intros Hm. unfold splitIndex.
  destruct (lastIndexOfStr [LF; LF] remaining maxLength) as [[|k]|] eqn:E1;
    try (apply lastIndexOfStr_le in E1; lia);
    destruct (lastIndexOfStr [LF] remaining maxLength) as [[|k2]|] eqn:E2;
    try (apply lastIndexOfStr_le in E2; lia);
    destruct (lastIndexOfStr [SPACE] remaining maxLength) as [[|k3]|] eqn:E3;
    try (apply lastIndexOfStr_le in E3; lia); lia.
Qed.

Lemma trimStart_length s : length (trimStart s) <= length s.
Proof.
  induction s as [|x s IH]; simpl; [lia|].
  destruct (isWhiteSpace x); simpl; lia.
Qed.

Lemma inked_trimStart s : inked (trimStart s) = inked s.
Proof.
  unfold inked. induction s as [|x s IH]; simpl; [reflexivity|].
  destruct (isWhiteSpace x) eqn:E; simpl; [exact IH|].
  rewrite E. reflexivity.
Qed.

Lemma inked_app a b : inked (a ++ b) = inked a ++ inked b.
Proof. apply filter_app. Qed.

Lemma splitLoop_ends maxLength :
  1 <= maxLength ->
  forall fuel remaining chunks,
    length remaining <= fuel -> Forall (cut maxLength) chunks ->
    exists out,
      splitLoop fuel remaining maxLength chunks = Some out
      /\ Forall (cut maxLength) out
      /\ inked (concat out) = inked (concat chunks ++ remaining).
Proof.
  intros Hm. induction fuel as [|fuel IH]; intros remaining chunks Hf Hc; simpl.
  - destruct remaining; [|simpl in Hf; lia]. simpl.
    exists chunks. rewrite app_nil_r. auto.
  - destruct (Nat.eqb_spec (length remaining) 0) as [H0|H0].
    + destruct remaining; [|discriminate]. exists chunks. rewrite app_nil_r. auto.
    + destruct (Nat.leb_spec (length remaining) maxLength) as [Hfit|Hlong].
      * exists (chunks ++ [remaining]). split; [reflexivity|]. split.
        -- apply Forall_app. split; [exact Hc|]. constructor; [|constructor].
           unfold cut. lia.
        -- rewrite concat_app. simpl. rewrite app_nil_r. reflexivity.
      * pose proof (splitIndex_bounds remaining maxLength Hm) as Hidx.
        set (idx := splitIndex remaining maxLength) in *.
        destruct (IH (trimStart (sliceFrom remaining idx))
                    (chunks ++ [slice remaining 0 idx])) as [out [H1 [H2 H3]]].
        -- pose proof (trimStart_length (sliceFrom remaining idx)).
           rewrite sliceFrom_length in *. lia.
        -- apply Forall_app. split; [exact Hc|]. constructor; [|constructor].
           unfold cut, slice. rewrite Nat.sub_0_r. cbn [skipn].
           rewrite length_firstn. lia.
        -- exists out. split; [exact H1|]. split; [exact H2|].
           rewrite H3, concat_app. simpl. rewrite app_nil_r.
           rewrite <- app_assoc, !inked_app, inked_trimStart, <- !inked_app.
           unfold slice, sliceFrom. rewrite Nat.sub_0_r. cbn [skipn].
           rewrite firstn_skipn. reflexivity.
Qed.


(** With more than one chunk, the k-th that is sent is the k-th body behind
    its label. *)
Lemma labelFrom_nth n : forall chunks i k body,
  nth_error chunks k = Some body ->
  nth_error (labelFrom i n chunks) k = Some (labelled (i + k) n body).
Proof.
  induction chunks as [|c chunks IH]; intros i [|k] body H; simpl in *;
    try discriminate.
  - inversion H; subst. rewrite Nat.add_0_r. reflexivity.
  - rewrite (IH (S i) k body H). f_equal. f_equal. lia.
Qed.

End MessagesFacts.

Module LineFacts.
Import Display Monitor JSFacts Samples Session DisplayFacts ColumnFacts WrapFacts
  WrapMore.

Section Terminal.
Variable columns : option N.

(** *** Whole lines *)

Lemma typeAll_app (a b : list jsstring) : forall s,
  fst (typeAll columns (a ++ b) s)
  = fst (typeAll columns b (fst (typeAll columns a s))).
Proof.
  induction a as [|k a IH]; intros s; [reflexivity|].
  cbn [app]. rewrite !typeAll_cons. apply IH.
Qed.

Lemma typeAll_printable (w : jsstring) : forall s,
  escapeSeq s = 0 -> forallb printable w = true ->
  let s' := fst (typeAll columns (map (fun c => [c]) w) s) in
  inputBuffer s' = inputBuffer s ++ w /\ escapeSeq s' = 0
  /\ messageQueue s' = messageQueue s.
Proof.
  induction w as [|c w IH]; intros s Hes Hw; cbv zeta.
  - cbn. rewrite app_nil_r. auto.
  - cbn [map]. rewrite typeAll_cons.
    cbn [forallb] in Hw. apply andb_prop in Hw. destruct Hw as [Hc Hw].
    unfold printable in Hc. apply andb_prop in Hc. destruct Hc as [H32 H127].
    apply N.leb_le in H32. apply negb_true_iff, N.eqb_neq in H127.
    pose proof (handleChar_printable columns c s Hes H32 H127) as Ha.
    cbv zeta in Ha. destruct Ha as [A1 [A2 [A3 _]]].
    pose proof (IH (fst (handleChar columns [c] s)) A2 Hw) as Hb.
    cbv zeta in Hb. destruct Hb as [B1 [B2 B3]].
    unfold jsstring, char in *.
    rewrite B1, B2, B3, A1, A3, <- app_assoc. auto.
Qed.

(** X27. Typing a line of printable keys on an empty buffer and pressing Enter
    queues one local message, the trimmed line, and clears the buffer,
    unless the line is blank or ends with a backslash. *)
Theorem typed_line_is_queued (s : state) (line enter : jsstring) :
  escapeSeq s = 0 -> inputBuffer s = [] -> forallb printable line = true ->
  endsWith line 92%N = false -> trim line <> [] -> isEnter enter ->
  let s' := fst (typeAll columns (map (fun c => [c]) line ++ [enter]) s) in
  messageQueue s' = messageQueue s ++ [mkMessage (trim line) local]
  /\ inputBuffer s' = [].
Proof.
  intros Hes Hib Hw Hends Htrim Hen. cbv zeta.
  rewrite typeAll_app, typeAll_cons. cbn [typeAll skip fst].
  pose proof (typeAll_printable line s Hes Hw) as Ht. cbv zeta in Ht.
  destruct Ht as [T1 [T2 T3]]. rewrite Hib in T1. cbn [app] in T1.
  set (s1 := fst (typeAll columns (map (fun c => [c]) line) s)) in *.
  assert (E1 : endsWith (inputBuffer s1) 92%N = false) by (rewrite T1; exact Hends).
  assert (E2 : trim (inputBuffer s1) <> []) by (rewrite T1; exact Htrim).
  pose proof (handleChar_submit columns enter s1 Hen T2 E1 E2) as Hs.
  cbv zeta in Hs. destruct Hs as [S1 [_ S3]].
  rewrite S3, S1, T1, T3. auto.
Qed.

End Terminal.
End LineFacts.

Module CursorFacts.
Import Display Monitor JSFacts Samples Session DisplayFacts ColumnFacts WrapFacts
  WrapMore RenderFacts.

Section Terminal.
Variable columns : option N.

Lemma track_app (a b : jsstring) sc :
  forallb (fun c => negb (N.eqb c ESC)) a = true ->
  track columns (a ++ b) sc = track columns b (track columns a sc).
Proof.
  intros Ha. unfold track. rewrite (updateLoop_app columns a b Ha) by lia.
  rewrite Nat.sub_0_r. reflexivity.
Qed.

Lemma track_breakLine sc :
  (16 < terminalCols columns)%Z -> track columns Wrap.breakLine sc = 16%Z.
Proof.
  intros Hw. change Wrap.breakLine with ([LF] ++ Wrap.ASSISTANT_INDENT).
  rewrite track_app by reflexivity.
  replace (track columns [LF] sc) with 0%Z by reflexivity.
  unfold track.
  rewrite (updateLoop_counts columns Wrap.ASSISTANT_INDENT) by (reflexivity || cbn; lia).
  cbn. apply Z.mod_small. lia.
Qed.

Lemma track_char ch sc :
  N.eqb ch ESC = false -> N.eqb ch LF = false -> N.eqb ch CR = false ->
  track columns [ch] sc = if (terminalCols columns <=? sc + 1)%Z then 0%Z else (sc + 1)%Z.
Proof. intros H1 H2 H3. unfold track. cbn. rewrite H1, H2, H3. reflexivity. Qed.

Lemma no_escape_app (a b : jsstring) :
  forallb (fun c => negb (N.eqb c ESC)) a = true ->
  forallb (fun c => negb (N.eqb c ESC)) b = true ->
  forallb (fun c => negb (N.eqb c ESC)) (a ++ b) = true.
Proof.
  intros Ha Hb. rewrite forallb_app. apply andb_true_intro. split; assumption.
Qed.

Ltac rewrite_plain H :=
  let E := fresh "E" in
  pose proof H as E; unfold jsstring, char in E |- *; rewrite E; clear E.

Lemma wrap_tracked (text : jsstring) (sc0 : Z) :
  (16 < terminalCols columns)%Z ->
  forallb (fun c => negb (N.eqb c ESC) && negb (N.eqb c CR)) text = true ->
  forall fuel i col result,
    (0 <= col <= terminalCols columns)%Z ->
    forallb (fun c => negb (N.eqb c ESC)) result = true ->
    track columns result sc0 = (col mod terminalCols columns)%Z ->
    let r := Wrap.loop fuel (terminalCols columns) text i col result in
    track columns (fst r) sc0 = (snd r mod terminalCols columns)%Z.
Proof.
  intros Hw Ht. set (cols := terminalCols columns) in *.
  induction fuel as [|fuel IH]; intros i col result Hcol Hres Htr; cbv zeta; simpl;
    destruct (length text <=? i) eqn:Hi; simpl; try exact Htr.
  apply Nat.leb_gt in Hi. destruct (charAt_lt text i Hi) as [ch Hc].
  pose proof (charAt_forallb _ _ _ _ Ht Hc) as Hch. cbv beta in Hch.
  apply andb_prop in Hch. destruct Hch as [Hesc Hcr].
  apply negb_true_iff in Hesc, Hcr.
  rewrite (body_not_escape cols text i col ch Hc Hesc).
  destruct (N.eqb ch LF) eqn:Hlf.
  - apply IH.
    + lia.
    + apply no_escape_app; [exact Hres|reflexivity].
    + rewrite track_app by exact Hres. rewrite track_breakLine by exact Hw.
      rewrite Z.mod_small; lia.
  - destruct (Z.leb_spec cols col) as [Hfull|Hroom].
    + apply IH.
      * lia.
      * apply no_escape_app; [exact Hres|]. cbn. rewrite Hesc. reflexivity.
      * rewrite track_app by exact Hres.
        rewrite track_app by reflexivity.
        rewrite track_breakLine by exact Hw.
        rewrite_plain (track_char ch 16 Hesc Hlf Hcr). fold cols.
        destruct (Z.leb_spec cols (16 + 1)).
        -- assert (cols = 17)%Z by lia.
           replace (17 mod cols)%Z with 0%Z; [reflexivity|].
           symmetry. replace cols with 17%Z by lia. reflexivity.
        -- rewrite Z.mod_small; lia.
    + apply IH.
      * lia.
      * apply no_escape_app; [exact Hres|]. cbn. rewrite Hesc. reflexivity.
      * rewrite track_app by exact Hres. rewrite Htr.
        rewrite (Z.mod_small col) by lia.
        rewrite_plain (track_char ch col Hesc Hlf Hcr). fold cols.
        destruct (Z.leb_spec cols (col + 1)).
        -- assert (col + 1 = cols)%Z by lia.
           replace (col + 1)%Z with cols by lia. rewrite Z.mod_same; lia.
        -- rewrite Z.mod_small; lia.
Qed.

(** X28. The two column counters agree: when a text without ESC and carriage
    return is wrapped from column [startCol] and the wrapped text is
    streamed from the matching streaming column, the streaming column ends
    at the wrapper's end column (taken modulo the width, the wrapper leaving
    a full line at the width and the tracker at 0). *)
Theorem wrapped_text_is_tracked (text : jsstring) (startCol : Z) (s : state) :
  (16 < terminalCols columns)%Z ->
  (0 <= startCol <= terminalCols columns)%Z ->
  forallb (fun c => negb (N.eqb c ESC) && negb (N.eqb c CR)) text = true ->
  streamingCol s = (startCol mod terminalCols columns)%Z ->
  streamingCol
    (fst (updateStreamingCol columns
            (fst (Wrap.wrapAssistantText columns text startCol)) s))
  = (snd (Wrap.wrapAssistantText columns text startCol) mod terminalCols columns)%Z.
Proof.
  intros Hw Hc Ht Hs. unfold updateStreamingCol, assign. cbn [fst].
  replace (streamingCol (set_streamingCol _ s))
    with (track columns (fst (Wrap.wrapAssistantText columns text startCol)) (streamingCol s))
    by (destruct s; reflexivity).
  unfold Wrap.wrapAssistantText.
  apply (wrap_tracked text (streamingCol s) Hw Ht); [exact Hc|reflexivity|].
  cbn. exact Hs.
Qed.

End Terminal.
End CursorFacts.

Module LoopFacts.
Import Markdown JSFacts MarkdownFacts WrapFacts DisplayFacts.

(** X29. The three scanning loops end within as many iterations as their
    input has code units: more iterations change nothing in the result of
    [push], [wrapAssistantText] and [updateStreamingCol]. *)
Theorem loops_end_within_input (extra : nat) :
  (forall cols r chunk,
     loop (length (pending r ++ chunk) + extra) cols (set_pending [] r)
       (pending r ++ chunk) 0 []
     = push cols r chunk)
  /\ (forall columns text startCol,
        Wrap.loop (length text + extra) (terminalCols columns) text 0 startCol []
        = Wrap.wrapAssistantText columns text startCol)
  /\ (forall columns text col,
        Display.updateLoop columns (length text + extra) text 0 col
        = Display.updateLoop columns (length text) text 0 col).
Proof.
  split; [|split].
  - intros cols r chunk. unfold push. apply push_loop_fuel; lia.
  - intros columns text startCol. unfold Wrap.wrapAssistantText.
    apply wrap_loop_fuel; lia.
  - intros columns text col. apply updateLoop_fuel; lia.
Qed.

End LoopFacts.

(** ** Instances *)

Module Instances.
Import Markdown Wrap Display Monitor Samples Text Session Messages.
Import SessionFacts EditorFacts ColumnFacts WrapMore RenderFacts MessagesFacts
  LineFacts CursorFacts.

Lemma session_region_counted_witness :
  regionCounted initial = true
  /\ regionCounted
       (fst (reactAll None
               [Call StartSpinner; Key (lit "a"); Tick;
                Call (WriteStreaming (lit "hi")); TurnEnd] initial)) = true.
Proof.
  split; [reflexivity|].
  apply (session_region_counted None _ initial). reflexivity.
Defined.

Lemma session_permanent_without_newline_witness :
  running (fst (reactAll None [Call (WriteStreaming (lit "hi"))] initial)) = true
  /\ snd (writePermanent None (lit "X")
            (fst (reactAll None [Call (WriteStreaming (lit "hi"))] initial)))
     = [ClearLine; CarriageReturn; Text (lit "X" ++ [LF]); PromptLine false []].
Proof.
  split; [reflexivity|].
  rewrite (session_permanent_without_newline None
             [Call (WriteStreaming (lit "hi"))] (lit "X")); reflexivity.
Defined.

Lemma escape_sequences_swallowed_witness :
  escapeSeq started = 0
  /\ typeAll None [[ESC]; [91%N]; lit "A"] started = (started, [])
  /\ (lit "A" <> [91%N] -> typeAll None [[ESC]; lit "A"] started = (started, [])).
Proof.
  split; [reflexivity|].
  apply (escape_sequences_swallowed None started (lit "A")). reflexivity.
Defined.

Lemma backspace_removes_last_unit_witness :
  inputBuffer (fst (typeAll None [[55357%N; 56832%N]; [127%N]] started))
  = inputBuffer started ++ removelast [55357%N; 56832%N]
  /\ ([56832%N] = [] ->
      inputBuffer (fst (typeAll None [[55357%N; 56832%N]; [127%N]] started))
      = inputBuffer started)
  /\ messageQueue (fst (typeAll None [[55357%N; 56832%N]; [127%N]] started))
     = messageQueue started
  /\ escapeSeq (fst (typeAll None [[55357%N; 56832%N]; [127%N]] started)) = 0
  /\ (inputBuffer started = [] -> handleChar None [127%N] started = (started, [])).
Proof.
  apply (backspace_removes_last_unit None started 55357%N [56832%N] 127%N).
  - reflexivity.
  - reflexivity.
  - left. reflexivity.
Defined.

(** A letter is undone by backspace; of the two code units of U+1F600 the
    first stays. *)
Example backspace_samples :
  inputBuffer (fst (typeAll None [[97%N]; [127%N]] started)) = []
  /\ inputBuffer (fst (typeAll None [[55357%N; 56832%N]; [8%N]] started))
     = [55357%N].
Proof. split; vm_compute; reflexivity. Qed.

Lemma control_keys_ignored_witness :
  ignoredControl 1%N = true /\ handleChar None [1%N] started = (started, []).
Proof.
  split; [reflexivity|].
  apply (control_keys_ignored None started 1%N); [reflexivity|].
  left. reflexivity.
Defined.

Lemma blank_enter_queues_nothing_witness :
  messageQueue (fst (handleChar None [CR] started)) = messageQueue started
  /\ inputBuffer (fst (handleChar None [CR] started)) = []
  /\ last (snd (handleChar None [CR] started)) Newline = PromptLine false [].
Proof.
  apply (blank_enter_queues_nothing None started [CR]).
  - left. reflexivity.
  - reflexivity.
  - reflexivity.
Defined.

Lemma interrupt_shuts_down_once_witness :
  running (fst (handleChar None [3%N] started)) = false
  /\ spinnerTimer (fst (handleChar None [3%N] started)) = false
  /\ dynamicLineCount (fst (handleChar None [3%N] started)) = 0
  /\ promptVisible (fst (handleChar None [3%N] started)) = false
  /\ snd (handleChar None [3%N] started)
     = eraseWrites (dynamicLineCount started) ++ [Text farewell]
  /\ shutdown (fst (handleChar None [3%N] started))
     = (fst (handleChar None [3%N] started), []).
Proof.
  apply (interrupt_shuts_down_once None started 3%N).
  - reflexivity.
  - reflexivity.
  - left. reflexivity.
Defined.

Lemma spinner_round_trip_witness :
  (startSpinner None ;; clearSpinner None) started
  = (set_spinnerFrame 0 (set_streamingCol 0 started),
     [ClearLine; CarriageReturn; SpinnerLine 0; promptWrite None started;
      ClearLine; CursorUp; ClearLine; CarriageReturn; promptWrite None started]).
Proof. apply (spinner_round_trip None started); reflexivity. Defined.

Lemma streaming_column_composes_witness :
  fst (updateStreamingCol None (lit "ab" ++ lit "cd") started)
  = fst ((updateStreamingCol None (lit "ab") ;; updateStreamingCol None (lit "cd"))
           started).
Proof.
  apply (streaming_column_composes None (lit "ab") (lit "cd") started). reflexivity.
Defined.

Lemma control_sequence_keeps_streaming_column_witness :
  fst (updateStreamingCol None (controlSequence (lit "1") 109%N ++ lit "x") started)
  = fst (updateStreamingCol None (lit "x") started).
Proof.
  apply (control_sequence_keeps_streaming_column None (lit "1") 109%N (lit "x")
           started); reflexivity.
Defined.

Lemma streaming_column_counts_witness :
  inRange None started
  /\ streamingCol (fst (updateStreamingCol None (lit "hello") started))
     = ((streamingCol started + Z.of_nat (length (lit "hello")))
          mod terminalCols None)%Z.
Proof.
  assert (H : inRange None started) by (unfold inRange; simpl; lia).
  split; [exact H|].
  apply (streaming_column_counts None (lit "hello") started); [reflexivity|exact H].
Defined.

Lemma wrap_composes_witness :
  wrapAssistantText None (lit "hello " ++ lit "world") 16
  = (fst (wrapAssistantText None (lit "hello ") 16)
     ++ fst (wrapAssistantText None (lit "world")
               (snd (wrapAssistantText None (lit "hello ") 16))),
     snd (wrapAssistantText None (lit "world")
            (snd (wrapAssistantText None (lit "hello ") 16)))).
Proof.
  apply (wrap_composes None (lit "hello ") (lit "world") 16). reflexivity.
Defined.

Lemma wrap_copies_control_sequence_witness :
  wrapAssistantText None (controlSequence (lit "1") 109%N ++ lit "x") 16
  = (controlSequence (lit "1") 109%N ++ fst (wrapAssistantText None (lit "x") 16),
     snd (wrapAssistantText None (lit "x") 16)).
Proof.
  apply (wrap_copies_control_sequence None (lit "1") 109%N (lit "x") 16);
    reflexivity.
Defined.

Lemma wrap_keeps_short_text_witness :
  wrapAssistantText None (lit "hello") 16
  = (lit "hello", (16 + Z.of_nat (length (lit "hello")))%Z).
Proof.
  apply (wrap_keeps_short_text None (lit "hello") 16); [reflexivity|].
  simpl. lia.
Defined.

Lemma wrap_column_bounded_witness :
  (snd (wrapAssistantText None styled 77) <= terminalCols None)%Z.
Proof. apply (wrap_column_bounded None styled 77); simpl; lia. Defined.

Lemma push_returns_witness :
  exists out, snd (push 80 fresh (lit "---" ++ [LF])) = Returned out.
Proof. apply (push_returns 80 fresh (lit "---" ++ [LF])). lia. Defined.

Lemma plain_text_unchanged_witness :
  snd (push 80 fresh (lit "hello world")) = Returned (lit "hello world")
  /\ sameStyle fresh (fst (push 80 fresh (lit "hello world"))).
Proof. apply (plain_text_unchanged 80 fresh (lit "hello world")); reflexivity. Defined.

Lemma block_text_unchanged_witness :
  snd (push 80 inFourTicks (lit "**not bold**")) = Returned (lit "**not bold**")
  /\ sameStyle inFourTicks (fst (push 80 inFourTicks (lit "**not bold**"))).
Proof.
  apply (block_text_unchanged 80 inFourTicks (lit "**not bold**"));
    try reflexivity.
  vm_compute. lia.
Defined.

Lemma inline_code_text_unchanged_witness :
  snd (push 80 (fst (push 80 fresh (lit "`"))) (lit "a*b")) = Returned (lit "a*b")
  /\ sameStyle (fst (push 80 fresh (lit "`")))
       (fst (push 80 (fst (push 80 fresh (lit "`"))) (lit "a*b"))).
Proof.
  apply (inline_code_text_unchanged 80 (fst (push 80 fresh (lit "`"))) (lit "a*b"));
    reflexivity.
Defined.


Lemma typed_line_is_queued_witness :
  messageQueue
    (fst (typeAll None (map (fun c => [c]) (lit " hi there") ++ [[CR]]) started))
  = messageQueue started ++ [mkMessage (trim (lit " hi there")) local]
  /\ inputBuffer
       (fst (typeAll None (map (fun c => [c]) (lit " hi there") ++ [[CR]]) started))
     = [].
Proof.
  apply (typed_line_is_queued None started (lit " hi there") [CR]);
    try reflexivity.
  - vm_compute. discriminate.
  - left. reflexivity.
Defined.

Lemma wrapped_text_is_tracked_witness :
  streamingCol
    (fst (updateStreamingCol None
            (fst (wrapAssistantText None (lit "hello") 16))
            (set_streamingCol 16 started)))
  = (snd (wrapAssistantText None (lit "hello") 16) mod terminalCols None)%Z.
Proof.
  apply (wrapped_text_is_tracked None (lit "hello") 16 (set_streamingCol 16 started));
    try reflexivity; simpl; lia.
Defined.

(** What the split of a short text looks like. *)
Example splitMessage_sample :
  splitMessage (lit "hello world") 5
  = Some [lit "[1/2]" ++ [LF] ++ lit "hello"; lit "[2/2]" ++ [LF] ++ lit "world"].
Proof. vm_compute. reflexivity. Qed.

Lemma formatDuration_parts_witness :
  ((3725 < 60)%Z /\ formatDuration 3725 = Some (decimal 3725 ++ lit "s"))
  \/ (exists m s,
        (60 <= 3725 < 3600 /\ 3725 = 60 * m + s /\ 1 <= m < 60 /\ 0 <= s < 60)%Z
        /\ formatDuration 3725
           = Some (decimal m ++ lit "m " ++ decimal s ++ lit "s"))
  \/ (exists h m,
        (3600 <= 3725 /\ 3600 * h + 60 * m <= 3725 < 3600 * h + 60 * m + 60
         /\ 1 <= h /\ 0 <= m < 60)%Z
        /\ formatDuration 3725
           = Some (decimal h ++ lit "h " ++ decimal m ++ lit "m")).
Proof. apply (formatDuration_parts 3725). reflexivity. Defined.

Example formatDuration_samples :
  formatDuration 59 = Some (lit "59s")
  /\ formatDuration 125 = Some (lit "2m 5s")
  /\ formatDuration 3725 = Some (lit "1h 2m")
  /\ formatDuration (-1) = Some (lit "-1s")
  /\ formatDuration (10 ^ 21) = None.
Proof. repeat split. Qed.

End Instances.
